(** * Multi-interface OPC UA examples: a shallow embedding

    The repository's Go sources under [examples/multi-interface] are two
    programs of package [main]:

    - the basic example ([connectWithLocalAddr], [readNodeValue], [main],
      [monitorMultipleDevices]), embedded in module [Basic];
    - the advanced example ([DeviceConnection], [MultiInterfaceManager] and
      its methods, [GetAvailableInterfaces]), embedded in module [Advanced].

    Both programs delegate the protocol work to the [opcua], [ua] and [net]
    packages.  Those packages are not part of the sources at hand; they are
    taken as a parameter (class [Env]): every call into them is answered by
    an oracle that threads an abstract [World].  Everything the programs do
    that is observable from the outside is appended to a trace of events. *)

From Stdlib Require Import ZArith String List Lia Bool.
From stdpp Require Import base list strings sets pretty.

Open Scope string_scope.
Open Scope Z_scope.
Open Scope list_scope.

(** ** Go data shared by both programs *)

(** [time.Duration] counts nanoseconds. *)
Definition Duration := Z.
Definition Second : Duration := 1000000000.

(** [ua.StatusCode] is a [uint32]; [ua.StatusOK] is zero. *)
Definition StatusCode := Z.
Definition StatusOK : StatusCode := 0.

(** The two contexts of the programs: [context.Background()], which is
    never done, and a cancellable context, which in the advanced example
    is the one held by the manager ([m.ctx]). *)
Inductive context := Background | ManagerCtx.

(** The branch a [select] of the programs takes: the receive from
    [ctx.Done()], or the receive from the ticker. *)
Inductive select_case := CaseDone | CaseTick.

(** [opcua.Option] values, by the constructor that built them. *)
Module opcua.
Inductive Option :=
| SecurityPolicy (uri : string)
| SecurityModeString (s : string)
| LocalAddr (addr : string)
| AutoReconnect (b : bool)
| ReconnectInterval (d : Duration)
| DialTimeout (d : Duration).
End opcua.

(** [ua.TimestampsToReturn]; the zero value is [Source]. *)
Inductive TimestampsToReturn :=
| TimestampsToReturnSource
| TimestampsToReturnServer
| TimestampsToReturnBoth
| TimestampsToReturnNeither.

Record ReadValueID (NodeID : Type) := { rv_NodeID : NodeID }.
Arguments rv_NodeID {NodeID} _.

Record ReadRequest (NodeID : Type) := {
  MaxAge : Z;
  NodesToRead : list (ReadValueID NodeID);
  TimestampsToReturn_ : TimestampsToReturn
}.
Arguments MaxAge {NodeID} _.
Arguments NodesToRead {NodeID} _.
Arguments TimestampsToReturn_ {NodeID} _.

Record DataValue (Variant Time : Type) := {
  Value : Variant;
  Status : StatusCode;
  SourceTimestamp : Time;
  ServerTimestamp : Time
}.
Arguments Value {Variant Time} _.
Arguments Status {Variant Time} _.
Arguments SourceTimestamp {Variant Time} _.
Arguments ServerTimestamp {Variant Time} _.

Record ReadResponse (Variant Time : Type) := {
  Results : list (DataValue Variant Time)
}.
Arguments Results {Variant Time} _.

(** [net.Interface] and [net.Addr].  An address is either a [*net.IPNet]
    or a value of another dynamic type. *)
Definition FlagUp : Z := 1.

Record Interface := { if_Index : Z; if_Name : string; if_Flags : Z }.

Inductive Addr (IP : Type) :=
| IPNet (ip : IP) (mask : list Z)
| OtherAddr (s : string).
Arguments IPNet {IP} _ _.
Arguments OtherAddr {IP} _.

(** The command-line flags of the basic example: the values that
    [flag.String] declares and [flag.Parse] sets. *)
Record flags := {
  endpoint1 : string;
  endpoint2 : string;
  localAddr1 : string;
  localAddr2 : string;
  nodeID : string
}.

(** How [flag.Parse()] ends.  The command-line flag set handles errors
    with [flag.ExitOnError]: the flags are set, or the command line asks
    for help ([flag.ErrHelp]), or it is wrong. *)
Inductive flag_result :=
| FlagParsed (f : flags)
| FlagErrHelp
| FlagError.

(** ** The packages the programs call into

    A Go call returning [(T, error)] is answered by a pair whose second
    component is [None] for a [nil] error.  A [*opcua.Client] is an
    [option Client], with [None] for the [nil] pointer. *)
Class Env := {
  World : Type;
  opcua_Client : Type;
  ua_NodeID : Type;
  ua_Variant : Type;
  time_Time : Type;
  net_IP : Type;
  LibError : Type;
  (* packages ua and id *)
  SecurityPolicyURINone : string;
  id_Server_ServerStatus_State : Z;
  lib_ParseNodeID : string -> ua_NodeID * option LibError;
  lib_NewNumericNodeID : Z -> Z -> ua_NodeID;
  (* package opcua *)
  lib_NewClient :
    string -> list opcua.Option -> World ->
    (option opcua_Client * option LibError) * World;
  lib_Connect : option opcua_Client -> context -> World -> option LibError * World;
  lib_Read :
    option opcua_Client -> context -> ReadRequest ua_NodeID -> World ->
    (ReadResponse ua_Variant time_Time * option LibError) * World;
  lib_Close : option opcua_Client -> context -> World -> option LibError * World;
  (* package flag: the command line parsed over the declared defaults *)
  lib_flag_Parse : flags -> World -> flag_result * World;
  (* package net *)
  os_Interfaces : World -> (list Interface * option LibError) * World;
  os_Addrs : Interface -> World -> (list (Addr net_IP) * option LibError) * World;
  IP_IsLoopback : net_IP -> bool;
  IP_To4 : net_IP -> option net_IP;
  IP_String : net_IP -> string
}.

(** How a computation ends: it returns, or the process exits ([os.Exit],
    reached through [log.Fatalf]), or the goroutine cannot proceed
    ([Blocked]: a lock that is held, a [WaitGroup] that is not at zero, a
    channel that is not ready), or it panics. *)
Inductive result (A : Type) :=
| Ret (a : A)
| Exit (code : Z)
| Blocked
| Panic.
Arguments Ret {A} _.
Arguments Exit {A} _.
Arguments Blocked {A}.
Arguments Panic {A}.

Section Runtime.
Context `{E : Env}.

(** Go [error] values that are not [nil]: those handed out by the packages
    and those built by [fmt.Errorf]. *)
Inductive goerror :=
| LibErr (e : LibError)
| Errorf (format : string) (args : list errarg)
with errarg :=
| ErrArgError (e : goerror)
| ErrArgStatus (s : StatusCode).

(** A Go [error]: [None] is [nil]. *)
Definition error := option goerror.

Definition lift_err (e : option LibError) : error := LibErr <$> e.

(** Arguments of the [fmt] and [log] printing functions. *)
Inductive fmtarg :=
| ArgString (s : string)
| ArgError (e : goerror)
| ArgStatus (s : StatusCode)
| ArgValue (v : ua_Variant)
| ArgTypeOf (v : ua_Variant)
| ArgTime (t : time_Time).

(** Pointers to [DeviceConnection] values are addresses into the heap. *)
Definition ptr := nat.

Inductive field := FClient | FConnected | FLastError.

(** What a run does that can be observed. *)
Inductive event :=
| EvNewClient (endpoint : string) (opts : list opcua.Option)
| EvConnect (c : option opcua_Client) (ctx : context)
| EvRead (c : option opcua_Client) (ctx : context) (req : ReadRequest ua_NodeID)
| EvClose (c : option opcua_Client) (ctx : context)
| EvFlagParse
| EvInterfaces
| EvAddrs (i : Interface)
| EvPrintf (format : string) (args : list fmtarg)
| EvPrintln (line : string)
| EvLogPrintf (format : string) (args : list fmtarg)
| EvLogFatalf (format : string) (args : list fmtarg)
| EvLock (d : ptr)
| EvUnlock (d : ptr)
| EvRLock (d : ptr)
| EvRUnlock (d : ptr)
| EvLoad (d : ptr) (f : field)
| EvStore (d : ptr) (f : field)
| EvCancel
| EvWgAdd (n : Z)
| EvWgDone
| EvWgWait
| EvGo (d : ptr)
| EvNewTicker (d : Duration)
| EvTickerStop.

(** ** The monad of Go code

    A computation threads the world, the trace and the program's own
    memory [U]. *)
Record state (U : Type) := { world : World; trace : list event; mem : U }.
Arguments world {U} _.
Arguments trace {U} _.
Arguments mem {U} _.

Definition M (U A : Type) := state U -> result A * state U.

Definition ret {U A} (a : A) : M U A := fun s => (Ret a, s).

Definition bind {U A B} (m : M U A) (k : A -> M U B) : M U B :=
  fun s =>
    match m s with
    | (Ret a, s') => k a s'
    | (Exit c, s') => (Exit c, s')
    | (Blocked, s') => (Blocked, s')
    | (Panic, s') => (Panic, s')
    end.

Definition emit {U} (e : event) : M U unit :=
  fun s => (Ret tt, {| world := world s; trace := trace s ++ [e]; mem := mem s |}).

(** A call into a package: the event is logged, the oracle answers. *)
Definition call {U A} (e : event) (f : World -> A * World) : M U A :=
  fun s =>
    let '(a, w) := f (world s) in
    (Ret a, {| world := w; trace := trace s ++ [e]; mem := mem s |}).

Definition get_mem {U} : M U U := fun s => (Ret (mem s), s).

Definition put_mem {U} (u : U) : M U unit :=
  fun s => (Ret tt, {| world := world s; trace := trace s; mem := u |}).

Definition os_Exit {U A} (code : Z) : M U A := fun s => (Exit code, s).
Definition block {U A} : M U A := fun s => (Blocked, s).
Definition panic {U A} : M U A := fun s => (Panic, s).

End Runtime.

Arguments world {E U} _.
Arguments trace {E U} _.
Arguments mem {E U} _.

Declare Scope go_scope.
Delimit Scope go_scope with go.
Notation "'let*' x ':=' c1 'in' c2" := (bind c1 (fun x => c2))
  (at level 10, x pattern, c1 at level 100, c2 at level 200) : go_scope.
Notation "c1 ;; c2" := (bind c1 (fun _ => c2))
  (at level 100, c2 at level 200, right associativity) : go_scope.
Open Scope go_scope.

Section Packages.
Context `{E : Env} {U : Type}.

(** Wrappers naming the library calls as the sources do.  A client is a
    pointer, [None] when nil.  The oracle answers a method called on a
    nil client like any other call, where the package would dereference
    the pointer; the theorems that state what [readNodeValue] and
    [healthCheck] return take a client that is not nil. *)
Definition opcua_NewClient (endpoint : string) (opts : list opcua.Option)
  : M U (option opcua_Client * error) :=
  let* (c, err) := call (EvNewClient endpoint opts) (lib_NewClient endpoint opts) in
  ret (c, lift_err err).

Definition Client_Connect (c : option opcua_Client) (ctx : context) : M U error :=
  let* err := call (EvConnect c ctx) (lib_Connect c ctx) in
  ret (lift_err err).

Definition Client_Read (c : option opcua_Client) (ctx : context) (req : ReadRequest ua_NodeID)
  : M U (ReadResponse ua_Variant time_Time * error) :=
  let* (resp, err) := call (EvRead c ctx req) (lib_Read c ctx req) in
  ret (resp, lift_err err).

Definition Client_Close (c : option opcua_Client) (ctx : context) : M U error :=
  let* err := call (EvClose c ctx) (lib_Close c ctx) in
  ret (lift_err err).

(** [flag.Parse()] for flags declared with the values [defaults].  On
    an error the package prints the usage and calls [os.Exit(2)]; when
    the error is [flag.ErrHelp] it calls [os.Exit(0)]. *)
Definition flag_Parse (defaults : flags) : M U flags :=
  let* r := call EvFlagParse (lib_flag_Parse defaults) in
  match r with
  | FlagParsed f => ret f
  | FlagErrHelp => os_Exit 0
  | FlagError => os_Exit 2
  end.

Definition ua_ParseNodeID (s : string) : ua_NodeID * error :=
  let '(n, err) := lib_ParseNodeID s in (n, lift_err err).

Definition net_Interfaces : M U (list Interface * error) :=
  let* (l, err) := call EvInterfaces os_Interfaces in
  ret (l, lift_err err).

Definition Interface_Addrs (i : Interface) : M U (list (Addr net_IP) * error) :=
  let* (l, err) := call (EvAddrs i) (os_Addrs i) in
  ret (l, lift_err err).

Definition fmt_Printf (format : string) (args : list fmtarg) : M U unit :=
  emit (EvPrintf format args).

Definition fmt_Println (line : string) : M U unit :=
  emit (EvPrintln line).

Definition log_Printf (format : string) (args : list fmtarg) : M U unit :=
  emit (EvLogPrintf format args).

(** [log.Fatalf] prints and then calls [os.Exit(1)]: deferred calls of the
    caller do not run. *)
Definition log_Fatalf {A} (format : string) (args : list fmtarg) : M U A :=
  emit (EvLogFatalf format args) ;; os_Exit 1.

End Packages.

(** ** Reading a trace *)
Section Observations.
Context `{E : Env}.

(** The clients on which [Connect] was called, in order. *)
Definition connected_clients (evs : list event) : list (option opcua_Client) :=
  omap (fun ev =>
    match ev with
    | EvConnect c _ => Some c
    | _ => None
    end) evs.

(** The clients on which [Close] was called, in order. *)
Definition closed_clients (evs : list event) : list (option opcua_Client) :=
  omap (fun ev =>
    match ev with
    | EvClose c _ => Some c
    | _ => None
    end) evs.

(** The clients on which [Read] was called, in order. *)
Definition read_clients (evs : list event) : list (option opcua_Client) :=
  omap (fun ev =>
    match ev with
    | EvRead c _ _ => Some c
    | _ => None
    end) evs.

(** What was printed or logged. *)
Definition is_output (ev : event) : bool :=
  match ev with
  | EvPrintf _ _ | EvPrintln _ | EvLogPrintf _ _ | EvLogFatalf _ _ => true
  | _ => false
  end.

(** The events of a ticker. *)
Definition is_ticker (ev : event) : bool :=
  match ev with
  | EvNewTicker _ | EvTickerStop => true
  | _ => false
  end.

End Observations.

(** ** The basic example *)
Module Basic.
Section Basic.
Context `{E : Env} {U : Type}.

(** The option list [opts] of [connectWithLocalAddr]. *)
Definition connect_opts (localAddr : string) : list opcua.Option :=
  [ opcua.SecurityPolicy SecurityPolicyURINone;
    opcua.SecurityModeString "None";
    opcua.LocalAddr localAddr;
    opcua.AutoReconnect true;
    opcua.ReconnectInterval (5 * Second) ].

Definition connectWithLocalAddr (ctx : context) (endpoint localAddr : string)
  : M U (option opcua_Client * error) :=
  let opts := connect_opts localAddr in
  let* (c, err) := opcua_NewClient endpoint opts in
  match err with
  | Some e => ret (None, Some (Errorf "创建客户端失败: %v" [ErrArgError e]))
  | None =>
    let* err := Client_Connect c ctx in
    match err with
    | Some e => ret (None, Some (Errorf "连接服务器失败: %v" [ErrArgError e]))
    | None =>
      fmt_Printf "成功连接到 %s (本地地址: %s)\n" [ArgString endpoint; ArgString localAddr] ;;
      ret (c, None)
    end
  end.

Definition readNodeValue (ctx : context) (client : option opcua_Client)
    (nodeIDStr deviceName : string) : M U error :=
  let '(nodeID, err) := ua_ParseNodeID nodeIDStr in
  match err with
  | Some e => ret (Some (Errorf "解析节点ID失败: %v" [ErrArgError e]))
  | None =>
    let req := {| MaxAge := 2000;
                  NodesToRead := [ {| rv_NodeID := nodeID |} ];
                  TimestampsToReturn_ := TimestampsToReturnBoth |} in
    let* (resp, err) := Client_Read client ctx req in
    match err with
    | Some e => ret (Some (Errorf "读取请求失败: %v" [ErrArgError e]))
    | None =>
      match Results resp with
      | [] => ret (Some (Errorf "没有读取结果" []))
      | result :: _ =>
        if negb (Z.eqb (Status result) StatusOK) then
          ret (Some (Errorf "读取状态错误: %v" [ErrArgStatus (Status result)]))
        else
          fmt_Printf "%s - 节点 %s 的值: %v (类型: %T)\n"
            [ArgString deviceName; ArgString nodeIDStr;
             ArgValue (Value result); ArgTypeOf (Value result)] ;;
          fmt_Printf "%s - 服务器时间戳: %v\n"
            [ArgString deviceName; ArgTime (ServerTimestamp result)] ;;
          fmt_Printf "%s - 源时间戳: %v\n"
            [ArgString deviceName; ArgTime (SourceTimestamp result)] ;;
          ret None
      end
    end
  end.

Definition createCustomDialer (localAddr : string) : opcua.Option := opcua.LocalAddr localAddr.

(** The struct of the device table of [monitorMultipleDevices]. *)
Record device := { dev_endpoint : string; dev_localAddr : string; dev_name : string }.

Definition monitorMultipleDevices_devices : list device :=
  [ {| dev_endpoint := "opc.tcp://192.168.100.1:4840";
       dev_localAddr := "192.168.100.10:0"; dev_name := "设备A" |};
    {| dev_endpoint := "opc.tcp://192.168.100.1:4840";
       dev_localAddr := "192.168.100.20:0"; dev_name := "设备B" |} ].

(** The loop of the goroutine that [monitorMultipleDevices] starts for a
    device, driven by the branches its [select] takes; the result tells
    whether the loop was left.  The receive from [ctx.Done()] blocks for
    ever on [context.Background()]. *)
Fixpoint poll_loop (ctx : context) (client : option opcua_Client) (dev : device)
    (sel : list select_case) : M U bool :=
  match sel with
  | [] => ret false
  | CaseDone :: _ =>
    match ctx with
    | Background => block
    | ManagerCtx => ret true
    end
  | CaseTick :: sel' =>
    let* err := readNodeValue ctx client
                  (String.append "i=" (pretty id_Server_ServerStatus_State))
                  (dev_name dev) in
    match err with
    | Some e => log_Printf "%s 读取状态失败: %v" [ArgString (dev_name dev); ArgError e]
    | None => ret tt
    end ;;
    poll_loop ctx client dev sel'
  end.

(** The goroutine itself: it connects, and polls only if that succeeded;
    when it leaves the loop, the deferred [ticker.Stop()] and
    [client.Close(ctx)] run. *)
Definition poll_device (ctx : context) (dev : device) (sel : list select_case)
  : M U bool :=
  let* (client, err) := connectWithLocalAddr ctx (dev_endpoint dev) (dev_localAddr dev) in
  match err with
  | Some e =>
    log_Printf "连接 %s 失败: %v" [ArgString (dev_name dev); ArgError e] ;;
    ret true
  | None =>
    emit (EvNewTicker (5 * Second)) ;;
    let* returned := poll_loop ctx client dev sel in
    if returned then emit EvTickerStop ;; Client_Close client ctx ;; ret true
    else ret false
  end.

(** The ticks a goroutine serves before the first cancellation that its
    [select] takes. *)
Fixpoint ticks (sel : list select_case) : nat :=
  match sel with
  | CaseTick :: sel' => S (ticks sel')
  | _ => O
  end.

(** [monitorMultipleDevices] starts one goroutine per device and returns
    nil; the goroutines are its first result. *)
Definition monitorMultipleDevices (ctx : context)
  : list (list select_case → M U bool) * error :=
  (map (poll_device ctx) monitorMultipleDevices_devices, None).

(** The defaults with which [main] declares its flags. *)
Definition default_flags : flags :=
  {| endpoint1 := "opc.tcp://192.168.100.1:4840";
     endpoint2 := "opc.tcp://192.168.100.1:4840";
     localAddr1 := "192.168.100.10:0";
     localAddr2 := "192.168.100.20:0";
     nodeID := "i=2258" |}.

(** [main] once [flag.Parse()] has returned, with the flags [f].  The
    two deferred [Close] calls run, last first, when [main] returns; they
    do not run when [log.Fatalf] ends the process. *)
Definition main (f : flags) : M U unit :=
  let ctx := Background in
  fmt_Printf "通过网卡 %s 连接到设备 %s\n" [ArgString (localAddr1 f); ArgString (endpoint1 f)] ;;
  let* (client1, err) := connectWithLocalAddr ctx (endpoint1 f) (localAddr1 f) in
  match err with
  | Some e => log_Fatalf "连接第一个设备失败: %v" [ArgError e]
  | None =>
    fmt_Printf "通过网卡 %s 连接到设备 %s\n" [ArgString (localAddr2 f); ArgString (endpoint2 f)] ;;
    let* (client2, err) := connectWithLocalAddr ctx (endpoint2 f) (localAddr2 f) in
    match err with
    | Some e => log_Fatalf "连接第二个设备失败: %v" [ArgError e]
    | None =>
      fmt_Println "\n=== 从第一个设备读取数据 ===" ;;
      let* err := readNodeValue ctx client1 (nodeID f) "设备1" in
      match err with
      | Some e => log_Printf "从设备1读取数据失败: %v" [ArgError e]
      | None => ret tt
      end ;;
      fmt_Println "\n=== 从第二个设备读取数据 ===" ;;
      let* err := readNodeValue ctx client2 (nodeID f) "设备2" in
      match err with
      | Some e => log_Printf "从设备2读取数据失败: %v" [ArgError e]
      | None => ret tt
      end ;;
      fmt_Println "\n连接测试完成！" ;;
      Client_Close client2 ctx ;;
      Client_Close client1 ctx ;;
      ret tt
    end
  end.

(** [main] from its first line: the flags are declared with their
    defaults, [flag.Parse()] reads the command line, and the rest runs
    with the flags as parsed. *)
Definition main_program : M U unit :=
  let* f := flag_Parse default_flags in
  main f.

End Basic.
End Basic.

(** ** The advanced example: the connection manager *)
Module Advanced.

(** [sync.RWMutex]: held by one writer or by a number of readers. *)
Record RWMutex := { writer : bool; readers : nat }.

Definition unlocked : RWMutex := {| writer := false; readers := 0 |}.

Section Advanced.
Context `{E : Env}.

(** Where a monitoring goroutine stands: started by [go] and not yet run;
    at the [select] of its loop; in an iteration, after
    [device.IsConnected()] has returned true; in an iteration, after
    [device.GetClient()] has returned, with the value of its variable
    [client]; or returned. *)
Inductive gstatus :=
| Spawned
| Looping
| Checked
| Fetched (client : option opcua_Client)
| Finished.

Record DeviceConnection := {
  Name : string;
  Endpoint : string;
  LocalAddr : string;
  Client : option opcua_Client;
  Connected : bool;
  LastError : error;
  mu : RWMutex
}.

(** [ctx]/[cancel] are one flag: whether [m.ctx] has been cancelled.
    [wg] is the counter of the [sync.WaitGroup]. *)
Record MultiInterfaceManager := {
  devices : list ptr;
  ctx_done : bool;
  wg : Z
}.

(** The memory of the program: the [DeviceConnection] values allocated so
    far, the manager, and the goroutines started with [go], each with the
    device it monitors. *)
Record memory := {
  heap : list DeviceConnection;
  mgr : MultiInterfaceManager;
  goroutines : list (ptr * gstatus)
}.

Definition set_heap (h : list DeviceConnection) (u : memory) : memory :=
  {| heap := h; mgr := mgr u; goroutines := goroutines u |}.

Definition set_mgr (m : MultiInterfaceManager) (u : memory) : memory :=
  {| heap := heap u; mgr := m; goroutines := goroutines u |}.

Definition set_goroutines (g : list (ptr * gstatus)) (u : memory) : memory :=
  {| heap := heap u; mgr := mgr u; goroutines := g |}.

Definition set_Client (c : option opcua_Client) (d : DeviceConnection) :=
  {| Name := Name d; Endpoint := Endpoint d; LocalAddr := LocalAddr d;
     Client := c; Connected := Connected d; LastError := LastError d; mu := mu d |}.

Definition set_Connected (b : bool) (d : DeviceConnection) :=
  {| Name := Name d; Endpoint := Endpoint d; LocalAddr := LocalAddr d;
     Client := Client d; Connected := b; LastError := LastError d; mu := mu d |}.

Definition set_LastError (e : error) (d : DeviceConnection) :=
  {| Name := Name d; Endpoint := Endpoint d; LocalAddr := LocalAddr d;
     Client := Client d; Connected := Connected d; LastError := e; mu := mu d |}.

Definition set_mu (l : RWMutex) (d : DeviceConnection) :=
  {| Name := Name d; Endpoint := Endpoint d; LocalAddr := LocalAddr d;
     Client := Client d; Connected := Connected d; LastError := LastError d; mu := l |}.

(** *** Memory and synchronisation primitives *)

(** Dereferencing a pointer that is not in the heap panics. *)
Definition deref (d : ptr) : M memory DeviceConnection :=
  let* u := get_mem in
  match heap u !! d with
  | Some dev => ret dev
  | None => panic
  end.

Definition modify (d : ptr) (f : DeviceConnection -> DeviceConnection) : M memory unit :=
  let* dev := deref d in
  let* u := get_mem in
  put_mem (set_heap (<[d := f dev]> (heap u)) u).

Definition new (dev : DeviceConnection) : M memory ptr :=
  let* u := get_mem in
  put_mem (set_heap (heap u ++ [dev]) u) ;;
  ret (length (heap u)).

(** Accesses to the three fields the mutex protects are events. *)
Definition load_Client (d : ptr) : M memory (option opcua_Client) :=
  let* dev := deref d in emit (EvLoad d FClient) ;; ret (Client dev).

Definition load_Connected (d : ptr) : M memory bool :=
  let* dev := deref d in emit (EvLoad d FConnected) ;; ret (Connected dev).

Definition store_Client (d : ptr) (c : option opcua_Client) : M memory unit :=
  modify d (set_Client c) ;; emit (EvStore d FClient).

Definition store_Connected (d : ptr) (b : bool) : M memory unit :=
  modify d (set_Connected b) ;; emit (EvStore d FConnected).

Definition store_LastError (d : ptr) (e : error) : M memory unit :=
  modify d (set_LastError e) ;; emit (EvStore d FLastError).

(** [d.mu.Lock()] waits while the mutex is held in any mode. *)
Definition mu_Lock (d : ptr) : M memory unit :=
  let* dev := deref d in
  if writer (mu dev) || negb (readers (mu dev) =? 0)%nat then block
  else modify d (set_mu {| writer := true; readers := 0 |}) ;; emit (EvLock d).

(** [d.mu.Unlock()] of a mutex that is not write-locked is a fatal error. *)
Definition mu_Unlock (d : ptr) : M memory unit :=
  let* dev := deref d in
  if writer (mu dev) then modify d (set_mu unlocked) ;; emit (EvUnlock d)
  else panic.

(** [d.mu.RLock()] waits while a writer holds the mutex. *)
Definition mu_RLock (d : ptr) : M memory unit :=
  let* dev := deref d in
  if writer (mu dev) then block
  else modify d (set_mu {| writer := false; readers := S (readers (mu dev)) |}) ;;
       emit (EvRLock d).

Definition mu_RUnlock (d : ptr) : M memory unit :=
  let* dev := deref d in
  match readers (mu dev) with
  | O => panic
  | S n => modify d (set_mu {| writer := writer (mu dev); readers := n |}) ;;
           emit (EvRUnlock d)
  end.

Definition get_mgr : M memory MultiInterfaceManager :=
  let* u := get_mem in ret (mgr u).

Definition put_mgr (m : MultiInterfaceManager) : M memory unit :=
  let* u := get_mem in put_mem (set_mgr m u).

(** [m.cancel()] *)
Definition cancel : M memory unit :=
  let* m := get_mgr in
  put_mgr {| devices := devices m; ctx_done := true; wg := wg m |} ;;
  emit EvCancel.

(** [<-m.ctx.Done()]: ready only once the context is cancelled. *)
Definition recv_ctx_Done : M memory unit :=
  let* m := get_mgr in
  if ctx_done m then ret tt else block.

Definition wg_Add (n : Z) : M memory unit :=
  let* m := get_mgr in
  if wg m + n <? 0 then panic
  else put_mgr {| devices := devices m; ctx_done := ctx_done m; wg := wg m + n |} ;;
       emit (EvWgAdd n).

Definition wg_Done : M memory unit :=
  let* m := get_mgr in
  if wg m - 1 <? 0 then panic
  else put_mgr {| devices := devices m; ctx_done := ctx_done m; wg := wg m - 1 |} ;;
       emit EvWgDone.

(** [m.wg.Wait()] returns only when the counter is zero. *)
Definition wg_Wait : M memory unit :=
  let* m := get_mgr in
  if wg m =? 0 then emit EvWgWait else block.

(** [go m.monitorDevice(device)] *)
Definition go_monitorDevice (device : ptr) : M memory unit :=
  let* u := get_mem in
  put_mem (set_goroutines (goroutines u ++ [(device, Spawned)]) u) ;;
  emit (EvGo device).

(** [for _, x := range l { body }] *)
Fixpoint for_range {U A} (l : list A) (body : A -> M U unit) : M U unit :=
  match l with
  | [] => ret tt
  | x :: l' => body x ;; for_range l' body
  end.

(** A loop that carries a variable through its iterations. *)
Fixpoint for_range_acc {U A B} (l : list A) (acc : B) (body : B -> A -> M U B) : M U B :=
  match l with
  | [] => ret acc
  | x :: l' => let* acc' := body acc x in for_range_acc l' acc' body
  end.

(** *** The manager and its methods *)

Definition NewMultiInterfaceManager : MultiInterfaceManager :=
  {| devices := []; ctx_done := false; wg := 0 |}.

(** The composite literal of [AddDevice]: the fields it does not name
    have their zero values. *)
Definition new_DeviceConnection (name endpoint localAddr : string) : DeviceConnection :=
  {| Name := name; Endpoint := endpoint; LocalAddr := localAddr;
     Client := None; Connected := false; LastError := None;
     mu := unlocked |}.

Definition AddDevice (name endpoint localAddr : string) : M memory unit :=
  let* device := new (new_DeviceConnection name endpoint localAddr) in
  let* m := get_mgr in
  put_mgr {| devices := devices m ++ [device]; ctx_done := ctx_done m; wg := wg m |}.

(** The option list [opts] of [connectDevice]. *)
Definition connectDevice_opts (localAddr : string) : list opcua.Option :=
  [ opcua.SecurityPolicy SecurityPolicyURINone;
    opcua.SecurityModeString "None";
    opcua.LocalAddr localAddr;
    opcua.AutoReconnect true;
    opcua.ReconnectInterval (5 * Second);
    opcua.DialTimeout (10 * Second) ].

Definition connectDevice (device : ptr) : M memory error :=
  let* dev := deref device in
  let opts := connectDevice_opts (LocalAddr dev) in
  let* (client, err) := opcua_NewClient (Endpoint dev) opts in
  match err with
  | Some e => ret (Some (Errorf "创建客户端失败: %v" [ErrArgError e]))
  | None =>
    let* err := Client_Connect client ManagerCtx in
    match err with
    | Some e => ret (Some (Errorf "连接失败: %v" [ErrArgError e]))
    | None =>
      mu_Lock device ;;
      store_Client device client ;;
      store_Connected device true ;;
      store_LastError device None ;;
      mu_Unlock device ;;
      fmt_Printf "✓ 设备 %s 已通过 %s 连接到 %s\n"
        [ArgString (Name dev); ArgString (LocalAddr dev); ArgString (Endpoint dev)] ;;
      ret None
    end
  end.

Definition setError (d : ptr) (err : error) : M memory unit :=
  mu_Lock d ;;
  store_Connected d false ;;
  store_LastError d err ;;
  mu_Unlock d.

(** The deferred [RUnlock] runs after the returned value has been read. *)
Definition IsConnected (d : ptr) : M memory bool :=
  mu_RLock d ;;
  let* b := load_Connected d in
  mu_RUnlock d ;;
  ret b.

Definition GetClient (d : ptr) : M memory (option opcua_Client) :=
  mu_RLock d ;;
  let* c := load_Client d in
  mu_RUnlock d ;;
  ret c.

(** The body of the loop of [ConnectAll]. *)
Definition ConnectAll_body (device : ptr) : M memory unit :=
  let* err := connectDevice device in
  match err with
  | Some e =>
    let* dev := deref device in
    log_Printf "连接设备 %s 失败: %v" [ArgString (Name dev); ArgError e] ;;
    setError device (Some e)
  | None => ret tt
  end.

Definition ConnectAll : M memory error :=
  let* m := get_mgr in
  for_range (devices m) ConnectAll_body ;;
  ret None.

Definition StartMonitoring : M memory unit :=
  let* m := get_mgr in
  for_range (devices m) (fun device => wg_Add 1 ;; go_monitorDevice device).

(** The request of [healthCheck]: node [Server_ServerStatus] (numeric id
    2256 in namespace 0); the other fields keep their zero values. *)
Definition healthCheck_req : ReadRequest ua_NodeID :=
  let nodeID := lib_NewNumericNodeID 0 2256 in
  {| MaxAge := 0;
     NodesToRead := [ {| rv_NodeID := nodeID |} ];
     TimestampsToReturn_ := TimestampsToReturnSource |}.

Definition healthCheck (client : option opcua_Client) (deviceName : string)
  : M memory error :=
  let req := healthCheck_req in
  let* (resp, err) := Client_Read client ManagerCtx req in
  match err with
  | Some e => ret (Some e)
  | None =>
    if match Results resp with
       | [] => true
       | r :: _ => negb (Status r =? StatusOK)
       end
    then ret (Some (Errorf "服务器状态读取失败" []))
    else
      fmt_Printf "✓ 设备 %s 健康检查通过\n" [ArgString deviceName] ;;
      ret None
  end.

(** [monitorDevice], cut at its [select].  On entry the goroutine
    registers [m.wg.Done()] and starts a ticker of ten seconds. *)
Definition monitorDevice_enter : M memory unit :=
  emit (EvNewTicker (10 * Second)).

(** The end of an iteration: the health check on [client], and the log
    of its failure. *)
Definition monitorDevice_health (device : ptr) (client : option opcua_Client)
  : M memory unit :=
  let* dev := deref device in
  let* err := healthCheck client (Name dev) in
  match err with
  | Some e => log_Printf "设备 %s 健康检查失败: %v" [ArgString (Name dev); ArgError e]
  | None => ret tt
  end.

(** The branch [case <-ticker.C]; [ret tt] stands for [continue]. *)
Definition monitorDevice_tick (device : ptr) : M memory unit :=
  let* connected := IsConnected device in
  if negb connected then ret tt
  else
    let* client := GetClient device in
    match client with
    | None => ret tt
    | Some _ => monitorDevice_health device client
    end.

(** The deferred calls, last registered first: [ticker.Stop()], then
    [m.wg.Done()]. *)
Definition monitorDevice_return : M memory unit :=
  emit EvTickerStop ;; wg_Done.

(** The loop, driven by the branches its [select] takes.  The result tells
    whether the loop was left ([true]) or is still selecting. *)
Fixpoint monitorDevice_loop (device : ptr) (sel : list select_case) : M memory bool :=
  match sel with
  | [] => ret false
  | CaseDone :: _ => recv_ctx_Done ;; ret true
  | CaseTick :: sel' => monitorDevice_tick device ;; monitorDevice_loop device sel'
  end.

Definition monitorDevice (device : ptr) (sel : list select_case) : M memory bool :=
  monitorDevice_enter ;;
  let* returned := monitorDevice_loop device sel in
  if returned then monitorDevice_return ;; ret true else ret false.

(** The loop of [Close] over the devices; [device.Client] is read
    directly, once for the test and once more for the call. *)
Definition Close_clients : M memory unit :=
  let* m := get_mgr in
  for_range (devices m) (fun device =>
    let* c := load_Client device in
    match c with
    | Some _ =>
      let* c := load_Client device in
      Client_Close c Background ;; ret tt
    | None => ret tt
    end).

Definition Close : M memory unit :=
  cancel ;;
  wg_Wait ;;
  Close_clients.

(** The inner loop of [GetAvailableInterfaces], over the addresses of one
    interface. *)
Definition GetAvailableInterfaces_addrs (result : list string)
    (addrs : list (Addr net_IP)) : list string :=
  fold_left (fun (result : list string) addr =>
    match addr with
    | IPNet ip _ =>
      if negb (IP_IsLoopback ip) then
        match IP_To4 ip with
        | Some _ => result ++ [IP_String ip]
        | None => result
        end
      else result
    | OtherAddr _ => result
    end) addrs result.

(** The body of its outer loop; [ret result] stands for [continue]. *)
Definition GetAvailableInterfaces_iface (result : list string) (iface : Interface)
  : M memory (list string) :=
  if Z.land (if_Flags iface) FlagUp =? 0 then ret result
  else
    let* (addrs, err) := Interface_Addrs iface in
    match err with
    | Some _ => ret result
    | None => ret (GetAvailableInterfaces_addrs result addrs)
    end.

Definition GetAvailableInterfaces : M memory (list string * error) :=
  let* (interfaces, err) := net_Interfaces in
  match err with
  | Some e => ret ([], Some e)
  | None =>
    let* result := for_range_acc interfaces [] GetAvailableInterfaces_iface in
    ret (result, None)
  end.

(** *** What [GetAvailableInterfaces] is meant to return

    The next two definitions follow the description of the result, not
    the loops of the source: the addresses of one interface that are IPv4
    and not loopback, and the concatenation of those lists over the
    interfaces that are up and whose addresses can be enumerated, in the
    order of enumeration. *)
Definition ipv4_non_loopback (addrs : list (Addr net_IP)) : list string :=
  flat_map (fun a =>
    match a with
    | IPNet ip _ =>
      if negb (IP_IsLoopback ip) && bool_decide (is_Some (IP_To4 ip))
      then [IP_String ip] else []
    | OtherAddr _ => []
    end) addrs.

Fixpoint available_addresses (ifaces : list Interface) (w : World) : list string :=
  match ifaces with
  | [] => []
  | i :: rest =>
    if Z.land (if_Flags i) FlagUp =? 0 then available_addresses rest w
    else
      let '((addrs, err), w') := os_Addrs i w in
      match err with
      | Some _ => available_addresses rest w'
      | None => ipv4_non_loopback addrs ++ available_addresses rest w'
      end
  end.

(** *** Goroutines

    The program runs a main goroutine, which calls the methods of the
    manager one after the other, and the monitoring goroutines started by
    [StartMonitoring].  A goroutine runs in segments that are not
    interleaved with those of the others.  A monitoring goroutine is cut
    before each [select] and, within an iteration, wherever it has
    released the mutex of its device: after [device.IsConnected()] has
    returned and after [device.GetClient()] has returned, so that the
    other goroutines can run between the two reads and between the
    second read and the health check.  The main goroutine is cut inside
    [Close], before [m.wg.Wait()].  The scheduler picks the goroutine
    that runs its next segment and, for a monitoring goroutine at its
    [select], the branch taken.  The methods that [ConnectAll] calls,
    [connectDevice] and [setError], are calls of their own, so that a
    script can also list them one by one and have monitoring segments
    between them. *)
Inductive api_call :=
| CallAddDevice (name endpoint localAddr : string)
| CallConnectAll
| CallConnectDevice (device : ptr)
| CallSetError (device : ptr) (err : error)
| CallIsConnected (device : ptr)
| CallGetClient (device : ptr)
| CallStartMonitoring
| CallClose.

(** The segment a call of the main goroutine starts with; for [Close]
    that is [m.cancel()]. *)
Definition run_call (c : api_call) : M memory unit :=
  match c with
  | CallAddDevice name endpoint localAddr => AddDevice name endpoint localAddr
  | CallConnectAll => ConnectAll ;; ret tt
  | CallConnectDevice device => connectDevice device ;; ret tt
  | CallSetError device err => setError device err
  | CallIsConnected device => IsConnected device ;; ret tt
  | CallGetClient device => GetClient device ;; ret tt
  | CallStartMonitoring => StartMonitoring
  | CallClose => cancel
  end.

(** The calls [main] makes on the manager it creates, the deferred
    [manager.Close()] last. *)
Definition main_calls : list api_call :=
  [ CallAddDevice "设备A" "opc.tcp://192.168.100.1:4840" "192.168.100.10:0";
    CallAddDevice "设备B" "opc.tcp://192.168.100.1:4840" "192.168.100.20:0";
    CallConnectAll;
    CallStartMonitoring;
    CallClose ].

(** The rest of [Close], once [m.wg.Wait()] can return. *)
Definition Close_rest : M memory unit :=
  wg_Wait ;; Close_clients.

Definition set_gstatus (i : nat) (g : gstatus) : M memory unit :=
  let* u := get_mem in
  match goroutines u !! i with
  | Some (device, _) => put_mem (set_goroutines (<[i := (device, g)]> (goroutines u)) u)
  | None => panic
  end.

(** The next segment of the [i]-th monitoring goroutine.  An iteration
    on a tick is [monitorDevice_tick] in three segments: the call of
    [IsConnected] and the test of its result; the call of [GetClient];
    the test of [client] and the health check. *)
Definition monitor_segment (i : nat) (c : select_case) : M memory unit :=
  let* u := get_mem in
  match goroutines u !! i with
  | Some (device, Spawned) => monitorDevice_enter ;; set_gstatus i Looping
  | Some (device, Looping) =>
    match c with
    | CaseTick =>
      let* connected := IsConnected device in
      if negb connected then ret tt
      else set_gstatus i Checked
    | CaseDone => recv_ctx_Done ;; monitorDevice_return ;; set_gstatus i Finished
    end
  | Some (device, Checked) =>
    let* client := GetClient device in
    set_gstatus i (Fetched client)
  | Some (device, Fetched client) =>
    match client with
    | None => ret tt
    | Some _ => monitorDevice_health device client
    end ;;
    set_gstatus i Looping
  | Some (device, Finished) => block
  | None => block
  end.

(** The whole program: the memory, the calls the main goroutine still has
    to make, and whether it is inside [Close], after [m.cancel()]. *)
Record system := {
  st : state memory;
  script : list api_call;
  closing : bool
}.

Inductive sched := RunMain | RunMonitor (i : nat) (c : select_case).

Definition segment {A} (m : M memory A) (sys : system)
    (script' : list api_call) (closing' : bool) : option system :=
  match m (st sys) with
  | (Ret _, s') => Some {| st := s'; script := script'; closing := closing' |}
  | _ => None
  end.

(** A choice of the scheduler that is not enabled gives [None]. *)
Definition step (ch : sched) (sys : system) : option system :=
  match ch with
  | RunMain =>
    if closing sys then segment Close_rest sys (script sys) false
    else
      match script sys with
      | [] => None
      | CallClose :: rest => segment cancel sys rest true
      | c :: rest => segment (run_call c) sys rest false
      end
  | RunMonitor i c => segment (monitor_segment i c) sys (script sys) (closing sys)
  end.

Fixpoint exec (l : list sched) (sys : system) : option system :=
  match l with
  | [] => Some sys
  | ch :: l' =>
    match step ch sys with
    | Some sys' => exec l' sys'
    | None => None
    end
  end.

(** Whether the schedule [l] can be followed from [sys], and where it
    leads. *)
Definition enabled (l : list sched) (sys : system) : bool :=
  match exec l sys with
  | Some _ => true
  | None => false
  end.

Definition after (l : list sched) (sys : system) : system :=
  match exec l sys with
  | Some sys' => sys'
  | None => sys
  end.

Definition init (w : World) (calls : list api_call) : system :=
  {| st := {| world := w; trace := [];
              mem := {| heap := []; mgr := NewMultiInterfaceManager; goroutines := [] |} |};
     script := calls;
     closing := false |}.

(** The number of monitoring goroutines that have not returned. *)
Definition is_running (g : gstatus) : bool :=
  match g with
  | Finished => false
  | _ => true
  end.

Fixpoint running (g : list (ptr * gstatus)) : Z :=
  match g with
  | [] => 0
  | (_, status) :: g' => (if is_running status then 1 else 0) + running g'
  end.

(** *** Lock discipline, read off a trace

    [holds] records, per device, the modes in which the mutex is held by
    the goroutine whose events are read.  [unguarded holds evs] lists the
    accesses in [evs] to a protected field that are made without the
    write lock (for a store) or without any lock (for a load). *)
Definition no_locks : ptr → RWMutex := fun _ => unlocked.

Definition set_holds (holds : ptr → RWMutex) (d : ptr) (l : RWMutex) : ptr → RWMutex :=
  fun d' => if decide (d' = d) then l else holds d'.

Fixpoint unguarded (holds : ptr → RWMutex) (evs : list event) : list event :=
  match evs with
  | [] => []
  | ev :: evs' =>
    match ev with
    | EvLock d =>
      unguarded (set_holds holds d {| writer := true; readers := readers (holds d) |}) evs'
    | EvUnlock d =>
      unguarded (set_holds holds d {| writer := false; readers := readers (holds d) |}) evs'
    | EvRLock d =>
      unguarded (set_holds holds d {| writer := writer (holds d);
                                      readers := S (readers (holds d)) |}) evs'
    | EvRUnlock d =>
      unguarded (set_holds holds d {| writer := writer (holds d);
                                      readers := pred (readers (holds d)) |}) evs'
    | EvLoad d _ =>
      if writer (holds d) || negb (readers (holds d) =? 0)%nat
      then unguarded holds evs' else ev :: unguarded holds evs'
    | EvStore d _ =>
      if writer (holds d) then unguarded holds evs' else ev :: unguarded holds evs'
    | _ => unguarded holds evs'
    end
  end.

(** The modes held after the events [evs]. *)
Fixpoint holds_after (holds : ptr → RWMutex) (evs : list event) : ptr → RWMutex :=
  match evs with
  | [] => holds
  | ev :: evs' =>
    match ev with
    | EvLock d =>
      holds_after (set_holds holds d {| writer := true; readers := readers (holds d) |}) evs'
    | EvUnlock d =>
      holds_after (set_holds holds d {| writer := false; readers := readers (holds d) |}) evs'
    | EvRLock d =>
      holds_after (set_holds holds d {| writer := writer (holds d);
                                        readers := S (readers (holds d)) |}) evs'
    | EvRUnlock d =>
      holds_after (set_holds holds d {| writer := writer (holds d);
                                        readers := pred (readers (holds d)) |}) evs'
    | _ => holds_after holds evs'
    end
  end.

(** Events that neither take or release a lock nor access a protected
    field. *)
Definition plain (ev : event) : bool :=
  match ev with
  | EvLock _ | EvUnlock _ | EvRLock _ | EvRUnlock _ | EvLoad _ _ | EvStore _ _ => false
  | _ => true
  end.

(** The events a monitoring goroutine can emit. *)
Definition monitor_event (ev : event) : bool :=
  match ev with
  | EvNewTicker _ | EvTickerStop | EvWgDone
  | EvRLock _ | EvRUnlock _ | EvLoad _ _
  | EvRead _ _ _ | EvPrintf _ _ | EvLogPrintf _ _ => true
  | _ => false
  end.

(** A read of [Client]. *)
Definition client_load (ev : event) : bool :=
  match ev with
  | EvLoad _ FClient => true
  | _ => false
  end.

(** *** State invariants *)

(** No mutex is held. *)
Definition LockInv (u : memory) : Prop :=
  ∀ d dev, heap u !! d = Some dev → mu dev = unlocked.

(** A device that reports connected has a client and no error. *)
Definition ConnInv (u : memory) : Prop :=
  ∀ d dev, heap u !! d = Some dev →
    Connected dev = true → is_Some (Client dev) ∧ LastError dev = None.

(** The counter of the wait group is the number of monitoring goroutines
    that have not returned. *)
Definition WgInv (u : memory) : Prop :=
  wg (mgr u) = running (goroutines u).

(** What [opcua.NewClient] promises: with a nil error, the client it
    returns is not nil. *)
Definition NewClient_contract : Prop :=
  ∀ endpoint opts w c w',
    lib_NewClient endpoint opts w = ((c, None), w') → is_Some c.

(** Registering a list of devices, each by its name, endpoint and local
    address, as [main] does for two. *)
Definition register (devs : list (string * string * string)) : M memory unit :=
  for_range devs (fun '(name, endpoint, localAddr) => AddDevice name endpoint localAddr).

(** The calls of [opcua.NewClient] in a run of events, in order. *)
Definition new_clients (evs : list event) : list (string * list opcua.Option) :=
  omap (fun ev =>
    match ev with
    | EvNewClient endpoint opts => Some (endpoint, opts)
    | _ => None
    end) evs.

(** How [ConnectAll] leaves a device: connected without error, or not
    connected with the error that the events [evs] show as logged. *)
Definition attempt_recorded (dev : DeviceConnection) (evs : list event) : Prop :=
  (Connected dev = true ∧ LastError dev = None) ∨
  (Connected dev = false ∧
   ∃ err, LastError dev = Some err ∧
          EvLogPrintf "连接设备 %s 失败: %v" [ArgString (Name dev); ArgError err] ∈ evs).

(** The outcome of [connectDevice] by the answers of the library. *)
Definition attempt_result (dev : DeviceConnection) (w : World) : error :=
  let new := lib_NewClient (Endpoint dev) (connectDevice_opts (LocalAddr dev)) w in
  match new.1.2 with
  | Some e => Some (Errorf "创建客户端失败: %v" [ErrArgError (LibErr e)])
  | None =>
    match (lib_Connect new.1.1 ManagerCtx new.2).1 with
    | Some e => Some (Errorf "连接失败: %v" [ErrArgError (LibErr e)])
    | None => None
    end
  end.

(** *** Vocabulary of the proofs *)

(** Every run of [m] relates the state it starts in to the state it
    ends in by [R], however it ends. *)
Definition stable {A} (R : relation (state memory)) (m : M memory A) : Prop :=
  ∀ s r s', m s = (r, s') → R s s'.

(** The state of device [d] is left as it is. *)
Definition same_device (d : ptr) : relation (state memory) :=
  fun s s' => heap (mem s') !! d = heap (mem s) !! d.

(** A run of events that ends with no lock held. *)
Definition balanced (evs : list event) : Prop :=
  ∀ d, holds_after no_locks evs d = unlocked.

(** A goroutine that has returned stays so. *)
Definition finished_stay (u u' : memory) : Prop :=
  ∀ i d, goroutines u !! i = Some (d, Finished) → goroutines u' !! i = Some (d, Finished).

(** What a segment of a goroutine does to a state in which no mutex is
    held: no mutex is held afterwards, the invariants [WgInv] and
    [ConnInv] are kept, goroutines that have returned stay so, the events
    added are all in [P], they end with no lock held, and the accesses
    among them that are not guarded are all in [Q]. *)
Definition seg_ok (P Q : event → bool) : relation (state memory) :=
  fun s s' =>
    LockInv (mem s) →
    LockInv (mem s') ∧
    (WgInv (mem s) → WgInv (mem s')) ∧
    (NewClient_contract → ConnInv (mem s) → ConnInv (mem s')) ∧
    finished_stay (mem s) (mem s') ∧
    ∃ evs, trace s' = trace s ++ evs ∧
           Forall (fun ev => P ev = true) evs ∧
           Forall (fun ev => Q ev = true) (unguarded no_locks evs) ∧
           balanced evs.

Definition any_event (ev : event) : bool := true.
Definition no_event (ev : event) : bool := false.

(** The events of the two guarded reads that open an iteration of
    [monitorDevice]: [IsConnected] and, when [both], [GetClient]. *)
Definition tick_reads (d : ptr) (both : bool) : list event :=
  [EvRLock d; EvLoad d FConnected; EvRUnlock d] ++
  if both then [EvRLock d; EvLoad d FClient; EvRUnlock d] else [].

(** The events of the loop of [Close] over the devices [ds] on the heap
    [h]: each device has its [Client] read and, when that is not nil,
    read again and closed. *)
Definition close_events (h : list DeviceConnection) (ds : list ptr) : list event :=
  flat_map (fun d =>
    match h !! d with
    | Some dev =>
      EvLoad d FClient ::
      match Client dev with
      | Some c => [EvLoad d FClient; EvClose (Some c) Background]
      | None => []
      end
    | None => []
    end) ds.

(** What holds of the program whenever a goroutine is about to run a
    segment: no mutex is held and the wait group counts the monitoring
    goroutines that have not returned; in the trace, locks are released,
    the only accesses made without a lock are reads of [Client], and
    while the main goroutine is inside [Close], waiting, the events since
    its [m.cancel()] are those of monitoring goroutines. *)
Definition SysInv (sys : system) : Prop :=
  LockInv (mem (st sys)) ∧
  WgInv (mem (st sys)) ∧
  balanced (trace (st sys)) ∧
  Forall (fun ev => client_load ev = true) (unguarded no_locks (trace (st sys))) ∧
  (closing sys = true →
   ∃ t0 mid, trace (st sys) = t0 ++ EvCancel :: mid ∧
             Forall (fun ev => monitor_event ev = true) mid).



(** *** More vocabulary *)

(** The clients that the devices [ds] hold on the heap [h], in order. *)
Definition device_clients (h : list DeviceConnection) (ds : list ptr)
  : list (option opcua_Client) :=
  omap (fun d =>
    match h !! d with
    | Some dev =>
      match Client dev with
      | Some c => Some (Some c)
      | None => None
      end
    | None => None
    end) ds.

(** The events of [StartMonitoring] for the devices [ds]. *)
Definition spawn_events (ds : list ptr) : list event :=
  flat_map (fun d => [EvWgAdd 1; EvGo d]) ds.

(** What [AddDevice] is given for a device, which nothing changes
    afterwards. *)
Definition config (dev : DeviceConnection) : string * string * string :=
  (Name dev, Endpoint dev, LocalAddr dev).

(** The devices that the calls [calls] add, in order. *)
Definition added (calls : list api_call) : list (string * string * string) :=
  omap (fun c =>
    match c with
    | CallAddDevice name endpoint localAddr => Some (name, endpoint, localAddr)
    | _ => None
    end) calls.

(** A script passes pointers to devices only: a call on a device comes
    after the [AddDevice] that made it.  [n] is the number of devices
    made so far. *)
Fixpoint calls_ok (n : nat) (calls : list api_call) : bool :=
  match calls with
  | [] => true
  | CallAddDevice _ _ _ :: rest => calls_ok (S n) rest
  | CallConnectDevice d :: rest
  | CallSetError d _ :: rest
  | CallIsConnected d :: rest
  | CallGetClient d :: rest => (d <? n)%nat && calls_ok n rest
  | _ :: rest => calls_ok n rest
  end.

(** The segment that a choice of the scheduler runs; a main goroutine
    that has made all its calls has nothing left to run. *)
Definition next_segment (ch : sched) (sys : system) : M memory unit :=
  match ch with
  | RunMain =>
    if closing sys then Close_rest
    else
      match script sys with
      | [] => block
      | c :: _ => run_call c
      end
  | RunMonitor i c => monitor_segment i c
  end.

(** A schedule that lets every monitoring goroutine of [g] that has not
    returned reach its [select] and take the branch of the cancellation
    there; [i] is the index of the first goroutine of [g]. *)
Fixpoint drain (g : list (ptr * gstatus)) (i : nat) : list sched :=
  match g with
  | [] => []
  | (_, Spawned) :: g' =>
    RunMonitor i CaseDone :: RunMonitor i CaseDone :: drain g' (S i)
  | (_, Looping) :: g' => RunMonitor i CaseDone :: drain g' (S i)
  | (_, Checked) :: g' =>
    RunMonitor i CaseDone :: RunMonitor i CaseDone :: RunMonitor i CaseDone ::
    drain g' (S i)
  | (_, Fetched _) :: g' =>
    RunMonitor i CaseDone :: RunMonitor i CaseDone :: drain g' (S i)
  | (_, Finished) :: g' => drain g' (S i)
  end.

(** What holds of the devices and of the script along a run of the calls
    [calls]: the calls made so far are a prefix of [calls], the heap
    holds the devices they added, the manager lists them all in order,
    every goroutine monitors one of them, the calls to come pass
    pointers to devices only if the script as a whole does, and the
    context is cancelled while the main goroutine is inside [Close]. *)
Definition RegInv (calls : list api_call) (sys : system) : Prop :=
  (∃ made, calls = made ++ script sys ∧
           map config (heap (mem (st sys))) = added made) ∧
  devices (mgr (mem (st sys))) = seq 0 (length (heap (mem (st sys)))) ∧
  (∀ i d g, goroutines (mem (st sys)) !! i = Some (d, g) →
            (d < length (heap (mem (st sys))))%nat) ∧
  (calls_ok 0 calls = true →
   calls_ok (length (heap (mem (st sys)))) (script sys) = true) ∧
  (closing sys = true → ctx_done (mgr (mem (st sys))) = true).

(** *** [main]

    [main] is cut at [time.Sleep]: the monitoring goroutines run while
    the main goroutine sleeps.  The manager that [main] makes is the one
    of the memory. *)
Definition main_setup : M memory unit :=
  let* (interfaces, err) := GetAvailableInterfaces in
  match err with
  | Some e => log_Fatalf "获取网络接口失败: %v" [ArgError e]
  | None =>
    fmt_Println "可用的网络接口:" ;;
    for_range interfaces (fun ip => fmt_Printf "  - %s\n" [ArgString ip]) ;;
    put_mgr NewMultiInterfaceManager ;;
    AddDevice "设备A" "opc.tcp://192.168.100.1:4840" "192.168.100.10:0" ;;
    AddDevice "设备B" "opc.tcp://192.168.100.1:4840" "192.168.100.20:0" ;;
    fmt_Println "\n开始连接设备..." ;;
    let* err := ConnectAll in
    match err with
    | Some e => log_Printf "连接过程中出现错误: %v" [ArgError e]
    | None => ret tt
    end ;;
    fmt_Println "\n开始监控设备..." ;;
    StartMonitoring
  end.

(** After the sleep: the last line, and the deferred [manager.Close()]. *)
Definition main_finish : M memory unit :=
  fmt_Println "\n程序结束" ;;
  Close.

(** The events of [ConnectAll]: the calls of the library, the guarded
    stores, the line of a connection that succeeded and the log of one
    that failed. *)
Definition connect_event (ev : event) : bool :=
  match ev with
  | EvNewClient _ _ | EvConnect _ _ | EvLock _ | EvUnlock _ | EvStore _ _ => true
  | EvPrintf format _ => String.eqb format "✓ 设备 %s 已通过 %s 连接到 %s\n"
  | EvLogPrintf format _ => String.eqb format "连接设备 %s 失败: %v"
  | _ => false
  end.

End Advanced.
End Advanced.

(** ** A concrete environment

    An instance of [Env] to run the programs on.  The world is the list of
    answers the outside gives to the calls to come, in order: [0] lets a
    call succeed, another number makes it fail with that number as its
    error (for [Read]: [1] answers with no result, [2] with a bad status;
    for [flag.Parse]: [1] is a request for help).
    The host has a loopback interface, an interface [eth0] that is up and
    an interface [eth1] that is down.  Addresses are byte lists, with
    [To4] and [IsLoopback] as in package [net]. *)
Module TestEnv.

Definition answer (w : list Z) : Z * list Z :=
  match w with
  | [] => (0, [])
  | a :: w' => (a, w')
  end.

Definition NewClient (endpoint : string) (opts : list opcua.Option) (w : list Z)
  : (option Z * option Z) * list Z :=
  let '(a, w') := answer w in
  if a =? 0 then ((Some (Z.of_nat (length w)), None), w') else ((None, Some a), w').

Definition Connect (c : option Z) (ctx : context) (w : list Z) : option Z * list Z :=
  let '(a, w') := answer w in
  if a =? 0 then (None, w') else (Some a, w').

Definition Read (c : option Z) (ctx : context) (req : ReadRequest (Z * Z)) (w : list Z)
  : (ReadResponse Z Z * option Z) * list Z :=
  let '(a, w') := answer w in
  let value st := {| Value := 42; Status := st; SourceTimestamp := 7; ServerTimestamp := 8 |} in
  if a =? 0 then (({| Results := [value StatusOK] |}, None), w')
  else if a =? 1 then (({| Results := [] |}, None), w')
  else if a =? 2 then (({| Results := [value 2147483648] |}, None), w')
  else (({| Results := [] |}, Some a), w').

Definition ParseNodeID (s : string) : (Z * Z) * option Z :=
  if String.eqb s "i=2258" then ((0, 2258), None)
  else if String.eqb s "i=2259" then ((0, 2259), None)
  else ((0, 0), Some 3).

(** The command line: [0] for one without flags, [1] for [-h], another
    number for one that does not parse. *)
Definition ParseFlags (defaults : flags) (w : list Z) : flag_result * list Z :=
  let '(a, w') := answer w in
  if a =? 0 then (FlagParsed defaults, w')
  else if a =? 1 then (FlagErrHelp, w')
  else (FlagError, w').

Definition lo : Interface := {| if_Index := 1; if_Name := "lo"; if_Flags := 5 |}.
Definition eth0 : Interface := {| if_Index := 2; if_Name := "eth0"; if_Flags := 19 |}.
Definition eth1 : Interface := {| if_Index := 3; if_Name := "eth1"; if_Flags := 18 |}.

Definition Addrs (i : Interface) (w : list Z) : (list (Addr (list Z)) * option Z) * list Z :=
  if if_Index i =? 1 then
    (([IPNet [127; 0; 0; 1] [255; 0; 0; 0];
       IPNet [0;0;0;0;0;0;0;0;0;0;0;0;0;0;0;1] []], None), w)
  else if if_Index i =? 2 then
    (([IPNet [192; 168; 100; 10] [255; 255; 255; 0];
       IPNet [254;128;0;0;0;0;0;0;0;0;0;0;0;0;0;9] [];
       OtherAddr "unix"], None), w)
  else
    (([IPNet [192; 168; 100; 20] [255; 255; 255; 0]], None), w).

Definition To4 (ip : list Z) : option (list Z) :=
  match ip with
  | [_; _; _; _] => Some ip
  | [0; 0; 0; 0; 0; 0; 0; 0; 0; 0; 255; 255; a; b; c; d] => Some [a; b; c; d]
  | _ => None
  end.

Definition IsLoopback (ip : list Z) : bool :=
  match To4 ip with
  | Some (a :: _) => a =? 127
  | Some [] => false
  | None => bool_decide (ip = [0;0;0;0;0;0;0;0;0;0;0;0;0;0;0;1])
  end.

Definition IPString (ip : list Z) : string :=
  match To4 ip with
  | Some [a; b; c; d] =>
    String.append (pretty a) (String.append "."
      (String.append (pretty b) (String.append "."
        (String.append (pretty c) (String.append "." (pretty d))))))
  | _ => "?"
  end.

Definition env : Env :=
  {| World := list Z;
     opcua_Client := Z;
     ua_NodeID := Z * Z;
     ua_Variant := Z;
     time_Time := Z;
     net_IP := list Z;
     LibError := Z;
     SecurityPolicyURINone := "http://opcfoundation.org/UA/SecurityPolicy#None";
     id_Server_ServerStatus_State := 2259;
     lib_ParseNodeID := ParseNodeID;
     lib_NewNumericNodeID := fun ns id => (ns, id);
     lib_NewClient := NewClient;
     lib_Connect := Connect;
     lib_Read := Read;
     lib_Close := fun _ _ w => (None, w);
     lib_flag_Parse := ParseFlags;
     os_Interfaces := fun w => (([lo; eth0; eth1], None), w);
     os_Addrs := Addrs;
     IP_IsLoopback := IsLoopback;
     IP_To4 := To4;
     IP_String := IPString |}.

(** An empty trace over the given answers. *)
Definition start {U} (u : U) (w : list Z) : state (E := env) U :=
  @Build_state env U w [] u.

Definition empty_memory : Advanced.memory (E := env) :=
  @Advanced.Build_memory env [] Advanced.NewMultiInterfaceManager [].

(** A run of the advanced example: two devices are added, the first
    connects and the second fails to (answer [9]); both are monitored;
    [Close] is called.  In the schedule, the first goroutine enters its
    loop and, on a tick, finds its device connected; the second enters
    its loop; the main goroutine cancels the context; the first goroutine
    reads the client and makes its health check, and returns on the
    cancellation; the second ticks, finds its device not connected, and
    returns. *)
Definition answers : @World env := [0; 0; 0; 9; 0; 4].

Definition calls : list (Advanced.api_call (E := env)) := Advanced.main_calls.

Definition schedule : list Advanced.sched :=
  [ Advanced.RunMain; Advanced.RunMain; Advanced.RunMain; Advanced.RunMain;
    Advanced.RunMonitor 0 CaseTick;
    Advanced.RunMonitor 0 CaseTick;
    Advanced.RunMonitor 1 CaseTick;
    Advanced.RunMain;
    Advanced.RunMonitor 0 CaseTick;
    Advanced.RunMonitor 0 CaseTick;
    Advanced.RunMonitor 0 CaseDone;
    Advanced.RunMonitor 1 CaseTick;
    Advanced.RunMonitor 1 CaseDone ].

Definition run_of (l : list Advanced.sched) : Advanced.system (E := env) :=
  Advanced.after l (Advanced.init answers calls).

(** The program when [m.wg.Wait()] is about to return, and after [Close]. *)
Definition waiting : Advanced.system (E := env) := run_of schedule.

Definition closed : Advanced.system (E := env) :=
  Advanced.after [Advanced.RunMain] waiting.

(** The memory once the two devices are added, and once [ConnectAll] has
    run. *)
Definition added : state (E := env) (Advanced.memory (E := env)) :=
  Advanced.st (run_of [Advanced.RunMain; Advanced.RunMain]).

Definition connected : state (E := env) (Advanced.memory (E := env)) :=
  Advanced.st (run_of [Advanced.RunMain; Advanced.RunMain; Advanced.RunMain]).

(** The memory after [m.cancel()], with the first goroutine in an
    iteration and the second at its [select]. *)
Definition cancelled : state (E := env) (Advanced.memory (E := env)) :=
  Advanced.st (run_of (take 8 schedule)).

(** The first device once connected. *)
Definition device_A : Advanced.DeviceConnection (E := env) :=
  @Advanced.Build_DeviceConnection env
    "设备A" "opc.tcp://192.168.100.1:4840" "192.168.100.10:0"
    (Some 6) true None Advanced.unlocked.

(** The same program without its last call, and its run up to the point
    where both goroutines are in their loops. *)
Definition without_close : list (Advanced.api_call (E := env)) := take 4 calls.

Definition monitoring : Advanced.system (E := env) :=
  Advanced.after (take 7 schedule) (Advanced.init answers without_close).

(** A program that adds a device and closes the manager. *)
Definition add_and_close : list (Advanced.api_call (E := env)) :=
  [ Advanced.CallAddDevice "设备A" "opc.tcp://192.168.100.1:4840" "192.168.100.10:0";
    Advanced.CallClose ].

(** The memory after the first attempt of [ConnectAll], the second device
    as it is then, and the error of its attempt. *)
Definition half_connected : state (E := env) (Advanced.memory (E := env)) :=
  (Advanced.for_range [0%nat] Advanced.ConnectAll_body added).2.

Definition device_B : Advanced.DeviceConnection (E := env) :=
  Advanced.new_DeviceConnection "设备B" "opc.tcp://192.168.100.1:4840" "192.168.100.20:0".

Definition connect_error : goerror (E := env) :=
  Errorf "连接失败: %v" [ErrArgError (LibErr (9%Z : @LibError env))].

(** A program that calls [ConnectAll] again while its device is monitored,
    the second attempt failing in [NewClient] (answer [9]).  In the
    schedule, the goroutine enters its loop and, on a tick, finds its
    device connected; the main goroutine then runs the second
    [ConnectAll]; the goroutine reads the client. *)
Definition reconnect_calls : list (Advanced.api_call (E := env)) :=
  [ Advanced.CallAddDevice "设备A" "opc.tcp://192.168.100.1:4840" "192.168.100.10:0";
    Advanced.CallConnectAll;
    Advanced.CallStartMonitoring;
    Advanced.CallConnectAll ].

Definition reconnect_answers : @World env := [0; 0; 9; 0].

Definition reconnect_schedule : list Advanced.sched :=
  [ Advanced.RunMain; Advanced.RunMain; Advanced.RunMain;
    Advanced.RunMonitor 0 CaseTick;
    Advanced.RunMonitor 0 CaseTick;
    Advanced.RunMain;
    Advanced.RunMonitor 0 CaseTick ].

Definition disconnected : Advanced.system (E := env) :=
  Advanced.after reconnect_schedule (Advanced.init reconnect_answers reconnect_calls).

(** The program once the monitoring is started. *)
Definition started : Advanced.system (E := env) := run_of (take 4 schedule).

(** The first device of [monitorMultipleDevices]. *)
Definition polled : Basic.device :=
  {| Basic.dev_endpoint := "opc.tcp://192.168.100.1:4840";
     Basic.dev_localAddr := "192.168.100.10:0";
     Basic.dev_name := "设备A" |}.

End TestEnv.

(** * Tactics *)

(** Unfolds the monad and the package wrappers in the goal. *)
Ltac run_go :=
  cbv [bind ret call emit get_mem put_mem os_Exit block panic
       opcua_NewClient Client_Connect Client_Read Client_Close
       ua_ParseNodeID net_Interfaces Interface_Addrs
       fmt_Printf fmt_Println log_Printf log_Fatalf lift_err];
  cbn [world trace mem fst snd fmap option_fmap option_map].

(** Closes a goal [e ∈ l] for a literal list [l] that holds [e]. *)
Ltac in_list :=
  cbn [app]; repeat first [apply list_elem_of_here | apply list_elem_of_further].

(** Closes a goal [e ∉ l] for a literal list [l] of other events. *)
Ltac not_in_list :=
  intros; rewrite ?elem_of_app, ?elem_of_cons, ?elem_of_nil; intuition discriminate.

(** * Properties of the basic example *)
Module BasicProofs.
Import Basic.
Section BasicProofs.
Context `{E : Env} {U : Type}.

Lemma connectWithLocalAddr_run ctx endpoint localAddr (s : state U) :
  let opts := connect_opts localAddr in
  let new := lib_NewClient endpoint opts (world s) in
  let con := lib_Connect new.1.1 ctx new.2 in
  connectWithLocalAddr ctx endpoint localAddr s =
  match new.1.2, con.1 with
  | Some e, _ =>
    (Ret (None, Some (Errorf "创建客户端失败: %v" [ErrArgError (LibErr e)])),
     {| world := new.2; trace := trace s ++ [EvNewClient endpoint opts]; mem := mem s |})
  | None, Some e =>
    (Ret (None, Some (Errorf "连接服务器失败: %v" [ErrArgError (LibErr e)])),
     {| world := con.2;
        trace := (trace s ++ [EvNewClient endpoint opts]) ++ [EvConnect new.1.1 ctx];
        mem := mem s |})
  | None, None =>
    (Ret (new.1.1, None),
     {| world := con.2;
        trace := ((trace s ++ [EvNewClient endpoint opts]) ++ [EvConnect new.1.1 ctx])
                 ++ [EvPrintf "成功连接到 %s (本地地址: %s)\n"
                       [ArgString endpoint; ArgString localAddr]];
        mem := mem s |})
  end.
Proof.
  unfold connectWithLocalAddr, connect_opts. run_go.
  destruct (lib_NewClient _ _ _) as [[c [e|]] w]; cbn; [reflexivity|].
  destruct (lib_Connect _ _ _) as [[e|] w']; reflexivity.
Qed.

(** C1.  [connectWithLocalAddr] builds its option list first, with
    [LocalAddr(localAddr)], security policy and mode None, auto-reconnect
    and a reconnect interval of five seconds, and calls [opcua.NewClient]
    with it.  When [NewClient] returns an error, nothing else is called
    and the function returns a nil client and an error.  Otherwise it
    calls [Connect], in the world that [NewClient] left, on the client
    that [NewClient] returned and with the context it was given; when
    [Connect] returns an error, the function returns a nil client and an
    error; when it does not, the function prints its line and returns
    that client and a nil error. *)
Theorem connectWithLocalAddr_local_addr_before_connect
    ctx endpoint localAddr (s : state U) :
  let opts := connect_opts localAddr in
  let new := lib_NewClient endpoint opts (world s) in
  let con := lib_Connect new.1.1 ctx new.2 in
  let out := connectWithLocalAddr ctx endpoint localAddr s in
  (opcua.LocalAddr localAddr ∈ opts ∧
   opcua.SecurityPolicy SecurityPolicyURINone ∈ opts ∧
   opcua.SecurityModeString "None" ∈ opts ∧
   opcua.AutoReconnect true ∈ opts ∧
   opcua.ReconnectInterval (5 * Second) ∈ opts) ∧
  match new.1.2 with
  | Some _ =>
    trace out.2 = trace s ++ [EvNewClient endpoint opts] ∧
    world out.2 = new.2 ∧
    ∃ e, out.1 = Ret (None, Some e)
  | None =>
    world out.2 = con.2 ∧
    match con.1 with
    | Some _ =>
      trace out.2 = trace s ++ [EvNewClient endpoint opts; EvConnect new.1.1 ctx] ∧
      ∃ e, out.1 = Ret (None, Some e)
    | None =>
      trace out.2 = trace s ++
        [EvNewClient endpoint opts; EvConnect new.1.1 ctx;
         EvPrintf "成功连接到 %s (本地地址: %s)\n"
           [ArgString endpoint; ArgString localAddr]] ∧
      out.1 = Ret (new.1.1, None)
    end
  end.
Proof.
  intros opts new con out.
  split; [unfold opts, connect_opts; set_solver|].
  assert (Hrun := connectWithLocalAddr_run ctx endpoint localAddr s).
  cbn zeta in Hrun. fold opts new con out in Hrun.
  destruct (new.1.2) as [e1|] eqn:H1.
  - rewrite Hrun. cbn. eauto.
  - destruct (con.1) as [e2|] eqn:H2; rewrite Hrun; cbn; rewrite <- ?app_assoc; eauto.
Qed.

(** The request [readNodeValue] builds for a parsed node id. *)
Lemma readNodeValue_run ctx client nodeIDStr deviceName (s : state U) :
  let parsed := lib_ParseNodeID nodeIDStr in
  let req := {| MaxAge := 2000;
                NodesToRead := [ {| rv_NodeID := parsed.1 |} ];
                TimestampsToReturn_ := TimestampsToReturnBoth |} in
  let rd := lib_Read client ctx req (world s) in
  readNodeValue ctx client nodeIDStr deviceName s =
  match parsed.2 with
  | Some e => (Ret (Some (Errorf "解析节点ID失败: %v" [ErrArgError (LibErr e)])), s)
  | None =>
    let s1 := {| world := rd.2; trace := trace s ++ [EvRead client ctx req]; mem := mem s |} in
    match rd.1.2 with
    | Some e => (Ret (Some (Errorf "读取请求失败: %v" [ErrArgError (LibErr e)])), s1)
    | None =>
      match Results rd.1.1 with
      | [] => (Ret (Some (Errorf "没有读取结果" [])), s1)
      | result :: _ =>
        if Status result =? StatusOK then
          (Ret None,
           {| world := rd.2;
              trace := (((trace s ++ [EvRead client ctx req]) ++
                [EvPrintf "%s - 节点 %s 的值: %v (类型: %T)\n"
                   [ArgString deviceName; ArgString nodeIDStr;
                    ArgValue (Value result); ArgTypeOf (Value result)]]) ++
                [EvPrintf "%s - 服务器时间戳: %v\n"
                   [ArgString deviceName; ArgTime (ServerTimestamp result)]]) ++
                [EvPrintf "%s - 源时间戳: %v\n"
                   [ArgString deviceName; ArgTime (SourceTimestamp result)]];
              mem := mem s |})
        else
          (Ret (Some (Errorf "读取状态错误: %v" [ErrArgStatus (Status result)])), s1)
      end
    end
  end.
Proof.
  unfold readNodeValue. run_go.
  destruct (lib_ParseNodeID nodeIDStr) as [n [e|]]; cbn; [reflexivity|].
  destruct (lib_Read _ _ _ _) as [[resp [e|]] w]; cbn; [reflexivity|].
  destruct (Results resp) as [|r rest]; [reflexivity|].
  destruct (Status r =? StatusOK); reflexivity.
Qed.

(** C6.  On a client that is not nil, [readNodeValue] returns; the error
    it returns is non-nil exactly when the node id fails to parse, or
    [Read] returns an error, or the response has no results, or the
    status of the first result is not [StatusOK].  When it returns nil,
    it has issued the read and then printed the value and the two
    timestamps of the first result.  (With a nil client the call of
    [client.Read] is a call on a nil pointer, which the package does not
    answer.) *)
Theorem readNodeValue_error_iff
    ctx (c : opcua_Client) nodeIDStr deviceName (s : state U) :
  let client := Some c in
  let parsed := lib_ParseNodeID nodeIDStr in
  let req := {| MaxAge := 2000;
                NodesToRead := [ {| rv_NodeID := parsed.1 |} ];
                TimestampsToReturn_ := TimestampsToReturnBoth |} in
  let rd := lib_Read client ctx req (world s) in
  let out := readNodeValue ctx client nodeIDStr deviceName s in
  ∃ err : error,
    out.1 = Ret err ∧
    (is_Some err ↔
       is_Some parsed.2 ∨ is_Some rd.1.2 ∨ Results rd.1.1 = [] ∨
       ∃ r rest, Results rd.1.1 = r :: rest ∧ Status r ≠ StatusOK) ∧
    (err = None →
       ∃ r rest, Results rd.1.1 = r :: rest ∧
         trace out.2 = trace s ++
           [ EvRead client ctx req;
             EvPrintf "%s - 节点 %s 的值: %v (类型: %T)\n"
               [ArgString deviceName; ArgString nodeIDStr;
                ArgValue (Value r); ArgTypeOf (Value r)];
             EvPrintf "%s - 服务器时间戳: %v\n"
               [ArgString deviceName; ArgTime (ServerTimestamp r)];
             EvPrintf "%s - 源时间戳: %v\n"
               [ArgString deviceName; ArgTime (SourceTimestamp r)] ]).
Proof.
  intros client parsed req rd out.
  assert (Hrun := readNodeValue_run ctx client nodeIDStr deviceName s).
  cbn zeta in Hrun. fold parsed req rd out in Hrun. rewrite Hrun. clear Hrun.
  destruct (parsed.2) as [e|]; cbn.
  { eexists; split; [done|]. split; [split; eauto|]. discriminate. }
  destruct (rd.1.2) as [e|]; cbn.
  { eexists; split; [done|]. split; [split; eauto|]. discriminate. }
  destruct (Results rd.1.1) as [|r rest] eqn:Hres; cbn.
  { eexists; split; [done|]. split; [split; eauto|]. discriminate. }
  destruct (Status r =? StatusOK) eqn:Hst; cbn.
  - apply Z.eqb_eq in Hst.
    exists None. split; [done|]. split.
    + split; [intros [? ?]; discriminate|].
      intros [[? ?]|[[? ?]|[?|(r' & rest' & Heq & Hne)]]]; try discriminate.
      by simplify_eq.
    + intros _. exists r, rest. split; [done|]. by rewrite <- !app_assoc.
  - apply Z.eqb_neq in Hst.
    eexists; split; [done|]. split; [|discriminate].
    split; [|eauto]. intros _. right; right; right. eauto.
Qed.



(** [connectWithLocalAddr] always returns; it adds events to the trace,
    none of them a read; with a non-nil error the client is nil. *)
Lemma connectWithLocalAddr_returns ctx endpoint localAddr (s : state U) :
  ∃ c err s' evs,
    connectWithLocalAddr ctx endpoint localAddr s = (Ret (c, err), s') ∧
    trace s' = trace s ++ evs ∧
    (∀ c' ctx' req, EvRead c' ctx' req ∉ evs) ∧
    (is_Some err → c = None).
Proof.
  rewrite connectWithLocalAddr_run. cbn zeta.
  destruct (lib_NewClient _ _ _).1.2 as [e1|].
  - do 4 eexists. split; [done|]. cbn. split; [done|]. split; [not_in_list|done].
  - destruct (lib_Connect _ _ _).1 as [e2|].
    + do 4 eexists. split; [done|]. cbn. rewrite <- !app_assoc.
      split; [done|]. split; [not_in_list|done].
    + do 4 eexists. split; [done|]. cbn. rewrite <- !app_assoc.
      split; [done|]. split; [not_in_list|]. intros [? ?]; discriminate.
Qed.



(** [monitorMultipleDevices] returns nil after starting a goroutine for
    each of its two devices. *)
Lemma monitorMultipleDevices_starts ctx :
  monitorMultipleDevices (U := U) ctx =
  (map (poll_device ctx) monitorMultipleDevices_devices, None) ∧
  length monitorMultipleDevices_devices = 2%nat.
Proof. done. Qed.



(** ** What the functions leave undone *)

(** X1.  [connectWithLocalAddr] by the outcome of the two library calls: the
    events it adds, the error it builds, and the client it returns.  It
    never calls [Close], so that a client whose [Connect] failed is
    dropped as it is; and it does not call [Connect] when [NewClient]
    failed. *)
Theorem connectWithLocalAddr_drops_failed_client
    ctx endpoint localAddr (s : state U) :
  let opts := connect_opts localAddr in
  let new := lib_NewClient endpoint opts (world s) in
  let con := lib_Connect new.1.1 ctx new.2 in
  let out := connectWithLocalAddr ctx endpoint localAddr s in
  mem out.2 = mem s ∧
  ∃ evs,
    trace out.2 = trace s ++ evs ∧
    closed_clients evs = [] ∧
    match new.1.2, con.1 with
    | Some e, _ =>
      evs = [EvNewClient endpoint opts] ∧
      out.1 = Ret (None, Some (Errorf "创建客户端失败: %v" [ErrArgError (LibErr e)]))
    | None, Some e =>
      evs = [EvNewClient endpoint opts; EvConnect new.1.1 ctx] ∧
      out.1 = Ret (None, Some (Errorf "连接服务器失败: %v" [ErrArgError (LibErr e)]))
    | None, None =>
      evs = [EvNewClient endpoint opts; EvConnect new.1.1 ctx;
             EvPrintf "成功连接到 %s (本地地址: %s)\n"
               [ArgString endpoint; ArgString localAddr]] ∧
      out.1 = Ret (new.1.1, None)
    end.
Proof.
  intros opts new con out. unfold out. rewrite connectWithLocalAddr_run. cbn zeta.
  fold opts. fold new. fold con.
  destruct (new.1.2) as [e1|]; [|destruct (con.1) as [e2|]]; cbn;
    (split; [done|]); eexists; rewrite <- ?app_assoc; (split; [reflexivity|]); done.
Qed.

(** X2.  [readNodeValue] by the stage that fails.  A node id that does not
    parse ends the call before the client is used; every other failure
    comes after exactly one [Read]; and nothing is printed on a failure.
    The error names the stage, wraps the error of the library, or carries
    the status that was not good. *)
Theorem readNodeValue_failure_stages ctx client nodeIDStr deviceName (s : state U) :
  let parsed := lib_ParseNodeID nodeIDStr in
  let req := {| MaxAge := 2000;
                NodesToRead := [ {| rv_NodeID := parsed.1 |} ];
                TimestampsToReturn_ := TimestampsToReturnBoth |} in
  let rd := lib_Read client ctx req (world s) in
  let out := readNodeValue ctx client nodeIDStr deviceName s in
  mem out.2 = mem s ∧
  (∀ e, parsed.2 = Some e →
     out = (Ret (Some (Errorf "解析节点ID失败: %v" [ErrArgError (LibErr e)])), s)) ∧
  (parsed.2 = None →
     world out.2 = rd.2 ∧
     ∃ evs, trace out.2 = trace s ++ EvRead client ctx req :: evs ∧
            read_clients evs = [] ∧
            (∀ e, out.1 = Ret (Some e) → evs = []) ∧
            (∀ e, rd.1.2 = Some e →
               out.1 = Ret (Some (Errorf "读取请求失败: %v" [ErrArgError (LibErr e)]))) ∧
            (rd.1.2 = None → Results rd.1.1 = [] →
               out.1 = Ret (Some (Errorf "没有读取结果" []))) ∧
            (∀ r rest, rd.1.2 = None → Results rd.1.1 = r :: rest → Status r ≠ StatusOK →
               out.1 = Ret (Some (Errorf "读取状态错误: %v" [ErrArgStatus (Status r)])))).
Proof.
  intros parsed req rd out.
  assert (Hrun := readNodeValue_run ctx client nodeIDStr deviceName s).
  cbn zeta in Hrun. fold parsed req rd out in Hrun. rewrite Hrun. clear Hrun.
  destruct (parsed.2) as [e|]; cbn.
  { split; [done|]. split; [by intros ? [= <-]|done]. }
  split; [by repeat case_match|]. split; [done|]. intros _.
  destruct (rd.1.2) as [e|]; cbn.
  { split; [done|]. exists []. split_and!; try done. by intros ? [= <-]. }
  destruct (Results rd.1.1) as [|r rest]; cbn.
  { split; [done|]. exists []. split_and!; done. }
  destruct (Status r =? StatusOK) eqn:Hst; cbn.
  - apply Z.eqb_eq in Hst. split; [done|]. eexists. rewrite <- !app_assoc.
    split; [reflexivity|]. split_and!; try done.
    intros r' rest' _ [= <- <-] Hne. done.
  - split; [done|]. exists []. split_and!; try done.
    by intros r' rest' _ [= <- <-] _.
Qed.

(** ** Clients connected and closed *)

Lemma bind_run {A B} (m : M U A) (k : A → M U B) s a s' :
  m s = (Ret a, s') → bind m k s = k a s'.
Proof. unfold bind. by intros ->. Qed.

Lemma closed_clients_app (l k : list event) :
  closed_clients (l ++ k) = closed_clients l ++ closed_clients k.
Proof. apply omap_app. Qed.

Lemma connected_clients_app (l k : list event) :
  connected_clients (l ++ k) = connected_clients l ++ connected_clients k.
Proof. apply omap_app. Qed.

(** The clients that [connectWithLocalAddr] connects and closes. *)
Lemma connectWithLocalAddr_clients ctx endpoint localAddr (s : state U) :
  ∃ c err s' evs,
    connectWithLocalAddr ctx endpoint localAddr s = (Ret (c, err), s') ∧
    trace s' = trace s ++ evs ∧
    closed_clients evs = [] ∧
    match err with
    | None => connected_clients evs = [c]
    | Some _ => (length (connected_clients evs) ≤ 1)%nat
    end.
Proof.
  rewrite connectWithLocalAddr_run. cbn zeta.
  destruct (lib_NewClient _ _ _).1.2 as [e1|].
  - do 4 eexists. split; [done|]. cbn. split; [done|]. split; [done|]. cbn. lia.
  - destruct (lib_Connect _ _ _).1 as [e2|].
    + do 4 eexists. split; [done|]. cbn. rewrite <- !app_assoc.
      split; [done|]. split; [done|]. cbn. lia.
    + do 4 eexists. split; [done|]. cbn. rewrite <- !app_assoc.
      split; [done|]. split; done.
Qed.

Lemma readNodeValue_clients ctx client nodeIDStr deviceName (s : state U) :
  ∃ err s' evs,
    readNodeValue ctx client nodeIDStr deviceName s = (Ret err, s') ∧
    trace s' = trace s ++ evs ∧
    closed_clients evs = [] ∧ connected_clients evs = [].
Proof.
  rewrite readNodeValue_run. cbn zeta.
  destruct (lib_ParseNodeID _).2.
  { eexists _, _, []. split; [reflexivity|]. by rewrite app_nil_r. }
  destruct (lib_Read _ _ _ _).1.2.
  { do 3 eexists. split; [done|]. done. }
  destruct (Results _).
  { do 3 eexists. split; [done|]. done. }
  destruct (_ =? _).
  - do 3 eexists. split; [done|]. cbn. by rewrite <- !app_assoc.
  - do 3 eexists. split; [done|]. done.
Qed.

(** A failed read is logged; the run goes on. *)
Lemma logged_read (err : error) (format : string) (s : state U) :
  ∃ s' evs,
    match err with
    | Some e => log_Printf format [ArgError e]
    | None => ret tt
    end s = (Ret tt, s') ∧
    trace s' = trace s ++ evs ∧
    closed_clients evs = [] ∧ connected_clients evs = [].
Proof.
  destruct err; cbn.
  - do 2 eexists. split; [done|]. done.
  - exists s, []. by rewrite app_nil_r.
Qed.

Ltac next_step H := erewrite bind_run; [|exact H]; cbn beta iota zeta.

(** The clients that [main] connects and closes once the flags are
    parsed. *)
Lemma main_clients (f : flags) (s : state U) :
  ∃ r s' evs,
    main f s = (r, s') ∧
    trace s' = trace s ++ evs ∧
    ((r = Ret tt ∧
      closed_clients evs = rev (connected_clients evs) ∧
      length (connected_clients evs) = 2%nat) ∨
     (r = Exit 1 ∧
      closed_clients evs = [] ∧
      (length (connected_clients evs) ≤ 2)%nat)).
Proof.
  unfold main. erewrite bind_run; [|reflexivity].
  edestruct (connectWithLocalAddr_clients Background (endpoint1 f) (localAddr1 f))
    as (c1 & err1 & s1 & evs1 & Hc1 & Ht1 & Hcl1 & Hco1).
  next_step Hc1. cbn in Ht1.
  destruct err1 as [e1|].
  { do 3 eexists. split; [reflexivity|]. cbn. rewrite Ht1, <- !app_assoc.
    split; [reflexivity|]. right. split; [done|].
    rewrite !closed_clients_app, !connected_clients_app, Hcl1, !length_app.
    cbn. split; [done|lia]. }
  erewrite bind_run; [|reflexivity].
  edestruct (connectWithLocalAddr_clients Background (endpoint2 f) (localAddr2 f))
    as (c2 & err2 & s2 & evs2 & Hc2 & Ht2 & Hcl2 & Hco2).
  next_step Hc2. cbn in Ht2.
  destruct err2 as [e2|].
  { do 3 eexists. split; [reflexivity|]. cbn. rewrite Ht2, Ht1, <- !app_assoc.
    split; [reflexivity|]. right. split; [done|].
    rewrite !closed_clients_app, !connected_clients_app, Hcl1, Hcl2, Hco1, !length_app.
    cbn. split; [done|lia]. }
  erewrite bind_run; [|reflexivity].
  edestruct (readNodeValue_clients Background c1 (nodeID f) "设备1")
    as (err3 & s3 & evs3 & Hr3 & Ht3 & Hcl3 & Hco3).
  next_step Hr3. cbn in Ht3.
  edestruct (logged_read err3 "从设备1读取数据失败: %v")
    as (s3' & log3 & Hl3 & Htl3 & Hcl3' & Hco3').
  next_step Hl3.
  erewrite bind_run; [|reflexivity].
  edestruct (readNodeValue_clients Background c2 (nodeID f) "设备2")
    as (err4 & s4 & evs4 & Hr4 & Ht4 & Hcl4 & Hco4).
  next_step Hr4. cbn in Ht4.
  edestruct (logged_read err4 "从设备2读取数据失败: %v")
    as (s4' & log4 & Hl4 & Htl4 & Hcl4' & Hco4').
  next_step Hl4.
  run_go.
  destruct (lib_Close c2 _ _) as [a w]; cbn.
  destruct (lib_Close c1 _ _) as [a' w']; cbn.
  do 3 eexists. split; [reflexivity|]. cbn.
  rewrite Htl4, Ht4, Htl3, Ht3, Ht2, Ht1, <- !app_assoc.
  split; [reflexivity|]. left. split; [done|].
  rewrite !closed_clients_app, !connected_clients_app.
  rewrite Hcl1, Hcl2, Hcl3, Hcl4, Hcl3', Hcl4', Hco1, Hco2, Hco3, Hco4, Hco3', Hco4'.
  done.
Qed.

(** X3.  [main] ends in one of three ways.  [flag.Parse()] ends the
    program, with status 0 on a request for help and status 2 on a
    command line that does not parse, before anything else is done.
    Otherwise [main] goes on with the flags as parsed and returns, or
    ends with [os.Exit(1)] through [log.Fatalf].  When it returns, the two
    clients it connected have been closed, the second one first.  When
    it exits, no client has been closed: the deferred calls do not run,
    and a first client that was connected stays open when the second
    connection fails. *)
Theorem main_closes_on_return_only (s : state U) :
  let parse := lib_flag_Parse default_flags (world s) in
  let s0 := {| world := parse.2; trace := trace s ++ [EvFlagParse]; mem := mem s |} in
  match parse.1 with
  | FlagErrHelp => main_program s = (Exit 0, s0)
  | FlagError => main_program s = (Exit 2, s0)
  | FlagParsed f =>
    ∃ r s' evs,
      main_program s = (r, s') ∧
      main f s0 = (r, s') ∧
      trace s' = trace s0 ++ evs ∧
      ((r = Ret tt ∧
        closed_clients evs = rev (connected_clients evs) ∧
        length (connected_clients evs) = 2%nat) ∨
       (r = Exit 1 ∧
        closed_clients evs = [] ∧
        (length (connected_clients evs) ≤ 2)%nat))
  end.
Proof.
  intros parse s0.
  assert (Hrun : main_program s =
    match parse.1 with
    | FlagParsed f => main f s0
    | FlagErrHelp => (Exit 0, s0)
    | FlagError => (Exit 2, s0)
    end).
  { unfold main_program, flag_Parse, call, bind, ret, os_Exit. subst parse s0.
    by destruct (lib_flag_Parse _ _) as [[f| |] w]. }
  rewrite Hrun. destruct (parse.1) as [f| |]; [|done..].
  destruct (main_clients f s0) as (r & s' & evs & Hmain & Ht & Hcases).
  by exists r, s', evs.
Qed.

(** ** The goroutines of [monitorMultipleDevices] *)

(** What a call of [readNodeValue] adds to a trace. *)
Lemma readNodeValue_reads ctx client nodeIDStr deviceName (s : state U) :
  ∃ err s' evs,
    readNodeValue ctx client nodeIDStr deviceName s = (Ret err, s') ∧
    trace s' = trace s ++ evs ∧
    Forall (fun ev => is_ticker ev = false) evs ∧
    closed_clients evs = [] ∧
    (read_clients evs = [] ∨ read_clients evs = [client]).
Proof.
  rewrite readNodeValue_run. cbn zeta.
  destruct (lib_ParseNodeID _).2.
  { eexists _, _, []. split; [reflexivity|]. rewrite app_nil_r. split_and!; auto. }
  destruct (lib_Read _ _ _ _).1.2.
  { do 3 eexists. split; [done|]. cbn. split_and!; auto. }
  destruct (Results _).
  { do 3 eexists. split; [done|]. cbn. split_and!; auto. }
  destruct (_ =? _).
  - do 3 eexists. split; [done|]. cbn. rewrite <- !app_assoc.
    split_and!; [done|repeat constructor|done|by right].
  - do 3 eexists. split; [done|]. cbn. split_and!; auto.
Qed.

Lemma read_clients_app (l k : list event) :
  read_clients (l ++ k) = read_clients l ++ read_clients k.
Proof. apply omap_app. Qed.

(** The loop is left only on a cancellation, which a background context
    never has; until then every tick is at most one read, on the client
    of the goroutine. *)
Lemma poll_loop_left ctx client dev sel (s s' : state U) :
  poll_loop ctx client dev sel s = (Ret true, s') →
  ctx = ManagerCtx ∧ CaseDone ∈ sel ∧
  ∃ mid,
    trace s' = trace s ++ mid ∧
    Forall (fun ev => is_ticker ev = false) mid ∧
    closed_clients mid = [] ∧
    (∀ c, c ∈ read_clients mid → c = client) ∧
    (length (read_clients mid) ≤ ticks sel)%nat.
Proof.
  revert s. induction sel as [|c sel IH]; intros s; cbn [poll_loop].
  { by intros [= ]. }
  destruct c.
  - destruct ctx; [by intros [= ]|]. intros [= <-].
    split; [done|]. split; [by left|]. exists []. rewrite app_nil_r.
    split_and!; [done|constructor|done| |cbn; lia].
    intros c Hc. by apply elem_of_nil in Hc.
  - destruct (readNodeValue_reads ctx client
                (String.append "i=" (pretty id_Server_ServerStatus_State))
                (dev_name dev) s) as (err & s1 & evs & Hrd & Ht & Htick & Hcl & Hreads).
    erewrite bind_run; [|exact Hrd].
    assert (Hlog : ∃ s2 log,
      match err with
      | Some e => log_Printf "%s 读取状态失败: %v" [ArgString (dev_name dev); ArgError e]
      | None => ret tt
      end s1 = (Ret tt, s2) ∧ trace s2 = trace s1 ++ log ∧
      Forall (fun ev => is_ticker ev = false) log ∧
      closed_clients log = [] ∧ read_clients log = []).
    { destruct err; cbn.
      - do 2 eexists. split; [done|]. cbn. split_and!; auto.
      - exists s1, []. rewrite app_nil_r. split_and!; auto. }
    destruct Hlog as (s2 & log & Hlog & Ht2 & Htick2 & Hcl2 & Hrd2).
    erewrite bind_run; [|exact Hlog].
    intros Hloop. apply IH in Hloop as (Hctx & Hin & mid & Htm & Htk & Hclm & Hrm & Hlen).
    split; [done|]. split; [by right|].
    exists (evs ++ log ++ mid). rewrite Htm, Ht2, Ht, <- !app_assoc.
    split; [done|]. split; [by rewrite !Forall_app|].
    rewrite !closed_clients_app, !read_clients_app, Hcl, Hcl2, Hclm, Hrd2.
    split; [done|]. cbn [app]. split.
    + intros c Hc. apply elem_of_app in Hc as [Hc|Hc]; [|by apply Hrm].
      destruct Hreads as [Hr|Hr]; rewrite Hr in Hc.
      * by apply elem_of_nil in Hc.
      * by apply list_elem_of_singleton in Hc.
    + rewrite length_app. destruct Hreads as [Hr|Hr]; rewrite Hr; cbn; lia.
Qed.

(** X4.  A goroutine of [monitorMultipleDevices] returns in two ways only:
    after a connection that failed, with that failure logged and nothing
    else done; or on the cancellation of its context, which cannot be
    [context.Background()], and then its ticker has been stopped and its
    client closed, in that order, after at most one read per tick, each on
    its own client. *)
Theorem poll_device_returns ctx dev sel (s s' : state U) :
  poll_device ctx dev sel s = (Ret true, s') →
  ∃ client err s1,
    connectWithLocalAddr ctx (dev_endpoint dev) (dev_localAddr dev) s
      = (Ret (client, err), s1) ∧
    match err with
    | Some e =>
      trace s' = trace s1 ++
        [EvLogPrintf "连接 %s 失败: %v" [ArgString (dev_name dev); ArgError e]]
    | None =>
      ctx = ManagerCtx ∧ CaseDone ∈ sel ∧
      ∃ mid,
        trace s' = trace s1 ++ EvNewTicker (5 * Second) :: mid ++
                     [EvTickerStop; EvClose client ctx] ∧
        Forall (fun ev => is_ticker ev = false) mid ∧
        closed_clients mid = [] ∧
        (∀ c, c ∈ read_clients mid → c = client) ∧
        (length (read_clients mid) ≤ ticks sel)%nat
    end.
Proof.
  destruct (connectWithLocalAddr_returns ctx (dev_endpoint dev) (dev_localAddr dev) s)
    as (client & err & s1 & evs & Hc & Ht & _ & _).
  unfold poll_device. erewrite bind_run; [|exact Hc]. cbn beta iota.
  intros Hrun. exists client, err, s1. split; [done|].
  destruct err as [e|].
  { revert Hrun. run_go. by intros [= <-]. }
  erewrite bind_run in Hrun; [|reflexivity].
  unfold bind at 1 in Hrun.
  destruct (poll_loop ctx client dev sel _) as [[[|]| | |] s2] eqn:Hloop;
    try (revert Hrun; run_go; congruence).
  apply poll_loop_left in Hloop as (Hctx & Hin & mid & Htm & Htk & Hclm & Hrm & Hlen).
  split; [done|]. split; [done|]. exists mid.
  split; [|done]. revert Hrun. run_go.
  destruct (lib_Close _ _ _) as [a w]. cbn. intros [= <-]. cbn.
  rewrite Htm. cbn. by rewrite <- !app_assoc.
Qed.

End BasicProofs.
End BasicProofs.

(** * Properties of the connection manager *)
Module AdvancedProofs.
Import Advanced.
(** The lemmas about the monad and about traces are those of the basic
    example. *)
Import BasicProofs.
Section AdvancedProofs.
Context `{E : Env}.

(** ** [GetAvailableInterfaces] *)

Lemma inner_loop_appends (addrs : list (Addr net_IP)) (acc : list string) :
  GetAvailableInterfaces_addrs acc addrs = acc ++ ipv4_non_loopback addrs.
Proof.
  unfold GetAvailableInterfaces_addrs.
  revert acc. induction addrs as [|a addrs IH]; intros acc; cbn.
  - by rewrite app_nil_r.
  - rewrite IH. destruct a as [ip mask|other]; cbn; [|done].
    destruct (IP_IsLoopback ip); cbn; [done|].
    destruct (IP_To4 ip) as [ip4|]; cbn; by rewrite <- ?app_assoc.
Qed.

(** The outer loop; the only events it adds are the enumerations of the
    addresses of interfaces that are up. *)
Lemma outer_loop_appends (ifaces : list Interface) (acc : list string)
    (s : state memory) :
  ∃ s' evs,
    for_range_acc ifaces acc GetAvailableInterfaces_iface s
      = (Ret (acc ++ available_addresses ifaces (world s)), s') ∧
    trace s' = trace s ++ evs ∧
    ∀ ev, ev ∈ evs →
      ∃ iface, ev = EvAddrs iface ∧ iface ∈ ifaces ∧
               Z.land (if_Flags iface) FlagUp ≠ 0.
Proof.
  revert acc s. induction ifaces as [|i ifaces IH]; intros acc s; cbn.
  - exists s, []. unfold ret. rewrite !app_nil_r. split_and!; [done..|].
    intros ev Hev. by apply elem_of_nil in Hev.
  - unfold GetAvailableInterfaces_iface at 1. unfold bind at 1.
    destruct (Z.land (if_Flags i) FlagUp =? 0) eqn:Hup.
    + cbn. destruct (IH acc s) as (s' & evs & Hrun & Htr & Hevs).
      exists s', evs. split_and!; [done..|].
      intros ev Hev. destruct (Hevs ev Hev) as (iface & ? & ? & ?).
      exists iface. split_and!; [done| |done]. by apply elem_of_cons; right.
    + apply Z.eqb_neq in Hup. run_go.
      set (s1 := {| world := (os_Addrs i (world s)).2;
                    trace := trace s ++ [EvAddrs i]; mem := mem s |}).
      assert (Hstep : ∀ acc',
        ∃ s' evs,
          for_range_acc ifaces acc' GetAvailableInterfaces_iface s1
            = (Ret (acc' ++ available_addresses ifaces (world s1)), s') ∧
          trace s' = trace s ++ evs ∧
          ∀ ev, ev ∈ evs →
            ∃ iface, ev = EvAddrs iface ∧ iface ∈ i :: ifaces ∧
                     Z.land (if_Flags iface) FlagUp ≠ 0).
      { intros acc'. destruct (IH acc' s1) as (s' & evs & Hrun & Htr & Hevs).
        exists s', (EvAddrs i :: evs). split_and!; [done| |].
        - rewrite Htr. cbn. by rewrite <- app_assoc.
        - intros ev Hev. apply elem_of_cons in Hev as [->|Hev].
          + exists i. split_and!; [done| |done]. by apply elem_of_cons; left.
          + destruct (Hevs ev Hev) as (iface & ? & ? & ?).
            exists iface. split_and!; [done| |done]. by apply elem_of_cons; right. }
      subst s1. destruct (os_Addrs i (world s)) as [[addrs [e|]] w']; cbn in *.
      * apply Hstep.
      * rewrite inner_loop_appends.
        destruct (Hstep (acc ++ ipv4_non_loopback addrs)) as (s' & evs & Hrun & H).
        exists s', evs. rewrite Hrun. by rewrite <- app_assoc.
Qed.

Lemma available_addresses_sound (ifaces : list Interface) (w : World) (str : string) :
  str ∈ available_addresses ifaces w →
  ∃ iface ip mask w0 addrs w1,
    iface ∈ ifaces ∧
    Z.land (if_Flags iface) FlagUp ≠ 0 ∧
    os_Addrs iface w0 = ((addrs, None), w1) ∧
    IPNet ip mask ∈ addrs ∧
    IP_IsLoopback ip = false ∧
    is_Some (IP_To4 ip) ∧
    str = IP_String ip.
Proof.
  revert w. induction ifaces as [|i ifaces IH]; intros w; cbn.
  { intros Hin. by apply elem_of_nil in Hin. }
  assert (Hrest : ∀ w', str ∈ available_addresses ifaces w' →
    ∃ iface ip mask w0 addrs w1,
      iface ∈ i :: ifaces ∧ Z.land (if_Flags iface) FlagUp ≠ 0 ∧
      os_Addrs iface w0 = ((addrs, None), w1) ∧ IPNet ip mask ∈ addrs ∧
      IP_IsLoopback ip = false ∧ is_Some (IP_To4 ip) ∧ str = IP_String ip).
  { intros w' Hin. destruct (IH _ Hin) as (iface & ip & mask & w0 & addrs & w1 & Hi & H).
    exists iface, ip, mask, w0, addrs, w1. split; [by apply elem_of_cons; right|done]. }
  destruct (Z.land (if_Flags i) FlagUp =? 0) eqn:Hup; [apply Hrest|].
  apply Z.eqb_neq in Hup.
  destruct (os_Addrs i w) as [[addrs [e|]] w'] eqn:Haddrs; [apply Hrest|].
  rewrite elem_of_app. intros [Hin|Hin]; [|by eapply Hrest].
  unfold ipv4_non_loopback in Hin. apply list_elem_of_In, in_flat_map in Hin.
  destruct Hin as (a & Ha & Hstr). apply list_elem_of_In in Ha.
  destruct a as [ip mask|other]; [|by destruct Hstr].
  destruct (IP_IsLoopback ip) eqn:Hlo; cbn in Hstr; [by destruct Hstr|].
  destruct (bool_decide (is_Some (IP_To4 ip))) eqn:H4; [|by destruct Hstr].
  apply bool_decide_eq_true in H4. destruct Hstr as [<-|[]].
  exists i, ip, mask, w, addrs, w'. split; [by apply elem_of_cons; left|done].
Qed.

(** C10.  [GetAvailableInterfaces] always returns, and its error is
    non-nil exactly when the enumeration of the interfaces fails.
    Otherwise the list it returns is the concatenation, in the order of
    enumeration, of the IPv4 non-loopback addresses of the interfaces that
    are up and whose addresses could be enumerated; so every string in it
    is such an address of an interface whose up-flag is set.  The skipped
    interfaces are skipped silently: beside the enumeration of the
    interfaces, the only events of the call are the enumerations of the
    addresses of interfaces that are up. *)
Theorem GetAvailableInterfaces_spec (s : state memory) :
  let en := os_Interfaces (world s) in
  let out := GetAvailableInterfaces s in
  ∃ (result : list string) (err : error),
    out.1 = Ret (result, err) ∧
    (is_Some err ↔ is_Some en.1.2) ∧
    (en.1.2 = None → result = available_addresses en.1.1 en.2) ∧
    (∀ str, str ∈ result →
       ∃ iface ip mask w0 addrs w1,
         iface ∈ en.1.1 ∧
         Z.land (if_Flags iface) FlagUp ≠ 0 ∧
         os_Addrs iface w0 = ((addrs, None), w1) ∧
         IPNet ip mask ∈ addrs ∧
         IP_IsLoopback ip = false ∧
         is_Some (IP_To4 ip) ∧
         str = IP_String ip) ∧
    (∃ evs, trace out.2 = trace s ++ EvInterfaces :: evs ∧
       ∀ ev, ev ∈ evs →
         ∃ iface, ev = EvAddrs iface ∧ iface ∈ en.1.1 ∧
                  Z.land (if_Flags iface) FlagUp ≠ 0).
Proof.
  intros en out. unfold out, GetAvailableInterfaces. run_go. fold en.
  destruct en as [[ifaces [e|]] w1] eqn:Hen; cbn.
  - exists [], (Some (LibErr e)). split; [done|]. split; [split; eauto|].
    split; [discriminate|].
    split; [intros str Hin; by apply elem_of_nil in Hin|].
    exists []. split; [done|]. intros ev Hev. by apply elem_of_nil in Hev.
  - edestruct (outer_loop_appends ifaces []) as (s' & evs & Hs' & Htr & Hevs).
    rewrite Hs'. cbn.
    eexists _, None. split; [done|].
    split; [split; intros [? ?]; discriminate|]. split; [done|].
    split; [apply available_addresses_sound|].
    exists evs. rewrite Htr. cbn. by rewrite <- app_assoc.
Qed.

(** ** Running the primitives on a known heap *)

Ltac run_mem :=
  cbv [bind ret call emit get_mem put_mem os_Exit block panic
       opcua_NewClient Client_Connect Client_Read Client_Close
       ua_ParseNodeID net_Interfaces Interface_Addrs
       fmt_Printf fmt_Println log_Printf log_Fatalf lift_err
       deref modify new load_Client load_Connected
       store_Client store_Connected store_LastError
       mu_Lock mu_Unlock mu_RLock mu_RUnlock get_mgr put_mgr
       cancel recv_ctx_Done wg_Add wg_Done wg_Wait go_monitorDevice
       set_heap set_mgr set_goroutines];
  cbn [world trace mem heap mgr goroutines devices ctx_done wg
       fst snd fmap option_fmap option_map].

(** Looks the device up again after the heap has been updated at [d]. *)
Ltac lookup_again H :=
  rewrite ?list_insert_insert_eq;
  rewrite ?list_lookup_insert_eq by (rewrite ?length_insert; exact (lookup_lt_Some _ _ _ H));
  rewrite ?H.

Lemma setError_run d err (s : state memory) dev :
  heap (mem s) !! d = Some dev →
  mu dev = unlocked →
  setError d err s =
  (Ret tt,
   {| world := world s;
      trace := trace s ++ [EvLock d; EvStore d FConnected; EvStore d FLastError; EvUnlock d];
      mem := set_heap (<[d := set_LastError err (set_Connected false dev)]> (heap (mem s)))
               (mem s) |}).
Proof.
  intros Hd Hmu. destruct s as [w t [h m g]]. cbn in Hd.
  unfold setError. run_mem. lookup_again Hd. rewrite Hmu. cbn.
  repeat (run_mem; lookup_again Hd; cbn).
  destruct dev; cbn in Hmu; subst. by rewrite <- !app_assoc.
Qed.

Lemma setError_invalid d err (s : state memory) :
  heap (mem s) !! d = None → setError d err s = (Panic, s).
Proof.
  intros Hd. destruct s as [w t [h m g]]. cbn in Hd.
  unfold setError. run_mem. by rewrite Hd.
Qed.

Lemma IsConnected_run d (s : state memory) dev :
  heap (mem s) !! d = Some dev →
  mu dev = unlocked →
  IsConnected d s =
  (Ret (Connected dev),
   {| world := world s;
      trace := trace s ++ [EvRLock d; EvLoad d FConnected; EvRUnlock d];
      mem := mem s |}).
Proof.
  intros Hd Hmu. destruct s as [w t [h m g]]. cbn in Hd.
  unfold IsConnected. run_mem. lookup_again Hd. rewrite Hmu. cbn.
  repeat (run_mem; lookup_again Hd; cbn).
  rewrite <- !app_assoc. cbn.
  replace (set_mu _ (set_mu _ dev)) with dev by (destruct dev; cbn in Hmu; by subst).
  by rewrite list_insert_id.
Qed.

Lemma IsConnected_invalid d (s : state memory) :
  heap (mem s) !! d = None → IsConnected d s = (Panic, s).
Proof.
  intros Hd. destruct s as [w t [h m g]]. cbn in Hd.
  unfold IsConnected. run_mem. by rewrite Hd.
Qed.

Lemma GetClient_run d (s : state memory) dev :
  heap (mem s) !! d = Some dev →
  mu dev = unlocked →
  GetClient d s =
  (Ret (Client dev),
   {| world := world s;
      trace := trace s ++ [EvRLock d; EvLoad d FClient; EvRUnlock d];
      mem := mem s |}).
Proof.
  intros Hd Hmu. destruct s as [w t [h m g]]. cbn in Hd.
  unfold GetClient. run_mem. lookup_again Hd. rewrite Hmu. cbn.
  repeat (run_mem; lookup_again Hd; cbn).
  rewrite <- !app_assoc. cbn.
  replace (set_mu _ (set_mu _ dev)) with dev by (destruct dev; cbn in Hmu; by subst).
  by rewrite list_insert_id.
Qed.

Lemma GetClient_invalid d (s : state memory) :
  heap (mem s) !! d = None → GetClient d s = (Panic, s).
Proof.
  intros Hd. destruct s as [w t [h m g]]. cbn in Hd.
  unfold GetClient. run_mem. by rewrite Hd.
Qed.

Lemma connectDevice_invalid d (s : state memory) :
  heap (mem s) !! d = None → connectDevice d s = (Panic, s).
Proof.
  intros Hd. destruct s as [w t [h m g]]. cbn in Hd.
  unfold connectDevice. run_mem. by rewrite Hd.
Qed.

Lemma connectDevice_run d (s : state memory) dev :
  heap (mem s) !! d = Some dev →
  mu dev = unlocked →
  let opts := connectDevice_opts (LocalAddr dev) in
  let new := lib_NewClient (Endpoint dev) opts (world s) in
  let con := lib_Connect new.1.1 ManagerCtx new.2 in
  connectDevice d s =
  match new.1.2, con.1 with
  | Some e, _ =>
    (Ret (Some (Errorf "创建客户端失败: %v" [ErrArgError (LibErr e)])),
     {| world := new.2;
        trace := trace s ++ [EvNewClient (Endpoint dev) opts];
        mem := mem s |})
  | None, Some e =>
    (Ret (Some (Errorf "连接失败: %v" [ErrArgError (LibErr e)])),
     {| world := con.2;
        trace := trace s ++ [EvNewClient (Endpoint dev) opts; EvConnect new.1.1 ManagerCtx];
        mem := mem s |})
  | None, None =>
    (Ret None,
     {| world := con.2;
        trace := trace s ++
          [ EvNewClient (Endpoint dev) opts; EvConnect new.1.1 ManagerCtx;
            EvLock d; EvStore d FClient; EvStore d FConnected; EvStore d FLastError;
            EvUnlock d;
            EvPrintf "✓ 设备 %s 已通过 %s 连接到 %s\n"
              [ArgString (Name dev); ArgString (LocalAddr dev);
               ArgString (Endpoint dev)] ];
        mem := set_heap
                 (<[d := set_LastError None (set_Connected true (set_Client new.1.1 dev))]>
                    (heap (mem s)))
                 (mem s) |})
  end.
Proof.
  intros Hd Hmu. destruct s as [w t [h m g]]. cbn in Hd. cbn zeta.
  unfold connectDevice. run_mem. lookup_again Hd. cbn.
  destruct (lib_NewClient _ _ _) as [[c [e1|]] w1]; cbn; [done|].
  destruct (lib_Connect _ _ _) as [[e2|] w2]; cbn.
  { by rewrite <- !app_assoc. }
  lookup_again Hd. rewrite Hmu. cbn.
  repeat (run_mem; lookup_again Hd; cbn).
  destruct dev; cbn in Hmu; subst. by rewrite <- !app_assoc.
Qed.

(** ** What a call leaves alone *)

(** Splits the goal along every branch a computation can take. *)
Ltac branches :=
  run_mem;
  repeat (case_match; run_mem; simplify_eq/=);
  intros; simplify_eq/=.

Lemma ConnectAll_body_frame d d' (s : state memory) r s' :
  d ≠ d' →
  ConnectAll_body d' s = (r, s') →
  heap (mem s') !! d = heap (mem s) !! d.
Proof.
  intros Hne. destruct s as [w t [h m g]].
  unfold ConnectAll_body, connectDevice, setError. branches;
    rewrite ?list_lookup_insert_ne by done; done.
Qed.

(** ** Relations between the states before and after a computation *)

Lemma stable_ret {A} (R : relation (state memory)) `{!Reflexive R} (a : A) :
  stable R (ret a).
Proof. intros s r s' [= <- <-]. reflexivity. Qed.

Lemma stable_bind {A B} (R : relation (state memory)) `{!PreOrder R}
    (m : M memory A) (k : A → M memory B) :
  stable R m → (∀ a, stable R (k a)) → stable R (bind m k).
Proof.
  intros Hm Hk s r s'. unfold bind.
  destruct (m s) as [[a|c| |] s1] eqn:Hms; intros Hr.
  - transitivity s1; [by eapply Hm | by eapply Hk].
  - simplify_eq. by eapply Hm.
  - simplify_eq. by eapply Hm.
  - simplify_eq. by eapply Hm.
Qed.

Lemma stable_for_range {A} (R : relation (state memory)) `{!PreOrder R}
    (l : list A) (body : A → M memory unit) :
  (∀ x, x ∈ l → stable R (body x)) → stable R (for_range l body).
Proof.
  induction l as [|x l IH]; intros Hbody; cbn.
  - apply stable_ret, _.
  - apply stable_bind; [done | apply Hbody, elem_of_cons; by left |].
    intros _. apply IH. intros y Hy. apply Hbody, elem_of_cons. by right.
Qed.

Lemma for_range_app {A} (l1 l2 : list A) (body : A → M memory unit) s :
  for_range (l1 ++ l2) body s = (for_range l1 body ;; for_range l2 body) s.
Proof.
  revert s. induction l1 as [|x l1 IH]; intros s; cbn; [done|].
  unfold bind in *. destruct (body x s) as [[[]|c| |] s1]; [|done..].
  by rewrite IH.
Qed.

Global Instance same_device_preorder d : PreOrder (same_device d).
Proof.
  split; [by intros s|]. intros s1 s2 s3 H12 H23.
  unfold same_device in *. congruence.
Qed.

(** ** Connection state after [connectDevice] and [ConnectAll] *)

Lemma connectDevice_nil_unlocked d (s : state memory) s' dev :
  heap (mem s) !! d = Some dev →
  connectDevice d s = (Ret None, s') →
  mu dev = unlocked.
Proof.
  intros Hd. destruct s as [w t [h m g]]. cbn in Hd.
  unfold connectDevice. run_mem. lookup_again Hd. cbn.
  destruct (lib_NewClient _ _ _) as [[c [e1|]] w1]; cbn; [done|].
  destruct (lib_Connect _ _ _) as [[e2|] w2]; cbn; [done|].
  lookup_again Hd. destruct dev as [? ? ? ? ? ? [[] [|n]]]; cbn; done.
Qed.

Lemma setError_ret d err (s : state memory) s' :
  setError d err s = (Ret tt, s') →
  ∃ dev, heap (mem s) !! d = Some dev ∧ mu dev = unlocked.
Proof.
  destruct (heap (mem s) !! d) as [dev|] eqn:Hd.
  - intros Hr. exists dev. split; [done|].
    destruct s as [w t [h m g]]. cbn in Hd. revert Hr.
    unfold setError. run_mem. lookup_again Hd.
    destruct dev as [? ? ? ? ? ? [[] [|n]]]; cbn; done.
  - by rewrite setError_invalid.
Qed.

(** ** Reading the lock discipline off a trace *)

Lemma set_holds_ext (h1 h2 : ptr → RWMutex) d l :
  (∀ d', h1 d' = h2 d') → ∀ d', set_holds h1 d l d' = set_holds h2 d l d'.
Proof. intros Hext d'. unfold set_holds. by case_decide. Qed.

Lemma unguarded_ext (h1 h2 : ptr → RWMutex) (evs : list event) :
  (∀ d, h1 d = h2 d) → unguarded h1 evs = unguarded h2 evs.
Proof.
  revert h1 h2. induction evs as [|ev evs IH]; intros h1 h2 Hext; [done|].
  destruct ev; cbn; rewrite ?Hext, ?(IH h1 h2 Hext); try done;
    apply IH; by apply set_holds_ext.
Qed.

Lemma holds_after_ext (h1 h2 : ptr → RWMutex) (evs : list event) :
  (∀ d, h1 d = h2 d) → ∀ d, holds_after h1 evs d = holds_after h2 evs d.
Proof.
  revert h1 h2. induction evs as [|ev evs IH]; intros h1 h2 Hext; [done|].
  destruct ev; cbn; rewrite ?Hext; by apply IH; try apply set_holds_ext.
Qed.

Lemma unguarded_app (h : ptr → RWMutex) (evs1 evs2 : list event) :
  unguarded h (evs1 ++ evs2) = unguarded h evs1 ++ unguarded (holds_after h evs1) evs2.
Proof.
  revert h. induction evs1 as [|ev evs1 IH]; intros h; [done|].
  destruct ev; cbn; rewrite ?IH; try done; by repeat case_match.
Qed.

Lemma holds_after_app (h : ptr → RWMutex) (evs1 evs2 : list event) :
  holds_after h (evs1 ++ evs2) = holds_after (holds_after h evs1) evs2.
Proof.
  revert h. induction evs1 as [|ev evs1 IH]; intros h; [done|].
  destruct ev; cbn; by rewrite ?IH.
Qed.

Lemma balanced_app evs1 evs2 : balanced evs1 → balanced evs2 → balanced (evs1 ++ evs2).
Proof.
  intros H1 H2 d. rewrite holds_after_app.
  rewrite (holds_after_ext _ no_locks); [apply H2 | apply H1].
Qed.

Lemma unguarded_balanced_app evs1 evs2 :
  balanced evs1 →
  unguarded no_locks (evs1 ++ evs2) = unguarded no_locks evs1 ++ unguarded no_locks evs2.
Proof.
  intros H1. rewrite unguarded_app. f_equal. apply unguarded_ext, H1.
Qed.

Lemma plain_unguarded h evs :
  Forall (fun ev => plain ev = true) evs → unguarded h evs = [] ∧ ∀ d, holds_after h evs d = h d.
Proof.
  induction 1 as [|ev evs Hev _ IH]; [done|].
  destruct ev; cbn in *; done.
Qed.

(** Peels the first computation off a [bind] whose run is known to
    return. *)
Lemma bind_Ret_inv {A B} (m : M memory A) (k : A → M memory B) s b s' :
  bind m k s = (Ret b, s') → ∃ a s1, m s = (Ret a, s1) ∧ k a s1 = (Ret b, s').
Proof.
  unfold bind. destruct (m s) as [[a|c| |] s1]; intros Hr; simplify_eq. eauto.
Qed.

(** C2.  When [connectDevice] returns nil, the device is connected, holds
    the client that [NewClient] has just returned, and has no error.
    When [ConnectAll] returns and the attempt for a device [d] of its
    list failed with an error [e], then [d] is not connected and its
    [LastError] is [e]. *)
Theorem connection_state_tracked :
  (∀ d (s s' : state memory),
     connectDevice d s = (Ret None, s') →
     ∃ dev dev',
       heap (mem s) !! d = Some dev ∧
       heap (mem s') !! d = Some dev' ∧
       Connected dev' = true ∧
       Client dev' = (lib_NewClient (Endpoint dev) (connectDevice_opts (LocalAddr dev))
                        (world s)).1.1 ∧
       LastError dev' = None) ∧
  (∀ (s : state memory) pre d post s1 e s2 r s',
     devices (mgr (mem s)) = pre ++ d :: post →
     d ∉ post →
     for_range pre ConnectAll_body s = (Ret tt, s1) →
     connectDevice d s1 = (Ret (Some e), s2) →
     ConnectAll s = (Ret r, s') →
     ∃ dev',
       heap (mem s') !! d = Some dev' ∧
       Connected dev' = false ∧
       LastError dev' = Some e).
Proof.
  split.
  - intros d s s' Hrun.
    destruct (heap (mem s) !! d) as [dev|] eqn:Hd;
      [|by rewrite connectDevice_invalid in Hrun].
    assert (Hmu := connectDevice_nil_unlocked _ _ _ _ Hd Hrun).
    rewrite (connectDevice_run _ _ _ Hd Hmu) in Hrun. cbn zeta in Hrun.
    destruct (lib_NewClient _ _ _).1.2; [by simplify_eq|].
    destruct (lib_Connect _ _ _).1; simplify_eq.
    eexists dev, _. split; [done|]. cbn.
    rewrite list_lookup_insert_eq by exact (lookup_lt_Some _ _ _ Hd). done.
  - intros s pre d post s1 e s2 r s' Hdevs Hpost Hpre Hconn Hall.
    unfold ConnectAll in Hall.
    apply bind_Ret_inv in Hall as (m & s0 & Hm & Hall).
    unfold get_mgr, get_mem, bind, ret in Hm. simplify_eq.
    apply bind_Ret_inv in Hall as ([] & s4 & Hloop & Hret).
    unfold ret in Hret. simplify_eq.
    rewrite Hdevs, for_range_app in Hloop.
    apply bind_Ret_inv in Hloop as ([] & s1' & Hpre' & Hloop).
    rewrite Hpre in Hpre'. simplify_eq. cbn in Hloop.
    apply bind_Ret_inv in Hloop as ([] & s3 & Hbody & Hrest).
    unfold ConnectAll_body in Hbody.
    apply bind_Ret_inv in Hbody as (err & sa & Hconn' & Hbody).
    rewrite Hconn in Hconn'. simplify_eq.
    apply bind_Ret_inv in Hbody as (dev & sb & _ & Hbody).
    apply bind_Ret_inv in Hbody as ([] & s2'' & _ & Hset).
    destruct (setError_ret _ _ _ _ Hset) as (dev2 & Hd2 & Hmu2).
    rewrite (setError_run _ _ _ _ Hd2 Hmu2) in Hset. simplify_eq.
    assert (Hframe : same_device d
      {| world := world s2'';
         trace := trace s2'' ++
           [EvLock d; EvStore d FConnected; EvStore d FLastError; EvUnlock d];
         mem := set_heap
           (<[d := set_LastError (Some e) (set_Connected false dev2)]> (heap (mem s2'')))
           (mem s2'') |} s').
    { eapply (stable_for_range (same_device d)); [|exact Hrest].
      intros d' Hd' s5 r5 s6 Hb. eapply ConnectAll_body_frame; [|exact Hb].
      intros ->. done. }
    unfold same_device in Hframe. cbn in Hframe.
    rewrite list_lookup_insert_eq in Hframe by exact (lookup_lt_Some _ _ _ Hd2).
    eexists. split; [exact Hframe|]. done.
Qed.

(** ** [ConnectAll] on a heap with no lock held *)

Ltac scan_locks :=
  repeat (cbn [unguarded holds_after app]; unfold set_holds;
          rewrite ?decide_True by reflexivity;
          cbn [writer readers orb negb Nat.eqb no_locks unlocked]).

Ltac solve_balanced :=
  let d' := fresh "d'" in
  intros d'; cbn [holds_after app]; unfold set_holds, no_locks;
  repeat case_decide; reflexivity.

Lemma ConnectAll_body_ok d (s : state memory) dev :
  heap (mem s) !! d = Some dev →
  mu dev = unlocked →
  ∃ dev' evs w',
    ConnectAll_body d s =
      (Ret tt, {| world := w'; trace := trace s ++ evs;
                  mem := set_heap (<[d := dev']> (heap (mem s))) (mem s) |}) ∧
    (Name dev' = Name dev ∧ Endpoint dev' = Endpoint dev ∧
     LocalAddr dev' = LocalAddr dev ∧ mu dev' = unlocked) ∧
    new_clients evs = [(Endpoint dev, connectDevice_opts (LocalAddr dev))] ∧
    attempt_recorded dev' evs ∧
    (NewClient_contract → Connected dev' = true → is_Some (Client dev')) ∧
    unguarded no_locks evs = [] ∧
    balanced evs.
Proof.
  intros Hd Hmu. unfold ConnectAll_body. unfold bind.
  rewrite (connectDevice_run _ _ _ Hd Hmu). cbn zeta.
  destruct (lib_NewClient _ _ _) as [[c [e1|]] w1] eqn:Hnew; cbn.
  { unfold deref, bind, get_mem, ret, log_Printf, emit. cbn. rewrite Hd.
    erewrite setError_run by done. cbn.
    eexists _, _, _. rewrite <- !app_assoc. split; [reflexivity|].
    split; [done|]. split; [done|]. split; [|split; [done|split]].
    - right. split; [done|]. eexists. split; [done|]. in_list.
    - by scan_locks.
    - solve_balanced. }
  destruct (lib_Connect _ _ _) as [[e2|] w2]; cbn.
  { unfold deref, bind, get_mem, ret, log_Printf, emit. cbn. rewrite Hd.
    erewrite setError_run by done. cbn.
    eexists _, _, _. rewrite <- !app_assoc. split; [reflexivity|].
    split; [done|]. split; [done|]. split; [|split; [done|split]].
    - right. split; [done|]. eexists. split; [done|]. in_list.
    - by scan_locks.
    - solve_balanced. }
  unfold ret. eexists _, _, _. split; [reflexivity|].
  split; [done|]. split; [done|]. split; [|split; [|split]].
  - left. done.
  - intros Hc _. cbn. by eapply Hc.
  - by scan_locks.
  - solve_balanced.
Qed.

Lemma LockInv_insert (u : memory) d dev' :
  LockInv u → mu dev' = unlocked → LockInv (set_heap (<[d := dev']> (heap u)) u).
Proof.
  intros Hinv Hmu d0 dev0. cbn. destruct (decide (d0 = d)) as [->|Hne].
  - intros Hl. apply list_lookup_insert_Some in Hl as [(_ & <- & _)|(? & _)]; done.
  - rewrite list_lookup_insert_ne by done. apply Hinv.
Qed.

Lemma attempt_recorded_later dev evs1 evs2 :
  attempt_recorded dev evs2 → attempt_recorded dev (evs1 ++ evs2).
Proof.
  intros [H|(Hc & err & He & Hin)]; [by left|right].
  split; [done|]. exists err. split; [done|]. apply elem_of_app. by right.
Qed.

Lemma attempt_recorded_earlier dev evs1 evs2 :
  attempt_recorded dev evs1 → attempt_recorded dev (evs1 ++ evs2).
Proof.
  intros [H|(Hc & err & He & Hin)]; [by left|right].
  split; [done|]. exists err. split; [done|]. apply elem_of_app. by left.
Qed.

Lemma new_clients_app evs1 evs2 :
  new_clients (evs1 ++ evs2) = new_clients evs1 ++ new_clients evs2.
Proof. apply omap_app. Qed.

Lemma ConnectAll_loop (ds : list ptr) (s : state memory) :
  LockInv (mem s) →
  NoDup ds →
  (∀ d, d ∈ ds → is_Some (heap (mem s) !! d)) →
  ∃ s' evs,
    for_range ds ConnectAll_body s = (Ret tt, s') ∧
    trace s' = trace s ++ evs ∧
    mgr (mem s') = mgr (mem s) ∧
    goroutines (mem s') = goroutines (mem s) ∧
    LockInv (mem s') ∧
    (∀ d, d ∉ ds → heap (mem s') !! d = heap (mem s) !! d) ∧
    Forall2 (fun d nc => ∃ dev, heap (mem s) !! d = Some dev ∧
                                nc = (Endpoint dev, connectDevice_opts (LocalAddr dev)))
            ds (new_clients evs) ∧
    (∀ d, d ∈ ds → ∃ dev dev',
        heap (mem s) !! d = Some dev ∧ heap (mem s') !! d = Some dev' ∧
        Name dev' = Name dev ∧ Endpoint dev' = Endpoint dev ∧
        LocalAddr dev' = LocalAddr dev ∧ attempt_recorded dev' evs) ∧
    (NewClient_contract → ConnInv (mem s) → ConnInv (mem s')) ∧
    unguarded no_locks evs = [] ∧
    balanced evs.
Proof.
  revert s. induction ds as [|d ds IH]; intros s Hlock Hnd Hvalid.
  { exists s, []. cbn. unfold ret. rewrite app_nil_r.
    split_and!; try done. intros d Hd. by apply elem_of_nil in Hd. }
  apply NoDup_cons in Hnd as [Hd_ds Hnd].
  destruct (Hvalid d) as [dev Hd]; [apply elem_of_cons; by left|].
  destruct (ConnectAll_body_ok d s dev Hd (Hlock _ _ Hd))
    as (dev' & evs1 & w' & Hbody & (Hn & He & Hl & Hmu') & Hnc & Hrec & Hcl & Hug & Hbal).
  set (s1 := {| world := w'; trace := trace s ++ evs1;
                mem := set_heap (<[d := dev']> (heap (mem s))) (mem s) |}) in *.
  assert (Hlock1 : LockInv (mem s1)) by (by apply LockInv_insert).
  assert (Hother : ∀ d0, d0 ≠ d → heap (mem s1) !! d0 = heap (mem s) !! d0).
  { intros d0 Hne. cbn. by rewrite list_lookup_insert_ne. }
  assert (Hd1 : heap (mem s1) !! d = Some dev').
  { cbn. apply list_lookup_insert_eq. exact (lookup_lt_Some _ _ _ Hd). }
  destruct (IH s1 Hlock1 Hnd) as
    (s' & evs2 & Hloop & Htr & Hmgr & Hgo & Hlock' & Hframe & Hncs & Hrecs & Hconn & Hug2 & Hbal2).
  { intros d0 Hd0. rewrite Hother; [|intros ->; done].
    apply Hvalid, elem_of_cons. by right. }
  exists s', (evs1 ++ evs2). cbn [for_range]. unfold bind. rewrite Hbody, Hloop.
  split; [done|]. split; [by rewrite Htr, app_assoc|].
  split; [by rewrite Hmgr|]. split; [by rewrite Hgo|]. split; [done|].
  split; [|split; [|split; [|split; [|split]]]].
  - intros d0 Hd0. apply not_elem_of_cons in Hd0 as [Hne Hd0].
    rewrite Hframe by done. by apply Hother.
  - rewrite new_clients_app, Hnc. constructor; [by eauto|].
    eapply Forall2_impl; [exact Hncs|]. intros d0 nc (dev0 & Hd0 & ->).
    destruct (decide (d0 = d)) as [->|Hne].
    + rewrite Hd1 in Hd0. simplify_eq. exists dev. by rewrite <- He, <- Hl.
    + rewrite Hother in Hd0 by done. eauto.
  - intros d0 Hd0. apply elem_of_cons in Hd0 as [->|Hd0].
    + exists dev, dev'. rewrite Hframe by done.
      split_and!; try done. by apply attempt_recorded_earlier.
    + destruct (Hrecs d0 Hd0) as (dev0 & dev0' & H0 & H0' & Hn0 & He0 & Hl0 & Hrec0).
      rewrite Hother in H0 by (intros ->; done).
      exists dev0, dev0'. split_and!; try done. by apply attempt_recorded_later.
  - intros Hc Hinv. apply Hconn; [done|]. intros d0 dev0. cbn.
    destruct (decide (d0 = d)) as [->|Hne].
    + intros Hl0. apply list_lookup_insert_Some in Hl0 as [(_ & <- & _)|(? & _)]; [|done].
      intros Hcon. split; [by apply Hcl|].
      destruct Hrec as [[_ ?]|[Hf _]]; [done|congruence].
    + rewrite list_lookup_insert_ne by done. apply Hinv.
  - rewrite unguarded_balanced_app by done. by rewrite Hug, Hug2.
  - by apply balanced_app.
Qed.

Lemma AddDevice_run name endpoint localAddr (s : state memory) :
  AddDevice name endpoint localAddr s =
  (Ret tt,
   {| world := world s; trace := trace s;
      mem := {| heap := heap (mem s) ++ [new_DeviceConnection name endpoint localAddr];
                mgr := {| devices := devices (mgr (mem s)) ++ [length (heap (mem s))];
                          ctx_done := ctx_done (mgr (mem s));
                          wg := wg (mgr (mem s)) |};
                goroutines := goroutines (mem s) |} |}).
Proof. destruct s as [w t [h m g]]. reflexivity. Qed.

Lemma register_run (devs : list (string * string * string)) (s : state memory) :
  register devs s =
  (Ret tt,
   {| world := world s; trace := trace s;
      mem := {| heap := heap (mem s) ++
                  map (fun '(name, endpoint, localAddr) =>
                         new_DeviceConnection name endpoint localAddr) devs;
                mgr := {| devices := devices (mgr (mem s)) ++
                            seq (length (heap (mem s))) (length devs);
                          ctx_done := ctx_done (mgr (mem s));
                          wg := wg (mgr (mem s)) |};
                goroutines := goroutines (mem s) |} |}).
Proof.
  revert s. induction devs as [|[[name endpoint] localAddr] devs IH]; intros s.
  - destruct s as [w t [h [ds c n] g]]. cbn. unfold ret. by rewrite !app_nil_r.
  - unfold register in *. cbn [for_range]. unfold bind.
    rewrite AddDevice_run, IH. cbn.
    rewrite length_app, <- !app_assoc. cbn.
    by replace (length (heap (mem s)) + 1)%nat with (S (length (heap (mem s)))) by lia.
Qed.

(** ** The attempts of [ConnectAll], one device at a time *)

(** The body of the loop on a device whose mutex is free: after the
    attempt, a failure is logged and recorded with [setError]. *)
Lemma ConnectAll_body_run d (s : state memory) dev :
  heap (mem s) !! d = Some dev →
  mu dev = unlocked →
  ∃ sb,
    connectDevice d s = (Ret (attempt_result dev (world s)), sb) ∧
    match attempt_result dev (world s) with
    | None =>
      ConnectAll_body d s = (Ret tt, sb) ∧
      heap (mem sb) =
        <[d := set_LastError None (set_Connected true
                 (set_Client (lib_NewClient (Endpoint dev)
                                (connectDevice_opts (LocalAddr dev)) (world s)).1.1 dev))]>
          (heap (mem s))
    | Some e =>
      mem sb = mem s ∧
      ConnectAll_body d s =
      (Ret tt,
       {| world := world sb;
          trace := trace sb ++
            [EvLogPrintf "连接设备 %s 失败: %v" [ArgString (Name dev); ArgError e];
             EvLock d; EvStore d FConnected; EvStore d FLastError; EvUnlock d];
          mem := set_heap (<[d := set_LastError (Some e) (set_Connected false dev)]>
                             (heap (mem s))) (mem s) |})
    end.
Proof.
  intros Hd Hmu. pose proof (connectDevice_run _ _ _ Hd Hmu) as Hc.
  cbn zeta in Hc. unfold attempt_result, ConnectAll_body.
  destruct (lib_NewClient _ _ _) as [[c [e1|]] w1]; cbn in *.
  { eexists. split; [exact Hc|]. split; [done|].
    erewrite bind_run; [|exact Hc]. cbn beta iota.
    erewrite bind_run; [|unfold deref, bind, get_mem, ret; cbn; by rewrite Hd].
    erewrite bind_run; [|reflexivity].
    erewrite setError_run by done. cbn. by rewrite <- !app_assoc. }
  destruct (lib_Connect _ _ _) as [[e2|] w2]; cbn in *.
  { eexists. split; [exact Hc|]. split; [done|].
    erewrite bind_run; [|exact Hc]. cbn beta iota.
    erewrite bind_run; [|unfold deref, bind, get_mem, ret; cbn; by rewrite Hd].
    erewrite bind_run; [|reflexivity].
    erewrite setError_run by done. cbn. by rewrite <- !app_assoc. }
  eexists. split; [exact Hc|]. split; [|done].
  erewrite bind_run; [|exact Hc]. done.
Qed.

Lemma LockInv_heap_insert (u u' : memory) d dev' :
  LockInv u → mu dev' = unlocked → heap u' = <[d := dev']> (heap u) → LockInv u'.
Proof.
  intros Hinv Hmu Hheap d0 dev0. rewrite Hheap. destruct (decide (d0 = d)) as [->|Hne].
  - intros Hl. apply list_lookup_insert_Some in Hl as [(_ & <- & _)|(? & _)]; done.
  - rewrite list_lookup_insert_ne by done. apply Hinv.
Qed.

(** The attempt for one device of the list: [ConnectAll] has made the
    attempts for the devices before it, whatever their outcome; the
    outcome of this one decides how the device is left, which the
    attempts for the devices after it do not change. *)
Lemma ConnectAll_attempt (pre : list ptr) d (post : list ptr) (s : state memory) :
  LockInv (mem s) →
  NoDup (pre ++ d :: post) →
  (∀ d', d' ∈ pre ++ d :: post → is_Some (heap (mem s) !! d')) →
  ∃ sa sb s' dev dev' evs,
    for_range pre ConnectAll_body s = (Ret tt, sa) ∧
    heap (mem s) !! d = Some dev ∧
    heap (mem sa) !! d = Some dev ∧
    connectDevice d sa = (Ret (attempt_result dev (world sa)), sb) ∧
    for_range (pre ++ d :: post) ConnectAll_body s = (Ret tt, s') ∧
    heap (mem s') !! d = Some dev' ∧
    trace s' = trace sb ++ evs ∧
    match attempt_result dev (world sa) with
    | None =>
      dev' = set_LastError None (set_Connected true
               (set_Client (lib_NewClient (Endpoint dev)
                              (connectDevice_opts (LocalAddr dev)) (world sa)).1.1 dev))
    | Some e =>
      dev' = set_LastError (Some e) (set_Connected false dev) ∧
      ∃ rest,
        evs = [EvLogPrintf "连接设备 %s 失败: %v" [ArgString (Name dev); ArgError e];
               EvLock d; EvStore d FConnected; EvStore d FLastError; EvUnlock d] ++ rest
    end.
Proof.
  intros Hlock Hnd Hvalid.
  apply NoDup_app in Hnd as (Hnd1 & Hdisj & Hnd2).
  apply NoDup_cons in Hnd2 as [Hd_post Hnd2].
  assert (Hd_pre : d ∉ pre).
  { intros Hin. apply (Hdisj d Hin). apply elem_of_cons. by left. }
  destruct (ConnectAll_loop pre s Hlock Hnd1)
    as (sa & evs1 & Hpre & _ & _ & _ & Hlocka & Hframe1 & _ & Hkept & _).
  { intros d' Hd'. apply Hvalid, elem_of_app. by left. }
  destruct (Hvalid d) as [dev Hd]; [apply elem_of_app; right; apply elem_of_cons; by left|].
  assert (Hda : heap (mem sa) !! d = Some dev) by (by rewrite Hframe1).
  destruct (ConnectAll_body_run d sa dev Hda (Hlocka _ _ Hda)) as (sb & Hconn & Hbody).
  assert (∃ s1 dev' evs0,
    ConnectAll_body d sa = (Ret tt, s1) ∧ LockInv (mem s1) ∧
    heap (mem s1) = <[d := dev']> (heap (mem sa)) ∧
    trace s1 = trace sb ++ evs0 ∧
    match attempt_result dev (world sa) with
    | None =>
      dev' = set_LastError None (set_Connected true
               (set_Client (lib_NewClient (Endpoint dev)
                              (connectDevice_opts (LocalAddr dev)) (world sa)).1.1 dev))
    | Some e =>
      dev' = set_LastError (Some e) (set_Connected false dev) ∧
      evs0 = [EvLogPrintf "连接设备 %s 失败: %v" [ArgString (Name dev); ArgError e];
              EvLock d; EvStore d FConnected; EvStore d FLastError; EvUnlock d]
    end) as (s1 & dev' & evs0 & Hbody1 & Hlock1 & Hheap1 & Ht1 & Hout).
  { pose proof (Hlocka _ _ Hda) as Hmu.
    destruct (attempt_result dev (world sa)) as [e|].
    - destruct Hbody as [Hmem Hbody]. eexists _, _, _. split; [exact Hbody|].
      split; [|cbn; done].
      by apply (LockInv_heap_insert (mem sa) _ d
                  (set_LastError (Some e) (set_Connected false dev))).
    - destruct Hbody as [Hbody Hheap]. eexists sb, _, []. split; [exact Hbody|].
      split; [by eapply (LockInv_heap_insert (mem sa)); [| |exact Hheap]|].
      split; [exact Hheap|]. by rewrite app_nil_r. }
  assert (Hd1 : heap (mem s1) !! d = Some dev').
  { rewrite Hheap1. apply list_lookup_insert_eq. exact (lookup_lt_Some _ _ _ Hda). }
  destruct (ConnectAll_loop post s1 Hlock1 Hnd2)
    as (s' & evs2 & Hpost & Ht2 & _ & _ & _ & Hframe2 & _).
  { intros d' Hd'. destruct (decide (d' = d)) as [->|Hne]; [by eexists|].
    rewrite Hheap1, list_lookup_insert_ne by done.
    assert (d' ∉ pre) as Hd'pre.
    { intros Hin. apply (Hdisj d' Hin). apply elem_of_cons. by right. }
    rewrite Hframe1 by done. apply Hvalid, elem_of_app. right. apply elem_of_cons. by right. }
  exists sa, sb, s', dev, dev', (evs0 ++ evs2).
  split; [done|]. split; [done|]. split; [done|]. split; [done|]. split.
  { rewrite for_range_app. erewrite bind_run; [|exact Hpre]. cbn [for_range].
    erewrite bind_run; [|exact Hbody1]. exact Hpost. }
  split; [by rewrite Hframe2|]. split; [by rewrite Ht2, Ht1, app_assoc|].
  destruct (attempt_result dev (world sa)) as [e|]; [|done].
  destruct Hout as [-> ->]. split; [done|]. by exists evs2.
Qed.

(** C9.  Whatever devices have been registered and whatever the outside
    answers, [ConnectAll] returns nil.  It creates one client per device,
    in the order in which the devices were added, with the endpoint and
    the local address of the device.  The attempt for a device is made
    after the attempts for the devices added before it, whatever their
    outcome.  When it fails, the error it returned is logged with the
    name of the device right after the attempt, and [ConnectAll] leaves
    the device not connected with that error in [LastError]; when it
    succeeds, [ConnectAll] leaves the device connected without error. *)
Theorem ConnectAll_returns_nil (devs : list (string * string * string)) (w : World) :
  let s0 := {| world := w; trace := [];
               mem := {| heap := []; mgr := NewMultiInterfaceManager;
                         goroutines := [] |} |} in
  ∃ s1 s2 evs,
    register devs s0 = (Ret tt, s1) ∧
    ConnectAll s1 = (Ret None, s2) ∧
    trace s2 = trace s1 ++ evs ∧
    new_clients evs =
      map (fun '(name, endpoint, localAddr) => (endpoint, connectDevice_opts localAddr)) devs ∧
    ∀ i name endpoint localAddr,
      devs !! i = Some (name, endpoint, localAddr) →
      ∃ sa r sb dev,
        for_range (seq 0 i) ConnectAll_body s1 = (Ret tt, sa) ∧
        connectDevice i sa = (Ret r, sb) ∧
        heap (mem s2) !! i = Some dev ∧
        Name dev = name ∧
        match r with
        | None => Connected dev = true ∧ LastError dev = None
        | Some e =>
          Connected dev = false ∧ LastError dev = Some e ∧
          ∃ rest,
            trace s2 = trace sb ++
              EvLogPrintf "连接设备 %s 失败: %v" [ArgString name; ArgError e] :: rest
        end.
Proof.
  intros s0. pose proof (register_run devs s0) as Hreg.
  match type of Hreg with _ = (_, ?x) => set (s1 := x) in * end.
  assert (Hheap : heap (mem s1) =
    map (fun '(name, endpoint, localAddr) =>
           new_DeviceConnection name endpoint localAddr) devs) by done.
  assert (Hlock : LockInv (mem s1)).
  { intros d dev. rewrite Hheap, list_lookup_fmap.
    destruct (devs !! d) as [[[? ?] ?]|]; cbn; [|done]. by intros [= <-]. }
  assert (Hvalid : ∀ d, d ∈ seq 0 (length devs) → is_Some (heap (mem s1) !! d)).
  { intros d Hd. apply elem_of_seq in Hd. apply lookup_lt_is_Some.
    rewrite Hheap, length_map. lia. }
  destruct (ConnectAll_loop (seq 0 (length devs)) s1 Hlock (NoDup_seq _ _) Hvalid)
    as (s2 & evs & Hloop & Htr & _ & _ & _ & _ & Hncs & _).
  exists s1, s2, evs. split; [done|]. split.
  { unfold ConnectAll, bind, get_mgr, get_mem, ret. cbn. by rewrite Hloop. }
  split; [done|]. split.
  - apply list_eq. intros i. rewrite list_lookup_fmap.
    destruct (devs !! i) as [[[name endpoint] localAddr]|] eqn:Hi; cbn.
    + assert (Hlt : (i < length devs)%nat) by (eapply lookup_lt_Some; exact Hi).
      assert (Hseq : seq 0 (length devs) !! i = Some i) by (by apply lookup_seq_lt).
      destruct (Forall2_lookup_l _ _ _ _ _ Hncs Hseq) as (nc & Hnc & dev & Hdev & ->).
      rewrite Hnc. rewrite Hheap, list_lookup_fmap, Hi in Hdev. cbn in Hdev.
      by simplify_eq.
    + apply lookup_ge_None. apply lookup_ge_None in Hi.
      apply Forall2_length in Hncs. rewrite length_seq in Hncs. lia.
  - intros i name endpoint localAddr Hi.
    assert (Hlt : (i < length devs)%nat) by (eapply lookup_lt_Some; exact Hi).
    assert (Hsplit : seq 0 (length devs) = seq 0 i ++ i :: seq (S i) (length devs - S i)).
    { replace (length devs) with (i + S (length devs - S i))%nat at 1 by lia.
      by rewrite seq_app. }
    assert (Hnd : NoDup (seq 0 i ++ i :: seq (S i) (length devs - S i))).
    { rewrite <- Hsplit. apply NoDup_seq. }
    assert (Hv : ∀ d', d' ∈ seq 0 i ++ i :: seq (S i) (length devs - S i) →
                       is_Some (heap (mem s1) !! d')).
    { intros d'. rewrite <- Hsplit. apply Hvalid. }
    destruct (ConnectAll_attempt (seq 0 i) i (seq (S i) (length devs - S i)) s1 Hlock Hnd Hv)
      as (sa & sb & s2' & dev & dev' & evs' & Hpre & Hd & Hda & Hconn & Hall & Hd' & Ht & Hout).
    unfold ptr in Hall, Hloop. rewrite <- Hsplit, Hloop in Hall. injection Hall as <-.
    rewrite Hheap, list_lookup_fmap, Hi in Hd. cbn in Hd. injection Hd as <-.
    eexists sa, _, sb, dev'. split; [done|]. split; [exact Hconn|]. split; [done|].
    destruct (attempt_result _ _) as [e|].
    + destruct Hout as [-> [rest ->]]. cbn. split_and!; try done.
      exists ([EvLock i; EvStore i FConnected; EvStore i FLastError; EvUnlock i] ++ rest).
      by rewrite Ht.
    + by subst dev'.
Qed.

(** ** Segments keep the invariants *)

Global Instance seg_ok_preorder P Q : PreOrder (seg_ok P Q).
Proof.
  split.
  - intros s Hlock. split_and!; [done|done|done|by intros ? ? ?|].
    exists []. rewrite app_nil_r. split_and!; try done; by constructor.
  - intros s1 s2 s3 H12 H23 Hlock1.
    destruct (H12 Hlock1) as (Hlock2 & Hwg2 & Hconn2 & Hf2 & evs1 & Ht1 & HP1 & HQ1 & Hb1).
    destruct (H23 Hlock2) as (Hlock3 & Hwg3 & Hconn3 & Hf3 & evs2 & Ht2 & HP2 & HQ2 & Hb2).
    split_and!; [done|auto|auto|intros i d Hi; auto|].
    exists (evs1 ++ evs2). split_and!.
    + by rewrite Ht2, Ht1, app_assoc.
    + by apply Forall_app.
    + rewrite unguarded_balanced_app by done. by apply Forall_app.
    + by apply balanced_app.
Qed.

Lemma seg_ok_weaken (P P' Q Q' : event → bool) s s' :
  (∀ ev, P ev = true → P' ev = true) →
  (∀ ev, Q ev = true → Q' ev = true) →
  seg_ok P Q s s' → seg_ok P' Q' s s'.
Proof.
  intros HP HQ Hok Hlock.
  destruct (Hok Hlock) as (Hlock' & Hwg & Hconn & Hfin & evs & Ht & HPs & HQs & Hb).
  split_and!; [done..|]. exists evs. split_and!; [done| | |done].
  - eapply Forall_impl; [exact HPs|]. auto.
  - eapply Forall_impl; [exact HQs|]. auto.
Qed.

Lemma stable_weaken {A} (P P' Q Q' : event → bool) (m : M memory A) :
  (∀ ev, P ev = true → P' ev = true) →
  (∀ ev, Q ev = true → Q' ev = true) →
  stable (seg_ok P Q) m → stable (seg_ok P' Q') m.
Proof. intros HP HQ Hm s r s' Hr. eapply seg_ok_weaken; [done..|]. by eapply Hm. Qed.

(** A state that differs only in its world and in plain events added to
    its trace. *)
Lemma seg_ok_plain (P Q : event → bool) (s : state memory) w evs :
  Forall (fun ev => P ev = true) evs →
  Forall (fun ev => plain ev = true) evs →
  seg_ok P Q s {| world := w; trace := trace s ++ evs; mem := mem s |}.
Proof.
  intros HP Hplain Hlock. split_and!; [done|done|done|by intros ? ? ?|].
  destruct (plain_unguarded no_locks evs Hplain) as [Hug Hh].
  exists evs. split_and!; [done|done| |done]. rewrite Hug. constructor.
Qed.

Lemma stable_emit (P Q : event → bool) ev :
  P ev = true → plain ev = true → stable (seg_ok P Q) (emit ev).
Proof.
  intros HP Hpl s r s' [= <- <-]. apply seg_ok_plain; by repeat constructor.
Qed.

Lemma stable_call {A} (P Q : event → bool) ev (f : World → A * World) :
  P ev = true → plain ev = true → stable (seg_ok P Q) (call ev f).
Proof.
  intros HP Hpl s r s'. unfold call. destruct (f (world s)) as [a w].
  intros [= <- <-]. apply seg_ok_plain; by repeat constructor.
Qed.

Lemma stable_deref (R : relation (state memory)) `{!Reflexive R} d :
  stable R (deref d).
Proof.
  intros s r s'. unfold deref, bind, get_mem, ret, panic.
  destruct (heap (mem s) !! d); intros [= <- <-]; reflexivity.
Qed.

Lemma stable_get_mgr (R : relation (state memory)) `{!Reflexive R} :
  stable R get_mgr.
Proof. intros s r s' [= <- <-]. reflexivity. Qed.

Lemma stable_get_mem (R : relation (state memory)) `{!Reflexive R} :
  stable R get_mem.
Proof. intros s r s' [= <- <-]. reflexivity. Qed.

Lemma stable_block {A} (R : relation (state memory)) `{!Reflexive R} :
  stable R (block (A := A)).
Proof. intros s r s' [= <- <-]. reflexivity. Qed.

Lemma stable_panic {A} (R : relation (state memory)) `{!Reflexive R} :
  stable R (panic (A := A)).
Proof. intros s r s' [= <- <-]. reflexivity. Qed.

(** A state whose heap changed at [d] only, to a device that is not
    locked and, if it reports connected, has a client and no error. *)
Lemma seg_ok_insert (P Q : event → bool) (s : state memory) w evs d dev' :
  mu dev' = unlocked →
  (NewClient_contract → Connected dev' = true →
     is_Some (Client dev') ∧ LastError dev' = None) →
  Forall (fun ev => P ev = true) evs →
  Forall (fun ev => Q ev = true) (unguarded no_locks evs) →
  balanced evs →
  seg_ok P Q s {| world := w; trace := trace s ++ evs;
                  mem := set_heap (<[d := dev']> (heap (mem s))) (mem s) |}.
Proof.
  intros Hmu Hconn HP HQ Hb Hlock. split_and!.
  - by apply LockInv_insert.
  - done.
  - intros Hc Hinv d0 dev0. cbn. destruct (decide (d0 = d)) as [->|Hne].
    + intros Hl0. apply list_lookup_insert_Some in Hl0 as [(_ & <- & _)|(? & _)]; [|done].
      by apply Hconn.
    + rewrite list_lookup_insert_ne by done. apply Hinv.
  - by intros ? ? ?.
  - by exists evs.
Qed.

Ltac all_events :=
  repeat first [apply Forall_nil_2 | apply Forall_cons_2; [reflexivity|]].

Lemma stable_connectDevice d :
  stable (seg_ok any_event no_event) (connectDevice d).
Proof.
  intros s r s' Hrun Hlock.
  destruct (heap (mem s) !! d) as [dev|] eqn:Hd;
    [|rewrite connectDevice_invalid in Hrun by done; simplify_eq;
      by apply (reflexivity (R := seg_ok _ _))].
  rewrite (connectDevice_run _ _ _ Hd (Hlock _ _ Hd)) in Hrun. cbn zeta in Hrun.
  destruct (lib_NewClient _ _ _) as [[c [e1|]] w1] eqn:Hnew; cbn in Hrun.
  { simplify_eq. apply seg_ok_plain; [all_events..|done]. }
  destruct (lib_Connect _ _ _) as [[e2|] w2]; cbn in Hrun; simplify_eq.
  { apply seg_ok_plain; [all_events..|done]. }
  apply seg_ok_insert; [exact (Hlock _ _ Hd)| |all_events| |solve_balanced|done].
  - intros Hc _. split; [|done]. by eapply Hc.
  - scan_locks. constructor.
Qed.

Lemma stable_setError d err :
  stable (seg_ok any_event no_event) (setError d err).
Proof.
  intros s r s' Hrun Hlock.
  destruct (heap (mem s) !! d) as [dev|] eqn:Hd;
    [|rewrite setError_invalid in Hrun by done; simplify_eq;
      by apply (reflexivity (R := seg_ok _ _))].
  rewrite (setError_run _ _ _ _ Hd (Hlock _ _ Hd)) in Hrun. simplify_eq.
  apply seg_ok_insert; [exact (Hlock _ _ Hd)|done|all_events| |solve_balanced|done].
  scan_locks. constructor.
Qed.

Lemma stable_IsConnected d :
  stable (seg_ok monitor_event no_event) (IsConnected d).
Proof.
  intros s r s' Hrun Hlock.
  destruct (heap (mem s) !! d) as [dev|] eqn:Hd;
    [|rewrite IsConnected_invalid in Hrun by done; simplify_eq;
      by apply (reflexivity (R := seg_ok _ _))].
  rewrite (IsConnected_run _ _ _ Hd (Hlock _ _ Hd)) in Hrun. simplify_eq.
  split_and!; [done|done|done|by intros ? ? ?|].
  eexists. split_and!; [done|all_events| |solve_balanced].
  scan_locks. constructor.
Qed.

Lemma stable_GetClient d :
  stable (seg_ok monitor_event no_event) (GetClient d).
Proof.
  intros s r s' Hrun Hlock.
  destruct (heap (mem s) !! d) as [dev|] eqn:Hd;
    [|rewrite GetClient_invalid in Hrun by done; simplify_eq;
      by apply (reflexivity (R := seg_ok _ _))].
  rewrite (GetClient_run _ _ _ Hd (Hlock _ _ Hd)) in Hrun. simplify_eq.
  split_and!; [done|done|done|by intros ? ? ?|].
  eexists. split_and!; [done|all_events| |solve_balanced].
  scan_locks. constructor.
Qed.

Lemma stable_healthCheck client name :
  stable (seg_ok monitor_event no_event) (healthCheck client name).
Proof.
  unfold healthCheck, Client_Read, fmt_Printf. cbn zeta.
  apply stable_bind; [apply _| |].
  { apply stable_bind; [apply _|by apply stable_call|].
    intros [resp err]. apply stable_ret, _. }
  intros [resp [e|]]; [apply stable_ret, _|].
  case_match; [apply stable_ret, _|].
  apply stable_bind; [apply _|by apply stable_emit|]. intros _. apply stable_ret, _.
Qed.

Lemma stable_monitorDevice_health d client :
  stable (seg_ok monitor_event no_event) (monitorDevice_health d client).
Proof.
  unfold monitorDevice_health, log_Printf.
  apply stable_bind; [apply _|apply stable_deref, _|]. intros dev.
  apply stable_bind; [apply _|apply stable_healthCheck|].
  intros [e|]; [by apply stable_emit|apply stable_ret, _].
Qed.

Lemma stable_monitorDevice_tick d :
  stable (seg_ok monitor_event no_event) (monitorDevice_tick d).
Proof.
  unfold monitorDevice_tick.
  apply stable_bind; [apply _|apply stable_IsConnected|].
  intros connected. destruct connected; cbn; [|apply stable_ret, _].
  apply stable_bind; [apply _|apply stable_GetClient|].
  intros [c|]; [|apply stable_ret, _].
  apply stable_monitorDevice_health.
Qed.

Lemma stable_ConnectAll_body d :
  stable (seg_ok any_event no_event) (ConnectAll_body d).
Proof.
  unfold ConnectAll_body, log_Printf.
  apply stable_bind; [apply _|apply stable_connectDevice|].
  intros [e|]; [|apply stable_ret, _].
  apply stable_bind; [apply _|apply stable_deref, _|]. intros dev.
  apply stable_bind; [apply _|by apply stable_emit|]. intros _.
  apply stable_setError.
Qed.

Lemma stable_ConnectAll :
  stable (seg_ok any_event no_event) ConnectAll.
Proof.
  unfold ConnectAll.
  apply stable_bind; [apply _|apply stable_get_mgr, _|]. intros m.
  apply stable_bind; [apply _| |intros _; apply stable_ret, _].
  apply stable_for_range; [apply _|]. intros d _. apply stable_ConnectAll_body.
Qed.

Lemma stable_AddDevice name endpoint localAddr :
  stable (seg_ok any_event no_event) (AddDevice name endpoint localAddr).
Proof.
  intros s r s'. rewrite AddDevice_run. intros [= <- <-] Hlock. split_and!.
  - intros d dev. cbn. intros Hl. apply lookup_app_Some in Hl as [Hl|[_ Hl]].
    + by eapply Hlock.
    + apply list_lookup_singleton_Some in Hl as [_ <-]. done.
  - done.
  - intros _ Hinv d dev. cbn. intros Hl. apply lookup_app_Some in Hl as [Hl|[_ Hl]].
    + by eapply Hinv.
    + apply list_lookup_singleton_Some in Hl as [_ <-]. done.
  - by intros ? ? ?.
  - exists []. cbn. rewrite app_nil_r. split_and!; try done; constructor.
Qed.

(** A state with the same heap. *)
Lemma seg_ok_same_heap (P Q : event → bool) (s s' : state memory) evs :
  heap (mem s') = heap (mem s) →
  (WgInv (mem s) → WgInv (mem s')) →
  finished_stay (mem s) (mem s') →
  trace s' = trace s ++ evs →
  Forall (fun ev => P ev = true) evs →
  Forall (fun ev => Q ev = true) (unguarded no_locks evs) →
  balanced evs →
  seg_ok P Q s s'.
Proof.
  intros Hheap Hwg Hfin Ht HP HQ Hb Hlock. split_and!.
  - intros d dev. rewrite Hheap. apply Hlock.
  - done.
  - intros _ Hinv d dev. rewrite Hheap. apply Hinv.
  - done.
  - by exists evs.
Qed.

Lemma running_app g1 g2 : running (g1 ++ g2) = running g1 + running g2.
Proof.
  induction g1 as [|[d st] g1 IH]; cbn; [done|]. rewrite IH. lia.
Qed.

Lemma running_insert g i d st st' :
  g !! i = Some (d, st) →
  running (<[i := (d, st')]> g) =
  running g - (if is_running st then 1 else 0) + (if is_running st' then 1 else 0).
Proof.
  revert i. induction g as [|[d0 st0] g IH]; intros [|i] Hi; simplify_eq/=.
  - lia.
  - rewrite (IH _ Hi). lia.
Qed.

Lemma running_nonneg g : 0 ≤ running g.
Proof. induction g as [|[d st] g IH]; cbn; [done|]. destruct (is_running st); lia. Qed.

Lemma running_zero g i d st :
  running g = 0 → g !! i = Some (d, st) → st = Finished.
Proof.
  revert i. induction g as [|[d0 st0] g IH]; intros [|i] Hz Hi; simplify_eq/=.
  - pose proof (running_nonneg g). destruct st; cbn in Hz; try lia. done.
  - pose proof (running_nonneg g). eapply IH; [|done].
    destruct (is_running st0); lia.
Qed.

Lemma stable_spawn d :
  stable (seg_ok any_event no_event) (wg_Add 1 ;; go_monitorDevice d).
Proof.
  intros [w t [h [ds c n] g]] r s'. run_mem.
  destruct (n + 1 <? 0); intros [= <- <-]; [by apply (reflexivity (R := seg_ok _ _))|].
  eapply (seg_ok_same_heap _ _ _ _ [EvWgAdd 1; EvGo d]); cbn.
  - done.
  - unfold WgInv. cbn. intros ->. rewrite running_app. cbn. lia.
  - intros i d0 Hi. cbn in *. by apply lookup_app_l_Some.
  - by rewrite <- app_assoc.
  - all_events.
  - constructor.
  - solve_balanced.
Qed.

Lemma stable_StartMonitoring :
  stable (seg_ok any_event no_event) StartMonitoring.
Proof.
  unfold StartMonitoring.
  apply stable_bind; [apply _|apply stable_get_mgr, _|]. intros m.
  apply stable_for_range; [apply _|]. intros d _. apply stable_spawn.
Qed.

Lemma stable_cancel :
  stable (seg_ok any_event no_event) cancel.
Proof.
  intros [w t [h [ds c n] g]] r s'. run_mem. intros [= <- <-].
  eapply (seg_ok_same_heap _ _ _ _ [EvCancel]); cbn; try done;
    first [by intros ? ? ? | all_events].
Qed.

Lemma stable_load_Client d :
  stable (seg_ok any_event client_load) (load_Client d).
Proof.
  intros [w t [h m g]] r s'. run_mem.
  destruct (h !! d); intros [= <- <-]; [|by apply (reflexivity (R := seg_ok _ _))].
  eapply (seg_ok_same_heap _ _ _ _ [EvLoad d FClient]); cbn; try done;
    first [by intros ? ? ? | solve_balanced | all_events].
Qed.

Lemma stable_Close_clients :
  stable (seg_ok any_event client_load) Close_clients.
Proof.
  unfold Close_clients, Client_Close.
  apply stable_bind; [apply _|apply stable_get_mgr, _|]. intros m.
  apply stable_for_range; [apply _|]. intros d _.
  apply stable_bind; [apply _|apply stable_load_Client|].
  intros [c|]; [|apply stable_ret, _].
  apply stable_bind; [apply _|apply stable_load_Client|]. intros c'.
  apply stable_bind; [apply _| |intros _; apply stable_ret, _].
  apply stable_bind; [apply _|by apply stable_call|]. intros err. apply stable_ret, _.
Qed.

Lemma stable_wg_Wait :
  stable (seg_ok any_event client_load) wg_Wait.
Proof.
  intros [w t [h [ds c n] g]] r s'. run_mem.
  destruct (n =? 0); intros [= <- <-]; [|by apply (reflexivity (R := seg_ok _ _))].
  apply (seg_ok_plain _ _ {| world := w; trace := t; mem := _ |}); all_events.
Qed.

Lemma stable_Close_rest :
  stable (seg_ok any_event client_load) Close_rest.
Proof.
  unfold Close_rest.
  apply stable_bind; [apply _|apply stable_wg_Wait|]. intros _.
  apply stable_Close_clients.
Qed.

Lemma set_gstatus_run i g (s : state memory) d g0 :
  goroutines (mem s) !! i = Some (d, g0) →
  set_gstatus i g s =
  (Ret tt, {| world := world s; trace := trace s;
              mem := set_goroutines (<[i := (d, g)]> (goroutines (mem s))) (mem s) |}).
Proof.
  intros Hi. destruct s as [w t [h m gs]]. cbn in Hi.
  unfold set_gstatus. run_mem. by rewrite Hi.
Qed.

(** A goroutine that has not returned moves on, and adds the events
    [evs]. *)
Lemma seg_ok_gstatus (P Q : event → bool) (s : state memory) i d g0 g w evs :
  goroutines (mem s) !! i = Some (d, g0) →
  is_running g0 = true →
  is_running g = true →
  Forall (fun ev => P ev = true) evs →
  Forall (fun ev => Q ev = true) (unguarded no_locks evs) →
  balanced evs →
  seg_ok P Q s
    {| world := w; trace := trace s ++ evs;
       mem := set_goroutines (<[i := (d, g)]> (goroutines (mem s))) (mem s) |}.
Proof.
  intros Hi Hr0 Hr HP HQ Hb.
  eapply (seg_ok_same_heap _ _ _ _ evs); cbn; try done.
  - unfold WgInv. cbn. intros ->. rewrite (running_insert _ _ _ _ _ Hi), Hr0, Hr. lia.
  - intros i0 d0 Hi0. cbn in *. destruct (decide (i0 = i)) as [->|Hne];
      [rewrite Hi in Hi0; by simplify_eq|by rewrite list_lookup_insert_ne].
Qed.

Lemma monitorDevice_health_mem d client (s : state memory) r s' :
  monitorDevice_health d client s = (r, s') → mem s' = mem s.
Proof.
  destruct s as [w t [h m g]]. unfold monitorDevice_health, healthCheck. run_mem.
  destruct (h !! d) as [dev|]; [|by intros [= _ <-]]. cbn.
  destruct (lib_Read _ _ _ _) as [[resp [e|]] w']; cbn; [by intros [= _ <-]|].
  destruct (match Results resp with [] => true | r :: _ => _ end); cbn;
    by intros [= _ <-].
Qed.

Lemma stable_monitor_segment i c :
  stable (seg_ok monitor_event no_event) (monitor_segment i c).
Proof.
  intros s r s'. unfold monitor_segment.
  unfold bind at 1, get_mem at 1. cbn [mem].
  destruct (goroutines (mem s) !! i) as [[d [| | |client|]]|] eqn:Hi.
  - unfold monitorDevice_enter. erewrite bind_run; [|reflexivity].
    rewrite (set_gstatus_run _ _ _ d Spawned) by done. intros [= <- <-].
    apply (seg_ok_gstatus _ _ s i d Spawned); first [done | by all_events | by (scan_locks; constructor) | solve_balanced].
  - destruct c.
    + destruct s as [w t [h [ds done n] g]]. cbn in Hi.
      unfold monitorDevice_return, set_gstatus. run_mem.
      destruct done; [|intros [= <- <-]; by apply (reflexivity (R := seg_ok _ _))].
      cbn. destruct (n - 1 <? 0); cbn.
      { intros [= <- <-].
        apply (seg_ok_plain _ _ {| world := w; trace := t; mem := _ |}); all_events. }
      rewrite Hi. cbn. intros [= <- <-].
      eapply (seg_ok_same_heap _ _ _ _ [EvTickerStop; EvWgDone]); cbn; try done;
        [| | by rewrite <- app_assoc | all_events].
      { unfold WgInv. cbn. intros ->. rewrite (running_insert _ _ _ _ _ Hi). cbn. lia. }
      intros i0 d0 Hi0. cbn in *. destruct (decide (i0 = i)) as [->|Hne];
        [congruence|by rewrite list_lookup_insert_ne].
    + intros Hrun Hlock. revert Hlock. revert Hrun.
      destruct (heap (mem s) !! d) as [dev|] eqn:Hd.
      2:{ unfold bind. rewrite IsConnected_invalid by done. intros [= <- <-].
          by apply (reflexivity (R := seg_ok _ _)). }
      intros Hrun Hlock. revert Hrun.
      erewrite bind_run; [|exact (IsConnected_run _ _ _ Hd (Hlock _ _ Hd))].
      destruct (Connected dev); cbn [negb].
      * rewrite (set_gstatus_run _ _ _ d Looping) by done. intros [= <- <-]. cbn.
        refine (seg_ok_gstatus monitor_event no_event s i d Looping Checked (world s)
                  [EvRLock d; EvLoad d FConnected; EvRUnlock d]
                  Hi eq_refl eq_refl _ _ _ Hlock);
          first [done | by all_events | by (scan_locks; constructor) | solve_balanced].
      * intros [= <- <-].
        refine (seg_ok_same_heap monitor_event no_event _ _
                  [EvRLock d; EvLoad d FConnected; EvRUnlock d] _ _ _ _ _ _ _ Hlock);
          cbn;
          first [done | by intros ? ? ? | by all_events | by (scan_locks; constructor)
                | solve_balanced].
  - intros Hrun Hlock. revert Hlock. revert Hrun.
    destruct (heap (mem s) !! d) as [dev|] eqn:Hd.
    2:{ unfold bind. rewrite GetClient_invalid by done. intros [= <- <-].
        by apply (reflexivity (R := seg_ok _ _)). }
    intros Hrun Hlock. revert Hrun.
    erewrite bind_run; [|exact (GetClient_run _ _ _ Hd (Hlock _ _ Hd))].
    rewrite (set_gstatus_run _ _ _ d Checked) by done. intros [= <- <-]. cbn.
    refine (seg_ok_gstatus monitor_event no_event s i d Checked (Fetched (Client dev))
              (world s) [EvRLock d; EvLoad d FClient; EvRUnlock d]
              Hi eq_refl eq_refl _ _ _ Hlock);
      first [done | by all_events | by (scan_locks; constructor) | solve_balanced].
  - unfold bind at 1.
    destruct (match client with None => ret tt | Some _ => _ end s) as [r1 s1] eqn:Hh.
    assert (Hok : seg_ok monitor_event no_event s s1 ∧ mem s1 = mem s).
    { destruct client as [c0|].
      - split; [by eapply stable_monitorDevice_health|by eapply monitorDevice_health_mem].
      - unfold ret in Hh. injection Hh as <- <-.
        split; [by apply (reflexivity (R := seg_ok _ _))|done]. }
    destruct Hok as [Hok Hmem].
    destruct r1 as [[]|code| |]; try (intros [= <- <-]; by apply Hok).
    rewrite (set_gstatus_run _ _ _ d (Fetched client)) by (by rewrite Hmem).
    intros [= <- <-].
    eapply (transitivity (R := seg_ok _ _)); [exact Hok|].
    pose proof (seg_ok_gstatus monitor_event no_event s1 i d (Fetched client) Looping
                  (world s1) []) as Hg.
    rewrite app_nil_r in Hg. apply Hg; first [done | by rewrite Hmem | by constructor].
  - intros [= <- <-]. by apply (reflexivity (R := seg_ok _ _)).
  - intros [= <- <-]. by apply (reflexivity (R := seg_ok _ _)).
Qed.

Lemma stable_run_call c :
  stable (seg_ok any_event no_event) (run_call c).
Proof.
  destruct c; cbn.
  - apply stable_AddDevice.
  - apply stable_bind; [apply _|apply stable_ConnectAll|]. intros _. apply stable_ret, _.
  - apply stable_bind; [apply _|apply stable_connectDevice|]. intros _. apply stable_ret, _.
  - apply stable_setError.
  - apply stable_bind; [apply _| |intros _; apply stable_ret, _].
    eapply stable_weaken; [| |apply stable_IsConnected]; done.
  - apply stable_bind; [apply _| |intros _; apply stable_ret, _].
    eapply stable_weaken; [| |apply stable_GetClient]; done.
  - apply stable_StartMonitoring.
  - apply stable_cancel.
Qed.

(** ** Steps of the program *)

Lemma segment_inv {A} (m : M memory A) sys scr cl sys' :
  segment m sys scr cl = Some sys' →
  ∃ a, m (st sys) = (Ret a, st sys') ∧ script sys' = scr ∧ closing sys' = cl.
Proof.
  unfold segment. destruct (m (st sys)) as [[a|c| |] s']; intros Hs; simplify_eq.
  by exists a.
Qed.

Lemma step_monitor i c sys sys' :
  step (RunMonitor i c) sys = Some sys' →
  seg_ok monitor_event no_event (st sys) (st sys') ∧
  script sys' = script sys ∧ closing sys' = closing sys.
Proof.
  intros Hs. apply segment_inv in Hs as (a & Hrun & Hscr & Hcl).
  split; [|done]. by eapply stable_monitor_segment.
Qed.

Lemma step_main_open sys sys' :
  closing sys = false →
  step RunMain sys = Some sys' →
  seg_ok any_event no_event (st sys) (st sys') ∧
  ∃ c, script sys = c :: script sys' ∧
       run_call c (st sys) = (Ret tt, st sys') ∧
       closing sys' = (if c is CallClose then true else false).
Proof.
  intros Hcl. unfold step. rewrite Hcl. destruct (script sys) as [|c rest]; [done|].
  intros Hs.
  assert (∃ a, run_call c (st sys) = (Ret a, st sys') ∧ script sys' = rest ∧
               closing sys' = (if c is CallClose then true else false))
    as ([] & Hrun & Hscr & Hcl').
  { destruct c; by apply segment_inv in Hs. }
  split; [by eapply stable_run_call|]. exists c. by rewrite Hscr.
Qed.

Lemma Close_clients_loop (ds : list ptr) (s s' : state memory) :
  for_range ds (fun device =>
    let* c := load_Client device in
    match c with
    | Some _ =>
      let* c := load_Client device in
      Client_Close c Background ;; ret tt
    | None => ret tt
    end) s = (Ret tt, s') →
  mem s' = mem s ∧ trace s' = trace s ++ close_events (heap (mem s)) ds.
Proof.
  revert s. induction ds as [|d ds IH]; intros s; cbn.
  { unfold ret. intros [= <-]. by rewrite app_nil_r. }
  intros Hrun. apply bind_Ret_inv in Hrun as ([] & s1 & Hbody & Hrest).
  apply IH in Hrest as [Hmem Htr].
  destruct s as [w t [h m g]]. revert Hbody. unfold load_Client, Client_Close.
  run_mem. destruct (h !! d) as [dev|] eqn:Hd; [|done]. cbn.
  destruct (Client dev) as [c|] eqn:Hc; cbn.
  - run_mem. rewrite Hd. cbn. rewrite Hc.
    destruct (lib_Close _ _ _) as [err w']. cbn. intros [= <-]. cbn in *.
    rewrite Hmem, Htr. by rewrite <- !app_assoc.
  - intros [= <-]. cbn in *. rewrite Hmem, Htr. by rewrite <- !app_assoc.
Qed.

(** [Close] is [m.cancel()] followed by the rest. *)
Lemma Close_segments : Close = (cancel ;; Close_rest).
Proof. reflexivity. Qed.

Lemma Close_rest_run (s s' : state memory) :
  Close_rest s = (Ret tt, s') →
  wg (mgr (mem s)) = 0 ∧
  mem s' = mem s ∧
  trace s' = trace s ++ EvWgWait :: close_events (heap (mem s)) (devices (mgr (mem s))).
Proof.
  unfold Close_rest, Close_clients. intros Hrun.
  apply bind_Ret_inv in Hrun as ([] & s1 & Hwait & Hrun).
  apply bind_Ret_inv in Hrun as (m & s2 & Hm & Hloop).
  unfold get_mgr, bind, get_mem, ret in Hm. simplify_eq.
  apply Close_clients_loop in Hloop as [Hmem Htr].
  destruct s as [w t [h [ds c n] g]]. revert Hwait. unfold wg_Wait. run_mem.
  destruct (n =? 0) eqn:Hn; [|done]. apply Z.eqb_eq in Hn. intros [= <-].
  cbn in *. rewrite Htr, <- app_assoc. done.
Qed.

Lemma step_main_closing sys sys' :
  closing sys = true →
  step RunMain sys = Some sys' →
  Close_rest (st sys) = (Ret tt, st sys') ∧
  script sys' = script sys ∧ closing sys' = false.
Proof.
  intros Hcl. unfold step. rewrite Hcl. intros Hs.
  by apply segment_inv in Hs as ([] & Hrun & Hscr & Hcl').
Qed.

Lemma cancel_run (s : state memory) :
  cancel s =
  (Ret tt, {| world := world s; trace := trace s ++ [EvCancel];
              mem := set_mgr {| devices := devices (mgr (mem s)); ctx_done := true;
                                wg := wg (mgr (mem s)) |} (mem s) |}).
Proof. by destruct s as [w t [h [ds c n] g]]. Qed.

Lemma Forall_no_event (l : list event) :
  Forall (fun ev => no_event ev = true) l → l = [].
Proof. destruct 1 as [|ev l Hev _]; [done|discriminate]. Qed.

Lemma SysInv_init w calls : SysInv (init w calls).
Proof.
  split_and!; cbn; done.
Qed.

(** The invariant is kept along the trace when a segment adds events
    that release their locks and whose unguarded accesses are reads of
    [Client]. *)
Lemma SysInv_trace (t evs : list event) :
  balanced t →
  Forall (fun ev => client_load ev = true) (unguarded no_locks t) →
  balanced evs →
  Forall (fun ev => client_load ev = true) (unguarded no_locks evs) →
  balanced (t ++ evs) ∧
  Forall (fun ev => client_load ev = true) (unguarded no_locks (t ++ evs)).
Proof.
  intros Hb Hu Hb' Hu'. split; [by apply balanced_app|].
  rewrite unguarded_balanced_app by done. by apply Forall_app.
Qed.

Lemma SysInv_step ch sys sys' :
  SysInv sys → step ch sys = Some sys' → SysInv sys'.
Proof.
  intros (Hlock & Hwg & Hbal & Hug & Hclosing) Hstep. destruct ch as [|i c].
  - destruct (closing sys) eqn:Hcl.
    + apply step_main_closing in Hstep as (Hrun & Hscr & Hcl'); [|done].
      destruct (stable_Close_rest _ _ _ Hrun Hlock)
        as (Hlock' & Hwg' & _ & _ & evs & Ht & _ & Hq & Hb).
      destruct (SysInv_trace _ _ Hbal Hug Hb Hq) as [Hbal' Hug'].
      split_and!; [done|by apply Hwg'|by rewrite Ht|by rewrite Ht|].
      by rewrite Hcl'.
    + apply step_main_open in Hstep as (Hok & c & Hscr & Hrun & Hcl'); [|done].
      destruct (Hok Hlock) as (Hlock' & Hwg' & _ & _ & evs & Ht & _ & Hq & Hb).
      apply Forall_no_event in Hq.
      destruct (SysInv_trace _ evs Hbal Hug Hb) as [Hbal' Hug'];
        [rewrite Hq; constructor|].
      split_and!; [done|by apply Hwg'|by rewrite Ht|by rewrite Ht|].
      rewrite Hcl'. destruct c; try done. intros _.
      unfold run_call in Hrun. rewrite cancel_run in Hrun.
      injection Hrun as Hst. rewrite <- Hst. cbn.
      exists (trace (st sys)), []. split; [done|constructor].
  - apply step_monitor in Hstep as (Hok & Hscr & Hcl).
    destruct (Hok Hlock) as (Hlock' & Hwg' & _ & _ & evs & Ht & Hp & Hq & Hb).
    apply Forall_no_event in Hq.
    destruct (SysInv_trace _ evs Hbal Hug Hb) as [Hbal' Hug'];
      [rewrite Hq; constructor|].
    split_and!; [done|by apply Hwg'|by rewrite Ht|by rewrite Ht|].
    rewrite Hcl. intros Hc. destruct (Hclosing Hc) as (t0 & mid & Hmid & Hmon).
    exists t0, (mid ++ evs). split; [|by apply Forall_app].
    rewrite Ht, Hmid, <- app_assoc. done.
Qed.

Lemma exec_invariant (I : system → Prop) :
  (∀ ch sys sys', I sys → step ch sys = Some sys' → I sys') →
  ∀ l sys sys', I sys → exec l sys = Some sys' → I sys'.
Proof.
  intros Hstep l. induction l as [|ch l IH]; intros sys sys' HI; cbn.
  - by intros [= <-].
  - destruct (step ch sys) as [sys1|] eqn:Hs; [|done]. eauto.
Qed.

Lemma SysInv_exec w calls l sys :
  exec l (init w calls) = Some sys → SysInv sys.
Proof.
  apply (exec_invariant SysInv); [apply SysInv_step | apply SysInv_init].
Qed.

(** Goroutines that have returned stay so along a run. *)
Lemma finished_stay_exec l sys sys' :
  SysInv sys → exec l sys = Some sys' →
  finished_stay (mem (st sys)) (mem (st sys')).
Proof.
  revert sys. induction l as [|ch l IH]; intros sys Hinv; cbn.
  - intros [= <-]. by intros ? ? ?.
  - destruct (step ch sys) as [sys1|] eqn:Hs; [|done]. intros Hexec.
    assert (Hinv1 := SysInv_step _ _ _ Hinv Hs).
    assert (Hfin : finished_stay (mem (st sys)) (mem (st sys1))).
    { destruct Hinv as (Hlock & _). destruct ch as [|i c].
      - destruct (closing sys) eqn:Hcl.
        + apply step_main_closing in Hs as (Hrun & _); [|done].
          by destruct (stable_Close_rest _ _ _ Hrun Hlock) as (_ & _ & _ & Hf & _).
        + apply step_main_open in Hs as (Hok & _); [|done].
          by destruct (Hok Hlock) as (_ & _ & _ & Hf & _).
      - apply step_monitor in Hs as (Hok & _).
        by destruct (Hok Hlock) as (_ & _ & _ & Hf & _). }
    intros i d Hi. eapply IH; [done..|]. by apply Hfin.
Qed.

(** ** The monitoring loop *)

Lemma healthCheck_run client name (s : state memory) :
  let rd := lib_Read client ManagerCtx healthCheck_req (world s) in
  let s1 := {| world := rd.2;
               trace := trace s ++ [EvRead client ManagerCtx healthCheck_req];
               mem := mem s |} in
  healthCheck client name s =
  match rd.1.2 with
  | Some e => (Ret (Some (LibErr e)), s1)
  | None =>
    if match Results rd.1.1 with
       | [] => true
       | r :: _ => negb (Status r =? StatusOK)
       end
    then (Ret (Some (Errorf "服务器状态读取失败" [])), s1)
    else (Ret None,
          {| world := rd.2;
             trace := trace s ++ [EvRead client ManagerCtx healthCheck_req;
                                  EvPrintf "✓ 设备 %s 健康检查通过\n" [ArgString name]];
             mem := mem s |})
  end.
Proof.
  cbn zeta. unfold healthCheck. run_mem.
  destruct (lib_Read _ _ _ _) as [[resp [e|]] w']; cbn; [done|].
  destruct (match Results resp with [] => true | r :: _ => _ end); cbn; [done|].
  by rewrite <- app_assoc.
Qed.

Lemma monitorDevice_tick_run d (s : state memory) dev :
  heap (mem s) !! d = Some dev →
  mu dev = unlocked →
  monitorDevice_tick d s =
  if negb (Connected dev) then
    (Ret tt, {| world := world s; trace := trace s ++ tick_reads d false; mem := mem s |})
  else
    let s1 := {| world := world s; trace := trace s ++ tick_reads d true; mem := mem s |} in
    match Client dev with
    | None => (Ret tt, s1)
    | Some _ =>
      match healthCheck (Client dev) (Name dev) s1 with
      | (Ret (Some e), s2) =>
        (Ret tt,
         {| world := world s2;
            trace := trace s2 ++
              [EvLogPrintf "设备 %s 健康检查失败: %v" [ArgString (Name dev); ArgError e]];
            mem := mem s2 |})
      | (Ret None, s2) => (Ret tt, s2)
      | (Exit c, s2) => (Exit c, s2)
      | (Blocked, s2) => (Blocked, s2)
      | (Panic, s2) => (Panic, s2)
      end
    end.
Proof.
  intros Hd Hmu. unfold monitorDevice_tick. unfold bind at 1.
  rewrite (IsConnected_run _ _ _ Hd Hmu).
  destruct (Connected dev); cbn [negb]; [|done].
  unfold bind at 1.
  rewrite (GetClient_run _ _ dev) by done. cbn [trace world mem].
  rewrite <- app_assoc. change (_ ++ _ ++ _) with (trace s ++ tick_reads d true).
  destruct (Client dev) as [c|]; [|done].
  unfold monitorDevice_health.
  unfold bind at 1. unfold deref at 1, bind at 1, get_mem, ret. cbn [mem]. rewrite Hd.
  unfold bind, log_Printf, emit, ret.
  destruct (healthCheck _ _ _) as [[[e|]|c'| |] s2]; done.
Qed.

Lemma monitorDevice_loop_left d sel (s s' : state memory) :
  monitorDevice_loop d sel s = (Ret true, s') →
  CaseDone ∈ sel ∧ ctx_done (mgr (mem s')) = true.
Proof.
  revert s. induction sel as [|c sel IH]; intros s; cbn.
  { unfold ret. intros [=]. }
  destruct c.
  - intros Hrun. apply bind_Ret_inv in Hrun as ([] & s1 & Hrecv & Hret).
    unfold ret in Hret. simplify_eq. split; [apply elem_of_cons; by left|].
    revert Hrecv. unfold recv_ctx_Done, get_mgr, bind, get_mem, ret, block.
    destruct (ctx_done (mgr (mem s))) eqn:Hdone; intros [= <-]. done.
  - intros Hrun. apply bind_Ret_inv in Hrun as ([] & s1 & _ & Hrest).
    apply IH in Hrest as [Hin Hdone]. split; [apply elem_of_cons; by right|done].
Qed.

Lemma monitorDevice_tick_returns d (s : state memory) dev :
  heap (mem s) !! d = Some dev →
  mu dev = unlocked →
  ∃ s', monitorDevice_tick d s = (Ret tt, s') ∧ mem s' = mem s.
Proof.
  intros Hd Hmu. rewrite (monitorDevice_tick_run _ _ _ Hd Hmu).
  destruct (Connected dev); cbn [negb]; [|by eexists].
  cbn zeta. destruct (Client dev) as [c|]; [|by eexists].
  rewrite healthCheck_run. cbn zeta.
  destruct (lib_Read _ _ _ _).1.2; [by eexists|].
  destruct (match Results _ with [] => true | r :: _ => _ end); by eexists.
Qed.

(** ** Lock discipline and the invariant of the device state *)

(** C5, as the code has it.  In every run of the program, the accesses to
    [Connected], [LastError] and [Client] made without holding the mutex
    of the device are reads of [Client]; and when the main goroutine
    never calls [Close], there is none: [connectDevice], [setError],
    [ConnectAll], [IsConnected], [GetClient] and the monitoring
    goroutines access the three fields under the lock only. *)
Theorem lock_discipline_outside_Close w calls l sys :
  exec l (init w calls) = Some sys →
  Forall (fun ev => client_load ev = true) (unguarded no_locks (trace (st sys))) ∧
  (CallClose ∉ calls → unguarded no_locks (trace (st sys)) = []).
Proof.
  intros Hexec. split.
  { by destruct (SysInv_exec _ _ _ _ Hexec) as (_ & _ & _ & Hug & _). }
  intros Hno.
  enough ((CallClose ∉ script sys) ∧ closing sys = false ∧ SysInv sys ∧
          unguarded no_locks (trace (st sys)) = []) as (_ & _ & _ & Hnil); [done|].
  revert Hexec.
  apply (exec_invariant (fun sys =>
    (CallClose ∉ script sys) ∧ closing sys = false ∧ SysInv sys ∧
    unguarded no_locks (trace (st sys)) = [])).
  2:{ split_and!; [done|done|apply SysInv_init|done]. }
  clear. intros ch sys sys' (Hno & Hcl & Hinv & Hnil) Hstep.
  assert (Hinv' := SysInv_step _ _ _ Hinv Hstep).
  destruct Hinv as (Hlock & _ & Hbal & _). destruct ch as [|i c].
  - apply step_main_open in Hstep as (Hok & c & Hscr & _ & Hcl'); [|done].
    destruct (Hok Hlock) as (_ & _ & _ & _ & evs & Ht & _ & Hq & _).
    apply Forall_no_event in Hq. rewrite Hscr in Hno.
    apply not_elem_of_cons in Hno as [Hc Hno].
    split_and!; [done| |done|].
    + rewrite Hcl'. by destruct c.
    + rewrite Ht, unguarded_balanced_app by done. by rewrite Hnil, Hq.
  - apply step_monitor in Hstep as (Hok & Hscr & Hcl').
    destruct (Hok Hlock) as (_ & _ & _ & _ & evs & Ht & _ & Hq & _).
    apply Forall_no_event in Hq.
    split_and!; [by rewrite Hscr|by rewrite Hcl'|done|].
    rewrite Ht, unguarded_balanced_app by done. by rewrite Hnil, Hq.
Qed.

(** C8.  As long as [opcua.NewClient] keeps its promise, in every state
    the program reaches, a device that reports connected has a client and
    no error.  A device that [AddDevice] has just added is not connected
    and has neither client nor error. *)
Theorem connected_has_client w calls l sys :
  NewClient_contract →
  exec l (init w calls) = Some sys →
  (∀ d dev, heap (mem (st sys)) !! d = Some dev →
     Connected dev = true → is_Some (Client dev) ∧ LastError dev = None) ∧
  (∀ name endpoint localAddr (s : state memory),
     ∃ s' dev,
       AddDevice name endpoint localAddr s = (Ret tt, s') ∧
       heap (mem s') = heap (mem s) ++ [dev] ∧
       devices (mgr (mem s')) = devices (mgr (mem s)) ++ [length (heap (mem s))] ∧
       Connected dev = false ∧ Client dev = None ∧ LastError dev = None).
Proof.
  intros Hcontract Hexec. split.
  - enough (SysInv sys ∧ ConnInv (mem (st sys))) as [_ Hconn]; [exact Hconn|].
    revert Hexec.
    apply (exec_invariant (fun sys => SysInv sys ∧ ConnInv (mem (st sys)))).
    2:{ split; [apply SysInv_init|]. intros d dev Hd. cbn in Hd.
        by rewrite lookup_nil in Hd. }
    clear sys. intros ch sys sys' [Hinv Hconn] Hstep.
    split; [by eapply SysInv_step|].
    destruct Hinv as (Hlock & _ & _ & _ & _).
    assert (seg_ok any_event client_load (st sys) (st sys')) as Hok.
    { destruct ch as [|i c].
      - destruct (closing sys) eqn:Hcl.
        + apply step_main_closing in Hstep as (Hrun & _); [|done].
          by eapply stable_Close_rest.
        + apply step_main_open in Hstep as (Hok & _); [|done].
          eapply seg_ok_weaken; [| |exact Hok]; done.
      - apply step_monitor in Hstep as (Hok & _).
        eapply seg_ok_weaken; [| |exact Hok]; done. }
    destruct (Hok Hlock) as (_ & _ & Hc & _). by apply Hc.
  - intros name endpoint localAddr s. rewrite AddDevice_run.
    eexists _, _. split; [done|]. cbn. done.
Qed.

(** ** What the health check and the connection attempt return *)

(** X5.  On a client that is not nil, [healthCheck] returns the error of
    [Read] as it is, and an error of its own when the response has no
    result or a first result whose status is not good; it prints its line
    only when it returns nil. *)
Theorem healthCheck_error_iff (c : opcua_Client) name (s : state memory) :
  let client := Some c in
  let rd := lib_Read client ManagerCtx healthCheck_req (world s) in
  let out := healthCheck client name s in
  ∃ err : error,
    out.1 = Ret err ∧
    mem out.2 = mem s ∧
    world out.2 = rd.2 ∧
    (is_Some err ↔
       is_Some rd.1.2 ∨ Results rd.1.1 = [] ∨
       ∃ r rest, Results rd.1.1 = r :: rest ∧ Status r ≠ StatusOK) ∧
    (∀ e, rd.1.2 = Some e → err = Some (LibErr e)) ∧
    (rd.1.2 = None → is_Some err → err = Some (Errorf "服务器状态读取失败" [])) ∧
    trace out.2 = trace s ++ EvRead client ManagerCtx healthCheck_req ::
      match err with
      | Some _ => []
      | None => [EvPrintf "✓ 设备 %s 健康检查通过\n" [ArgString name]]
      end.
Proof.
  intros client rd out. unfold out. rewrite healthCheck_run. cbn zeta. fold rd.
  destruct (rd.1.2) as [e|]; cbn.
  { eexists. split; [done|]. split_and!; try done.
    - split; eauto.
    - by intros ? [= <-]. }
  destruct (Results rd.1.1) as [|r rest]; cbn.
  { eexists. split; [done|]. split_and!; try done. split; eauto. }
  destruct (Status r =? StatusOK) eqn:Hst; cbn.
  - apply Z.eqb_eq in Hst. exists None. split; [done|]. split_and!; try done.
    split; [intros [? ?]; discriminate|].
    intros [[? ?]|[?|(r' & rest' & Heq & Hne)]]; try discriminate. by simplify_eq.
  - apply Z.eqb_neq in Hst. eexists. split; [done|]. split_and!; try done.
    split; [|eauto]. intros _. right; right. eauto.
Qed.

(** X6.  A connection attempt that fails leaves the device and its mutex as
    they were: the error says whether the client could not be created or
    could not connect and wraps the error of the library, and a client
    that was created but could not connect is not closed. *)
Theorem connectDevice_failure_leaves_device d (s s' : state memory) dev e :
  heap (mem s) !! d = Some dev →
  connectDevice d s = (Ret (Some e), s') →
  let opts := connectDevice_opts (LocalAddr dev) in
  let new := lib_NewClient (Endpoint dev) opts (world s) in
  let con := lib_Connect new.1.1 ManagerCtx new.2 in
  mem s' = mem s ∧
  ((∃ e1, new.1.2 = Some e1 ∧
          e = Errorf "创建客户端失败: %v" [ErrArgError (LibErr e1)] ∧
          trace s' = trace s ++ [EvNewClient (Endpoint dev) opts]) ∨
   (∃ e2, new.1.2 = None ∧ con.1 = Some e2 ∧
          e = Errorf "连接失败: %v" [ErrArgError (LibErr e2)] ∧
          trace s' = trace s ++ [EvNewClient (Endpoint dev) opts;
                                 EvConnect new.1.1 ManagerCtx])).
Proof.
  intros Hd Hrun. cbn zeta. unfold connectDevice in Hrun.
  apply bind_Ret_inv in Hrun as (dev' & s0 & Hderef & Hrun).
  assert (dev' = dev ∧ s0 = s) as [-> ->].
  { revert Hderef. unfold deref. run_mem. rewrite Hd. by intros [= <- <-]. }
  apply bind_Ret_inv in Hrun as ([c err] & s1 & Hnew & Hrun).
  revert Hnew. unfold opcua_NewClient. run_mem.
  destruct (lib_NewClient _ _ _) as [[c' [e1|]] w1]; cbn; intros [= <- <- <-].
  { revert Hrun. unfold ret. intros [= <- <-]. split; [done|]. left. by exists e1. }
  cbn in Hrun.
  apply bind_Ret_inv in Hrun as (err & s2 & Hcon & Hrun).
  revert Hcon. unfold Client_Connect. run_mem.
  destruct (lib_Connect _ _ _) as [[e2|] w2]; cbn; intros [= <- <-].
  { revert Hrun. unfold ret. intros [= <- <-]. split; [done|]. right. exists e2.
    cbn. by rewrite <- app_assoc. }
  cbn in Hrun.
  do 6 (apply bind_Ret_inv in Hrun as (? & ? & _ & Hrun)).
  by revert Hrun; unfold ret; intros [= ].
Qed.

(** ** The accessors *)

(** X7.  [IsConnected] and [GetClient] return the fields as they were last
    written and change nothing.  After [setError] the device reports not
    connected but still hands out the client it held; after a
    [connectDevice] that returned nil it reports connected and hands out
    the client of that attempt. *)
Theorem accessors_reflect_updates d (s : state memory) dev :
  heap (mem s) !! d = Some dev →
  mu dev = unlocked →
  ((IsConnected d s).1 = Ret (Connected dev) ∧ mem (IsConnected d s).2 = mem s) ∧
  ((GetClient d s).1 = Ret (Client dev) ∧ mem (GetClient d s).2 = mem s) ∧
  (∀ err, ∃ s1,
     setError d err s = (Ret tt, s1) ∧
     (IsConnected d s1).1 = Ret false ∧
     (GetClient d s1).1 = Ret (Client dev)) ∧
  (∀ s1, connectDevice d s = (Ret None, s1) →
     (IsConnected d s1).1 = Ret true ∧
     (GetClient d s1).1 =
       Ret (lib_NewClient (Endpoint dev) (connectDevice_opts (LocalAddr dev)) (world s)).1.1).
Proof.
  intros Hd Hmu.
  rewrite (IsConnected_run _ _ _ Hd Hmu), (GetClient_run _ _ _ Hd Hmu).
  split; [done|]. split; [done|]. split.
  - intros err. eexists. split; [by apply setError_run|].
    set (dev' := set_LastError err (set_Connected false dev)).
    assert (Hd' : heap (set_heap (<[d := dev']> (heap (mem s))) (mem s)) !! d = Some dev').
    { cbn. apply list_lookup_insert_eq. exact (lookup_lt_Some _ _ _ Hd). }
    erewrite IsConnected_run; [|exact Hd'|exact Hmu].
    erewrite GetClient_run; [|exact Hd'|exact Hmu]. done.
  - intros s1. rewrite (connectDevice_run _ _ _ Hd Hmu). cbn zeta.
    destruct (lib_NewClient _ _ _) as [[c [e1|]] w1]; cbn; [by intros [= ]|].
    destruct (lib_Connect _ _ _) as [[e2|] w2]; cbn; [by intros [= ]|].
    intros [= <-].
    set (dev' := set_LastError None (set_Connected true (set_Client c dev))).
    assert (Hd' : heap (set_heap (<[d := dev']> (heap (mem s))) (mem s)) !! d = Some dev').
    { cbn. apply list_lookup_insert_eq. exact (lookup_lt_Some _ _ _ Hd). }
    erewrite IsConnected_run; [|exact Hd'|exact Hmu].
    erewrite GetClient_run; [|exact Hd'|exact Hmu]. done.
Qed.

(** ** Connecting again *)

Lemma ConnectAll_body_clients d (s : state memory) dev :
  heap (mem s) !! d = Some dev →
  mu dev = unlocked →
  ∃ dev' evs w',
    ConnectAll_body d s =
      (Ret tt, {| world := w'; trace := trace s ++ evs;
                  mem := set_heap (<[d := dev']> (heap (mem s))) (mem s) |}) ∧
    mu dev' = unlocked ∧
    closed_clients evs = [] ∧
    length (new_clients evs) = 1%nat ∧
    ((Connected dev' = true ∧ Client dev' ∈ connected_clients evs) ∨
     (Connected dev' = false ∧ Client dev' = Client dev)).
Proof.
  intros Hd Hmu. unfold ConnectAll_body. unfold bind.
  rewrite (connectDevice_run _ _ _ Hd Hmu). cbn zeta.
  destruct (lib_NewClient _ _ _) as [[c [e1|]] w1] eqn:Hnew; cbn.
  { unfold deref, bind, get_mem, ret, log_Printf, emit. cbn. rewrite Hd.
    erewrite setError_run by done. cbn.
    eexists _, _, _. rewrite <- !app_assoc. split; [reflexivity|].
    split_and!; [done..|]. by right. }
  destruct (lib_Connect _ _ _) as [[e2|] w2]; cbn.
  { unfold deref, bind, get_mem, ret, log_Printf, emit. cbn. rewrite Hd.
    erewrite setError_run by done. cbn.
    eexists _, _, _. rewrite <- !app_assoc. split; [reflexivity|].
    split_and!; [done..|]. by right. }
  unfold ret. eexists _, _, _. split; [reflexivity|].
  split_and!; [done..|]. left. split; [done|]. cbn. by left.
Qed.

(** X8.  [ConnectAll] asks for a new client for every device, whether the
    device is connected or not, and closes none.  Take a device of the
    list and the answers of [NewClient] and [Connect] in its attempt,
    which follows the attempts for the devices before it.  When both
    succeed, the device is left connected and holds the client that
    [NewClient] returned, in place of the one it held.  When one of them
    fails, the device is left not connected and keeps the client it
    held. *)
Theorem ConnectAll_reconnects_without_closing (s : state memory) :
  LockInv (mem s) →
  NoDup (devices (mgr (mem s))) →
  (∀ d, d ∈ devices (mgr (mem s)) → is_Some (heap (mem s) !! d)) →
  ∃ s' evs,
    ConnectAll s = (Ret None, s') ∧
    trace s' = trace s ++ evs ∧
    closed_clients evs = [] ∧
    length (new_clients evs) = length (devices (mgr (mem s))) ∧
    ∀ pre d post,
      devices (mgr (mem s)) = pre ++ d :: post →
      ∃ sa dev dev',
        for_range pre ConnectAll_body s = (Ret tt, sa) ∧
        heap (mem s) !! d = Some dev ∧
        heap (mem s') !! d = Some dev' ∧
        let new := lib_NewClient (Endpoint dev) (connectDevice_opts (LocalAddr dev))
                     (world sa) in
        let con := lib_Connect new.1.1 ManagerCtx new.2 in
        match new.1.2, con.1 with
        | None, None => Connected dev' = true ∧ Client dev' = new.1.1
        | _, _ => Connected dev' = false ∧ Client dev' = Client dev
        end.
Proof.
  intros Hlock Hnd Hvalid.
  assert (Hloop : ∀ ds (s : state memory),
    LockInv (mem s) → NoDup ds → (∀ d, d ∈ ds → is_Some (heap (mem s) !! d)) →
    ∃ s' evs,
      for_range ds ConnectAll_body s = (Ret tt, s') ∧
      trace s' = trace s ++ evs ∧
      closed_clients evs = [] ∧
      length (new_clients evs) = length ds ∧
      (∀ d, d ∉ ds → heap (mem s') !! d = heap (mem s) !! d) ∧
      ∀ d, d ∈ ds →
        ∃ dev dev',
          heap (mem s) !! d = Some dev ∧ heap (mem s') !! d = Some dev' ∧
          ((Connected dev' = true ∧ Client dev' ∈ connected_clients evs) ∨
           (Connected dev' = false ∧ Client dev' = Client dev))).
  { clear. intros ds. induction ds as [|d ds IH]; intros s Hlock Hnd Hvalid.
    { exists s, []. cbn. unfold ret. rewrite app_nil_r.
      split_and!; try done. intros d Hd. by apply elem_of_nil in Hd. }
    apply NoDup_cons in Hnd as [Hd_ds Hnd].
    destruct (Hvalid d) as [dev Hd]; [apply elem_of_cons; by left|].
    destruct (ConnectAll_body_clients d s dev Hd (Hlock _ _ Hd))
      as (dev' & evs1 & w' & Hbody & Hmu' & Hcl & Hnew & Hcase).
    set (s1 := {| world := w'; trace := trace s ++ evs1;
                  mem := set_heap (<[d := dev']> (heap (mem s))) (mem s) |}) in *.
    assert (Hlock1 : LockInv (mem s1)) by (by apply LockInv_insert).
    assert (Hother : ∀ d0, d0 ≠ d → heap (mem s1) !! d0 = heap (mem s) !! d0).
    { intros d0 Hne. cbn. by rewrite list_lookup_insert_ne. }
    assert (Hd1 : heap (mem s1) !! d = Some dev').
    { cbn. apply list_lookup_insert_eq. exact (lookup_lt_Some _ _ _ Hd). }
    destruct (IH s1 Hlock1 Hnd) as (s' & evs2 & Hloop & Htr & Hcl2 & Hnew2 & Hframe & Hrecs).
    { intros d0 Hd0. rewrite Hother; [|intros ->; done].
      apply Hvalid, elem_of_cons. by right. }
    exists s', (evs1 ++ evs2). cbn [for_range]. unfold bind. rewrite Hbody, Hloop.
    split; [done|]. split; [by rewrite Htr, app_assoc|].
    rewrite closed_clients_app, new_clients_app, length_app, Hcl, Hcl2, Hnew, Hnew2.
    split; [done|]. split; [done|]. split.
    - intros d0 Hd0. apply not_elem_of_cons in Hd0 as [Hne Hd0].
      rewrite Hframe by done. by apply Hother.
    - intros d0 Hd0. rewrite connected_clients_app.
      apply elem_of_cons in Hd0 as [->|Hd0].
      + exists dev, dev'. rewrite Hframe by done. split_and!; try done.
        destruct Hcase as [[? ?]|[? ?]]; [left|by right].
        split; [done|]. apply elem_of_app. by left.
      + destruct (Hrecs d0 Hd0) as (dev0 & dev0' & H0 & H0' & Hcase0).
        rewrite Hother in H0 by (intros ->; done).
        exists dev0, dev0'. split_and!; try done.
        destruct Hcase0 as [[? ?]|[? ?]]; [left|by right].
        split; [done|]. apply elem_of_app. by right. }
  destruct (Hloop _ s Hlock Hnd Hvalid) as (s' & evs & Hrun & Htr & Hcl & Hnew & _ & _).
  exists s', evs. split.
  { unfold ConnectAll, get_mgr. unfold bind at 1 2. cbn. unfold bind. by rewrite Hrun. }
  split; [done|]. split; [done|]. split; [done|].
  intros pre d post Hdevs. rewrite Hdevs in Hnd, Hvalid, Hrun.
  destruct (ConnectAll_attempt pre d post s Hlock Hnd Hvalid)
    as (sa & sb & s'' & dev & dev' & evs' & Hpre & Hd & _ & _ & Hall & Hd' & _ & Hout).
  rewrite Hrun in Hall. injection Hall as <-.
  exists sa, dev, dev'. split; [done|]. split; [done|]. split; [done|].
  cbn zeta. unfold attempt_result in Hout.
  destruct (lib_NewClient _ _ _).1.2 as [e1|]; [by destruct Hout as [-> _]|].
  destruct (lib_Connect _ _ _).1 as [e2|]; [by destruct Hout as [-> _]|].
  by subst dev'.
Qed.

(** ** Starting the monitoring, and closing, seen from one goroutine *)

Lemma StartMonitoring_loop (ds : list ptr) (s : state memory) :
  0 ≤ wg (mgr (mem s)) →
  for_range ds (fun device => wg_Add 1 ;; go_monitorDevice device) s =
  (Ret tt,
   {| world := world s;
      trace := trace s ++ spawn_events ds;
      mem := {| heap := heap (mem s);
                mgr := {| devices := devices (mgr (mem s));
                          ctx_done := ctx_done (mgr (mem s));
                          wg := wg (mgr (mem s)) + Z.of_nat (length ds) |};
                goroutines := goroutines (mem s) ++ map (fun d => (d, Spawned)) ds |} |}).
Proof.
  revert s. induction ds as [|d ds IH]; intros [w t [h [dl c n] g]] Hwg; cbn in *.
  { unfold ret. by rewrite !app_nil_r, Z.add_0_r. }
  run_mem. destruct (Z.ltb_spec (n + 1) 0); [lia|]. cbn.
  rewrite IH by (cbn; lia). cbn.
  rewrite <- !app_assoc. cbn.
  replace (n + 1 + Z.of_nat (length ds)) with (n + Z.pos (Pos.of_succ_nat (length ds)))
    by lia. done.
Qed.

Lemma StartMonitoring_run (s : state memory) :
  0 ≤ wg (mgr (mem s)) →
  StartMonitoring s =
  (Ret tt,
   {| world := world s;
      trace := trace s ++ spawn_events (devices (mgr (mem s)));
      mem := {| heap := heap (mem s);
                mgr := {| devices := devices (mgr (mem s));
                          ctx_done := ctx_done (mgr (mem s));
                          wg := wg (mgr (mem s)) +
                                Z.of_nat (length (devices (mgr (mem s)))) |};
                goroutines := goroutines (mem s) ++
                  map (fun d => (d, Spawned)) (devices (mgr (mem s))) |} |}).
Proof.
  intros Hwg. unfold StartMonitoring.
  erewrite bind_run; [|reflexivity]. by apply StartMonitoring_loop.
Qed.

(** X9.  [StartMonitoring] starts a goroutine for every registered device, in
    order, connected or not, and adds one to the wait group before each.
    It looks neither at the devices nor at the goroutines that are
    already there: a second call starts a second goroutine per device. *)
Theorem StartMonitoring_spawns (s : state memory) :
  0 ≤ wg (mgr (mem s)) →
  ∃ s',
    StartMonitoring s = (Ret tt, s') ∧
    world s' = world s ∧
    heap (mem s') = heap (mem s) ∧
    devices (mgr (mem s')) = devices (mgr (mem s)) ∧
    ctx_done (mgr (mem s')) = ctx_done (mgr (mem s)) ∧
    wg (mgr (mem s')) = wg (mgr (mem s)) + Z.of_nat (length (devices (mgr (mem s)))) ∧
    goroutines (mem s') =
      goroutines (mem s) ++ map (fun d => (d, Spawned)) (devices (mgr (mem s))) ∧
    trace s' = trace s ++ spawn_events (devices (mgr (mem s))) ∧
    ∃ s'',
      StartMonitoring s' = (Ret tt, s'') ∧
      goroutines (mem s'') =
        goroutines (mem s) ++ map (fun d => (d, Spawned)) (devices (mgr (mem s)))
                           ++ map (fun d => (d, Spawned)) (devices (mgr (mem s))).
Proof.
  intros Hwg.
  assert (Hrun := StartMonitoring_run).
  rewrite (Hrun s Hwg). eexists. split; [reflexivity|].
  cbn [world trace mem heap mgr goroutines devices ctx_done wg].
  split_and!; [done..|].
  rewrite Hrun by (cbn; lia). eexists. split; [reflexivity|].
  cbn. by rewrite <- app_assoc.
Qed.

Lemma closed_clients_close_events h ds :
  closed_clients (close_events h ds) = device_clients h ds.
Proof.
  induction ds as [|d ds IH]; [done|].
  unfold closed_clients, close_events, device_clients in *.
  cbn [flat_map]. rewrite omap_app, IH. cbn [omap].
  destruct (h !! d) as [dev|] eqn:Hd; cbn; rewrite Hd; [destruct (Client dev)|];
    reflexivity.
Qed.

Lemma Close_clients_returns (ds : list ptr) (s : state memory) :
  (∀ d, d ∈ ds → is_Some (heap (mem s) !! d)) →
  ∃ w,
    for_range ds (fun device =>
      let* c := load_Client device in
      match c with
      | Some _ =>
        let* c := load_Client device in
        Client_Close c Background ;; ret tt
      | None => ret tt
      end) s =
    (Ret tt, {| world := w; trace := trace s ++ close_events (heap (mem s)) ds;
                mem := mem s |}).
Proof.
  revert s. induction ds as [|d ds IH]; intros s Hvalid.
  { exists (world s). cbn. unfold ret, close_events. cbn. rewrite app_nil_r.
    by destruct s. }
  destruct (Hvalid d) as [dev Hd]; [by left|].
  cbn [for_range]. unfold bind at 1.
  assert (Hbody : ∃ w,
    (let* c := load_Client d in
     match c with
     | Some _ => let* c := load_Client d in Client_Close c Background ;; ret tt
     | None => ret tt
     end) s =
    (Ret tt, {| world := w;
                trace := trace s ++ close_events (heap (mem s)) [d];
                mem := mem s |})).
  { destruct s as [w t [h m g]]. cbn in Hd. unfold close_events. cbn.
    unfold load_Client, Client_Close. run_mem. rewrite Hd. cbn.
    destruct (Client dev) as [c|] eqn:Hc; cbn.
    - run_mem. rewrite Hd. cbn. rewrite Hc.
      destruct (lib_Close _ _ _) as [err w']. cbn. eexists.
      by rewrite <- !app_assoc.
    - by eexists. }
  destruct Hbody as [w1 ->].
  edestruct IH as [w2 Hrest]; [|rewrite Hrest].
  { intros d0 Hd0. cbn. apply Hvalid. by right. }
  exists w2. cbn. unfold close_events. cbn [flat_map].
  by rewrite <- !app_assoc.
Qed.

(** X10.  [Close] with no monitoring goroutine left to wait for: it cancels the
    context and closes, in the order of the devices, every client that is
    not nil, with [context.Background()].  It resets nothing: every
    device keeps its client and goes on reporting what it reported, so a
    second [Close] closes the same clients once more.  With a goroutine
    still counted by the wait group, the call waits after the
    cancellation. *)
Theorem Close_keeps_devices (s : state memory) :
  (∀ d, d ∈ devices (mgr (mem s)) → is_Some (heap (mem s) !! d)) →
  (wg (mgr (mem s)) ≠ 0 →
   ∃ s',
     Close s = (Blocked, s') ∧
     trace s' = trace s ++ [EvCancel] ∧
     heap (mem s') = heap (mem s) ∧
     mgr (mem s') = {| devices := devices (mgr (mem s)); ctx_done := true;
                       wg := wg (mgr (mem s)) |}) ∧
  (wg (mgr (mem s)) = 0 →
   ∃ s',
     Close s = (Ret tt, s') ∧
     heap (mem s') = heap (mem s) ∧
     goroutines (mem s') = goroutines (mem s) ∧
     mgr (mem s') = {| devices := devices (mgr (mem s)); ctx_done := true; wg := 0 |} ∧
     trace s' = trace s ++ EvCancel :: EvWgWait ::
                  close_events (heap (mem s)) (devices (mgr (mem s))) ∧
     closed_clients (close_events (heap (mem s)) (devices (mgr (mem s)))) =
       device_clients (heap (mem s)) (devices (mgr (mem s))) ∧
     ∃ s'',
       Close s' = (Ret tt, s'') ∧
       trace s'' = trace s' ++ EvCancel :: EvWgWait ::
                     close_events (heap (mem s)) (devices (mgr (mem s)))).
Proof.
  intros Hvalid.
  assert (Hrun : ∀ (s : state memory),
    (∀ d, d ∈ devices (mgr (mem s)) → is_Some (heap (mem s) !! d)) →
    wg (mgr (mem s)) = 0 →
    ∃ w, Close s =
      (Ret tt,
       {| world := w;
          trace := trace s ++ EvCancel :: EvWgWait ::
                     close_events (heap (mem s)) (devices (mgr (mem s)));
          mem := {| heap := heap (mem s);
                    mgr := {| devices := devices (mgr (mem s)); ctx_done := true;
                              wg := 0 |};
                    goroutines := goroutines (mem s) |} |})).
  { clear. intros s Hvalid Hwg.
    unfold Close. erewrite bind_run; [|apply cancel_run].
    assert (Hwait : ∀ s1 : state memory, wg (mgr (mem s1)) = 0 →
      wg_Wait s1 = (Ret tt, {| world := world s1; trace := trace s1 ++ [EvWgWait];
                               mem := mem s1 |})).
    { intros s1 H1. unfold wg_Wait. run_mem. by rewrite H1. }
    erewrite bind_run; [|by apply Hwait].
    unfold Close_clients. erewrite bind_run; [|reflexivity].
    edestruct (Close_clients_returns (devices (mgr (mem s)))) as [w' Hloop];
      [|cbn; cbn in Hloop; rewrite Hloop].
    { exact Hvalid. }
    exists w'. cbn. rewrite Hwg, <- !app_assoc. by destruct s as [? ? [? [? ? ?] ?]]. }
  split.
  - intros Hwg. unfold Close. erewrite bind_run; [|apply cancel_run].
    unfold wg_Wait. run_mem.
    destruct (Z.eqb_spec (wg (mgr (mem s))) 0) as [|_]; [done|].
    eexists. split; [reflexivity|]. by destruct s as [? ? [? [? ? ?] ?]].
  - intros Hwg. destruct (Hrun s Hvalid Hwg) as [w Hs].
    eexists. split; [exact Hs|]. cbn. split_and!; try done.
    { apply closed_clients_close_events. }
    match type of Hs with
    | _ = (_, ?s1) => destruct (Hrun s1) as [w' Hs']; [exact Hvalid|reflexivity|]
    end.
    eexists. split; [exact Hs'|]. done.
Qed.

(** ** The deferred calls of [monitorDevice] *)




(** ** The registry of devices along a run *)

Lemma map_config_insert (h : list DeviceConnection) d dev dev' :
  h !! d = Some dev → config dev' = config dev →
  map config (<[d := dev']> h) = map config h.
Proof.
  intros Hd Hc. rewrite list_fmap_insert, Hc.
  apply list_insert_id. by rewrite list_lookup_fmap, Hd.
Qed.

Lemma added_app l k : added (l ++ k) = added l ++ added k.
Proof. apply omap_app. Qed.

Lemma RegInv_init w calls : RegInv calls (init w calls).
Proof.
  split; [by exists []|]. split; [done|]. split; [|done].
  intros i d g Hi. cbn in Hi. by rewrite lookup_nil in Hi.
Qed.

(** What a call of the main goroutine does to the registry. *)
Lemma run_call_effect c (s s' : state memory) :
  LockInv (mem s) →
  WgInv (mem s) →
  devices (mgr (mem s)) = seq 0 (length (heap (mem s))) →
  run_call c s = (Ret tt, s') →
  match c with
  | CallAddDevice name endpoint localAddr =>
    heap (mem s') = heap (mem s) ++ [new_DeviceConnection name endpoint localAddr] ∧
    devices (mgr (mem s')) = devices (mgr (mem s)) ++ [length (heap (mem s))] ∧
    goroutines (mem s') = goroutines (mem s) ∧
    ctx_done (mgr (mem s')) = ctx_done (mgr (mem s))
  | CallStartMonitoring =>
    heap (mem s') = heap (mem s) ∧
    devices (mgr (mem s')) = devices (mgr (mem s)) ∧
    goroutines (mem s') =
      goroutines (mem s) ++ map (fun d => (d, Spawned)) (devices (mgr (mem s))) ∧
    ctx_done (mgr (mem s')) = ctx_done (mgr (mem s))
  | CallClose =>
    heap (mem s') = heap (mem s) ∧
    devices (mgr (mem s')) = devices (mgr (mem s)) ∧
    goroutines (mem s') = goroutines (mem s) ∧
    ctx_done (mgr (mem s')) = true
  | CallConnectDevice d | CallSetError d _ | CallIsConnected d | CallGetClient d =>
    (d < length (heap (mem s)))%nat ∧
    map config (heap (mem s')) = map config (heap (mem s)) ∧
    devices (mgr (mem s')) = devices (mgr (mem s)) ∧
    goroutines (mem s') = goroutines (mem s) ∧
    ctx_done (mgr (mem s')) = ctx_done (mgr (mem s))
  | CallConnectAll =>
    map config (heap (mem s')) = map config (heap (mem s)) ∧
    devices (mgr (mem s')) = devices (mgr (mem s)) ∧
    goroutines (mem s') = goroutines (mem s) ∧
    ctx_done (mgr (mem s')) = ctx_done (mgr (mem s))
  end.
Proof.
  intros Hlock Hwg Hdevs. destruct c as [n e l| |d|d err|d|d| |]; cbn [run_call].
  - rewrite AddDevice_run. by intros [= <-].
  - intros Hrun. apply bind_Ret_inv in Hrun as (r & s1 & Hrun & Hret).
    unfold ret in Hret. injection Hret as <-.
    unfold ConnectAll in Hrun.
    apply bind_Ret_inv in Hrun as (m & s0 & Hm & Hrun).
    unfold get_mgr, bind, get_mem, ret in Hm. injection Hm as <- <-.
    apply bind_Ret_inv in Hrun as ([] & s2 & Hloop & Hret).
    unfold ret in Hret. injection Hret as _ <-.
    destruct (ConnectAll_loop (devices (mgr (mem s))) s Hlock)
      as (s2' & evs & Hloop' & _ & Hmgr & Hgo & _ & Hframe & _ & Hdev & _).
    { rewrite Hdevs. apply NoDup_seq. }
    { intros d Hd. rewrite Hdevs in Hd. apply elem_of_seq in Hd.
      apply lookup_lt_is_Some. lia. }
    rewrite Hloop' in Hloop. injection Hloop as <-.
    rewrite Hmgr, Hgo. split_and!; try done.
    apply list_eq. intros i. rewrite !list_lookup_fmap.
    destruct (decide (i ∈ devices (mgr (mem s)))) as [Hi|Hi].
    + destruct (Hdev i Hi) as (dev & dev' & H1 & H2 & Hn & He & Hl & _).
      unfold ptr in H1, H2. rewrite H1, H2. cbn. unfold config.
      by rewrite Hn, He, Hl.
    + specialize (Hframe i Hi). unfold ptr in Hframe. by rewrite Hframe.
  - intros Hrun. apply bind_Ret_inv in Hrun as (r & s1 & Hrun & Hret).
    unfold ret in Hret. injection Hret as <-.
    destruct (heap (mem s) !! d) as [dev|] eqn:Hd;
      [|by rewrite connectDevice_invalid in Hrun].
    split; [exact (lookup_lt_Some _ _ _ Hd)|].
    rewrite (connectDevice_run _ _ _ Hd (Hlock _ _ Hd)) in Hrun. cbn zeta in Hrun.
    destruct (lib_NewClient _ _ _).1.2; [by injection Hrun as _ <-|].
    destruct (lib_Connect _ _ _).1; injection Hrun as _ <-; [done|].
    cbn. split_and!; try done. by eapply map_config_insert.
  - destruct (heap (mem s) !! d) as [dev|] eqn:Hd;
      [|by rewrite setError_invalid].
    rewrite (setError_run _ _ _ _ Hd (Hlock _ _ Hd)). intros [= <-].
    split; [exact (lookup_lt_Some _ _ _ Hd)|].
    cbn. split_and!; try done. by eapply map_config_insert.
  - intros Hrun. apply bind_Ret_inv in Hrun as (r & s1 & Hrun & Hret).
    unfold ret in Hret. injection Hret as <-.
    destruct (heap (mem s) !! d) as [dev|] eqn:Hd;
      [|by rewrite IsConnected_invalid in Hrun].
    rewrite (IsConnected_run _ _ _ Hd (Hlock _ _ Hd)) in Hrun. injection Hrun as _ <-.
    split; [exact (lookup_lt_Some _ _ _ Hd)|done].
  - intros Hrun. apply bind_Ret_inv in Hrun as (r & s1 & Hrun & Hret).
    unfold ret in Hret. injection Hret as <-.
    destruct (heap (mem s) !! d) as [dev|] eqn:Hd;
      [|by rewrite GetClient_invalid in Hrun].
    rewrite (GetClient_run _ _ _ Hd (Hlock _ _ Hd)) in Hrun. injection Hrun as _ <-.
    split; [exact (lookup_lt_Some _ _ _ Hd)|done].
  - rewrite StartMonitoring_run; [by intros [= <-]|].
    rewrite Hwg. apply running_nonneg.
  - rewrite cancel_run. by intros [= <-].
Qed.

Lemma running_pos g i d st :
  g !! i = Some (d, st) → is_running st = true → 1 ≤ running g.
Proof.
  revert i. induction g as [|[d0 st0] g IH]; intros i; [by rewrite lookup_nil|].
  destruct i as [|i]; cbn.
  - intros [= -> ->] ->. pose proof (running_nonneg g). lia.
  - intros Hi Hr. specialize (IH _ Hi Hr). destruct (is_running st0); lia.
Qed.

Lemma monitorDevice_health_returns d client (s : state memory) dev :
  heap (mem s) !! d = Some dev →
  ∃ s1, monitorDevice_health d client s = (Ret tt, s1) ∧ mem s1 = mem s.
Proof.
  intros Hd. destruct s as [w t [h m g]]. cbn in Hd.
  unfold monitorDevice_health, healthCheck. run_mem. rewrite Hd. cbn.
  destruct (lib_Read _ _ _ _) as [[resp [e|]] w']; cbn; [by eexists|].
  destruct (match Results resp with [] => true | r :: _ => _ end); cbn; by eexists.
Qed.

Lemma set_goroutines_id (u : memory) i d g :
  goroutines u !! i = Some (d, g) →
  set_goroutines (<[i := (d, g)]> (goroutines u)) u = u.
Proof. intros Hi. destruct u as [h m gs]. unfold set_goroutines. cbn in *. by rewrite list_insert_id. Qed.

(** What a segment of a monitoring goroutine does, by the status of the
    goroutine and, at its [select], by the branch taken. *)
Lemma monitor_segment_run i c (s : state memory) :
  LockInv (mem s) →
  WgInv (mem s) →
  (∀ i d g, goroutines (mem s) !! i = Some (d, g) → is_Some (heap (mem s) !! d)) →
  match goroutines (mem s) !! i with
  | Some (d, Spawned) =>
    monitor_segment i c s =
    (Ret tt,
     {| world := world s; trace := trace s ++ [EvNewTicker (10 * Second)];
        mem := set_goroutines (<[i := (d, Looping)]> (goroutines (mem s))) (mem s) |})
  | Some (d, Looping) =>
    match c with
    | CaseTick =>
      ∃ dev, heap (mem s) !! d = Some dev ∧
        monitor_segment i c s =
        (Ret tt,
         {| world := world s;
            trace := trace s ++ [EvRLock d; EvLoad d FConnected; EvRUnlock d];
            mem := set_goroutines
                     (<[i := (d, if Connected dev then Checked else Looping)]>
                        (goroutines (mem s))) (mem s) |})
    | CaseDone =>
      if ctx_done (mgr (mem s)) then
        monitor_segment i c s =
        (Ret tt,
         {| world := world s; trace := trace s ++ [EvTickerStop; EvWgDone];
            mem := {| heap := heap (mem s);
                      mgr := {| devices := devices (mgr (mem s));
                                ctx_done := true;
                                wg := wg (mgr (mem s)) - 1 |};
                      goroutines := <[i := (d, Finished)]> (goroutines (mem s)) |} |})
      else monitor_segment i c s = (Blocked, s)
    end
  | Some (d, Checked) =>
    ∃ dev, heap (mem s) !! d = Some dev ∧
      monitor_segment i c s =
      (Ret tt,
       {| world := world s;
          trace := trace s ++ [EvRLock d; EvLoad d FClient; EvRUnlock d];
          mem := set_goroutines (<[i := (d, Fetched (Client dev))]> (goroutines (mem s)))
                   (mem s) |})
  | Some (d, Fetched client) =>
    ∃ dev s1, heap (mem s) !! d = Some dev ∧
      match client with
      | None => ret tt
      | Some _ => monitorDevice_health d client
      end s = (Ret tt, s1) ∧
      mem s1 = mem s ∧
      monitor_segment i c s =
      (Ret tt,
       {| world := world s1; trace := trace s1;
          mem := set_goroutines (<[i := (d, Looping)]> (goroutines (mem s))) (mem s) |})
  | _ => monitor_segment i c s = (Blocked, s)
  end.
Proof.
  intros Hlock Hwg Hvalid.
  destruct (goroutines (mem s) !! i) as [[d [| | |client|]]|] eqn:Hi.
  - destruct s as [w t [h m g]]. cbn in *. unfold monitor_segment, monitorDevice_enter,
      set_gstatus. run_mem. rewrite Hi. cbn. by rewrite Hi.
  - destruct c.
    + destruct (ctx_done (mgr (mem s))) eqn:Hc.
      * assert (1 ≤ wg (mgr (mem s))) as Hpos.
        { rewrite Hwg. by eapply running_pos. }
        destruct s as [w t [h [ds cd n] g]]. cbn in *. subst cd.
        unfold monitor_segment, monitorDevice_return, set_gstatus. run_mem.
        rewrite Hi. cbn. destruct (Z.ltb_spec (n - 1) 0); [lia|]. cbn.
        rewrite Hi. by rewrite <- app_assoc.
      * destruct s as [w t [h [ds cd n] g]]. cbn in *. subst cd.
        unfold monitor_segment. run_mem. by rewrite Hi.
    + destruct (Hvalid _ _ _ Hi) as [dev Hd]. exists dev. split; [done|].
      unfold monitor_segment. erewrite bind_run; [|reflexivity]. rewrite Hi.
      erewrite bind_run; [|exact (IsConnected_run _ _ _ Hd (Hlock _ _ Hd))].
      destruct (Connected dev); cbn [negb].
      * by rewrite (set_gstatus_run _ _ _ d Looping).
      * unfold ret. by rewrite set_goroutines_id.
  - destruct (Hvalid _ _ _ Hi) as [dev Hd]. exists dev. split; [done|].
    unfold monitor_segment. erewrite bind_run; [|reflexivity]. rewrite Hi.
    erewrite bind_run; [|exact (GetClient_run _ _ _ Hd (Hlock _ _ Hd))].
    by rewrite (set_gstatus_run _ _ _ d Checked).
  - destruct (Hvalid _ _ _ Hi) as [dev Hd].
    assert (∃ s1, match client with
                  | None => ret tt
                  | Some _ => monitorDevice_health d client
                  end s = (Ret tt, s1) ∧ mem s1 = mem s) as (s1 & Hrun & Hmem).
    { destruct client; [by eapply monitorDevice_health_returns|by exists s]. }
    exists dev, s1. split; [done|]. split; [done|]. split; [done|].
    unfold monitor_segment. erewrite bind_run; [|reflexivity]. rewrite Hi.
    erewrite bind_run; [|exact Hrun].
    rewrite (set_gstatus_run _ _ _ d (Fetched client)) by (by rewrite Hmem).
    by rewrite Hmem.
  - destruct s as [w t [h m g]]. cbn in *. unfold monitor_segment. run_mem.
    by rewrite Hi.
  - destruct s as [w t [h m g]]. cbn in *. unfold monitor_segment. run_mem.
    by rewrite Hi.
Qed.

Lemma step_monitor_run i c sys sys' :
  step (RunMonitor i c) sys = Some sys' →
  monitor_segment i c (st sys) = (Ret tt, st sys') ∧
  script sys' = script sys ∧ closing sys' = closing sys.
Proof. intros Hs. by apply segment_inv in Hs as ([] & Hrun & Hscr & Hcl). Qed.

(** A segment of a monitoring goroutine changes the status of that
    goroutine, and nothing else in the memory but the counter of the wait
    group. *)
Lemma monitor_segment_effect i c (s s' : state memory) :
  LockInv (mem s) →
  WgInv (mem s) →
  (∀ i d g, goroutines (mem s) !! i = Some (d, g) → is_Some (heap (mem s) !! d)) →
  monitor_segment i c s = (Ret tt, s') →
  ∃ d g g',
    goroutines (mem s) !! i = Some (d, g) ∧
    heap (mem s') = heap (mem s) ∧
    devices (mgr (mem s')) = devices (mgr (mem s)) ∧
    ctx_done (mgr (mem s')) = ctx_done (mgr (mem s)) ∧
    goroutines (mem s') = <[i := (d, g')]> (goroutines (mem s)).
Proof.
  intros Hlock Hwg Hvalid Hrun.
  pose proof (monitor_segment_run i c s Hlock Hwg Hvalid) as Hseg.
  destruct (goroutines (mem s) !! i) as [[d [| | |client|]]|] eqn:Hi;
    [| | | |by rewrite Hseg in Hrun..].
  - rewrite Hseg in Hrun. injection Hrun as <-. by exists d, Spawned, Looping.
  - destruct c.
    + destruct (ctx_done (mgr (mem s))) eqn:Hc; [|by rewrite Hseg in Hrun].
      rewrite Hseg in Hrun. injection Hrun as <-. by exists d, Looping, Finished.
    + destruct Hseg as (dev & Hd & Hseg). rewrite Hseg in Hrun. injection Hrun as <-.
      by eexists d, Looping, _.
  - destruct Hseg as (dev & Hd & Hseg). rewrite Hseg in Hrun. injection Hrun as <-.
    by eexists d, Checked, _.
  - destruct Hseg as (dev & s1 & Hd & _ & _ & Hseg). rewrite Hseg in Hrun.
    injection Hrun as <-. by exists d, (Fetched client), Looping.
Qed.

Lemma RegInv_valid calls sys :
  RegInv calls sys →
  (∀ d, d ∈ devices (mgr (mem (st sys))) → is_Some (heap (mem (st sys)) !! d)) ∧
  NoDup (devices (mgr (mem (st sys)))) ∧
  (∀ i d g, goroutines (mem (st sys)) !! i = Some (d, g) →
            is_Some (heap (mem (st sys)) !! d)).
Proof.
  intros (_ & Hdevs & Hgo & _). split_and!.
  - intros d Hd. rewrite Hdevs in Hd. apply elem_of_seq in Hd.
    apply lookup_lt_is_Some. lia.
  - rewrite Hdevs. apply NoDup_seq.
  - intros i d g Hi. apply lookup_lt_is_Some. eauto.
Qed.

Lemma calls_ok_tail n c rest :
  calls_ok n (c :: rest) = true →
  calls_ok (if c is CallAddDevice _ _ _ then S n else n) rest = true.
Proof. destruct c; cbn; try done; by intros [_ ?]%andb_prop. Qed.

Lemma length_heap_config (h h' : list DeviceConnection) :
  map config h' = map config h → length h' = length h.
Proof. intros H. by rewrite <- (length_map config), H, length_map. Qed.

(** A call that adds no device and leaves the registry as it is. *)
Lemma RegInv_frame calls sys sys' c :
  RegInv calls sys →
  script sys = c :: script sys' →
  closing sys' = false →
  (if c is CallAddDevice _ _ _ then False else True) →
  map config (heap (mem (st sys'))) = map config (heap (mem (st sys))) →
  devices (mgr (mem (st sys'))) = devices (mgr (mem (st sys))) →
  goroutines (mem (st sys')) = goroutines (mem (st sys)) →
  RegInv calls sys'.
Proof.
  intros ((made & Hcalls & Hcfg) & Hdevs & Hgo & Hok & Hctx) Hscr Hcl Hc Hh Hd Hg.
  pose proof (length_heap_config _ _ Hh) as Hlen.
  unfold RegInv. rewrite Hh, Hd, Hg, Hlen, Hcl. rewrite Hscr in Hok, Hcalls.
  split; [|split; [done|split; [done|split; [|done]]]].
  - exists (made ++ [c]). rewrite <- app_assoc. split; [done|].
    rewrite added_app, Hcfg. destruct c; try done; by rewrite app_nil_r.
  - intros H0. specialize (Hok H0). apply calls_ok_tail in Hok. by destruct c.
Qed.

(** The registry is kept by every step. *)
Lemma RegInv_step calls ch sys sys' :
  SysInv sys → RegInv calls sys → step ch sys = Some sys' → RegInv calls sys'.
Proof.
  intros (Hlock & Hwg & _) Hreg Hstep.
  pose proof (RegInv_valid _ _ Hreg) as (Hvalid & Hnd & Hgvalid).
  pose proof Hreg as ((made & Hcalls & Hcfg) & Hdevs & Hgo & Hok & Hctx).
  destruct ch as [|i c].
  - destruct (closing sys) eqn:Hcl.
    + apply step_main_closing in Hstep as (Hrun & Hscr & Hcl'); [|done].
      apply Close_rest_run in Hrun as (_ & Hmem & _).
      unfold RegInv. rewrite Hmem, Hscr, Hcl'.
      split; [by exists made|]. done.
    + apply step_main_open in Hstep as (_ & c & Hscr & Hrun & Hcl'); [|done].
      pose proof (run_call_effect _ _ _ Hlock Hwg Hdevs Hrun) as Heff.
      destruct c as [n e l| |d|d err|d|d| |];
        try (by eapply RegInv_frame; try done; apply Heff).
      * destruct Heff as (Hh & Hd & Hg & Hc). rewrite Hscr in Hok, Hcalls.
        unfold RegInv. rewrite Hh, Hd, Hg, Hcl', length_app, Nat.add_1_r.
        split; [|split; [|split; [|split; [|done]]]].
        -- exists (made ++ [CallAddDevice n e l]). rewrite <- app_assoc.
           split; [done|]. by rewrite map_app, added_app, Hcfg.
        -- by rewrite Hdevs, seq_S.
        -- intros i d g Hi. specialize (Hgo _ _ _ Hi). lia.
        -- intros H0. exact (calls_ok_tail _ _ _ (Hok H0)).
      * destruct Heff as (Hh & Hd & Hg & Hc). rewrite Hscr in Hok, Hcalls.
        unfold RegInv. rewrite Hh, Hd, Hg, Hcl'.
        split; [|split; [done|split; [|split; [|done]]]].
        -- exists (made ++ [CallStartMonitoring]). rewrite <- app_assoc.
           split; [done|]. by rewrite added_app, Hcfg, app_nil_r.
        -- intros i d g Hi. apply lookup_app_Some in Hi as [Hi|[_ Hi]]; [eauto|].
           apply list_lookup_fmap_Some in Hi as (d' & Heq & Hd'). simplify_eq.
           apply list_elem_of_lookup_2 in Hd'. rewrite Hdevs in Hd'.
           apply elem_of_seq in Hd'. lia.
        -- intros H0. exact (calls_ok_tail _ _ _ (Hok H0)).
      * destruct Heff as (Hh & Hd & Hg & Hc). rewrite Hscr in Hok, Hcalls.
        unfold RegInv. rewrite Hh, Hd, Hg, Hcl'.
        split; [|split; [done|split; [done|split; [|done]]]].
        -- exists (made ++ [CallClose]). rewrite <- app_assoc.
           split; [done|]. by rewrite added_app, Hcfg, app_nil_r.
        -- intros H0. exact (calls_ok_tail _ _ _ (Hok H0)).
  - apply step_monitor_run in Hstep as (Hrun & Hscr & Hcl).
    destruct (monitor_segment_effect i c _ _ Hlock Hwg Hgvalid Hrun)
      as (d & g & g' & Hi & Hh & Hd & Hc & Hg).
    unfold RegInv. rewrite Hscr, Hcl, Hh, Hd, Hc, Hg.
    split; [by exists made|]. split; [done|]. split; [|done].
    intros j d' g0 Hj.
    apply list_lookup_insert_Some in Hj as [(Hij & Heq & _)|[_ Hj]];
      [simplify_eq|]; eauto.
Qed.

Lemma RegInv_exec w calls l sys :
  exec l (init w calls) = Some sys → SysInv sys ∧ RegInv calls sys.
Proof.
  apply (exec_invariant (fun sys => SysInv sys ∧ RegInv calls sys)).
  - intros ch sys0 sys1 [H1 H2] Hs. split; [by eapply SysInv_step|by eapply RegInv_step].
  - split; [apply SysInv_init|apply RegInv_init].
Qed.

(** ** Which segments can run *)

Lemma step_is_Some ch sys :
  is_Some (step ch sys) ↔ ∃ s', next_segment ch sys (st sys) = (Ret tt, s').
Proof.
  assert (Hseg : ∀ (m : M memory unit) scr cl,
    is_Some (segment m sys scr cl) ↔ ∃ s', m (st sys) = (Ret tt, s')).
  { intros m scr cl. unfold segment.
    destruct (m (st sys)) as [[[]|c| |] s']; split;
      first [by eauto | intros [? ?]; discriminate | intros [? [= ]] ]. }
  destruct ch as [|i c]; unfold step, next_segment.
  - destruct (closing sys); [apply Hseg|].
    destruct (script sys) as [|c rest].
    + split; [intros [? ?]; discriminate|intros [? [= ]]].
    + destruct c; first [apply Hseg | apply (Hseg cancel)].
  - apply Hseg.
Qed.

Lemma Close_rest_outcome (s : state memory) :
  (∀ d, d ∈ devices (mgr (mem s)) → is_Some (heap (mem s) !! d)) →
  if wg (mgr (mem s)) =? 0 then ∃ s', Close_rest s = (Ret tt, s')
  else Close_rest s = (Blocked, s).
Proof.
  intros Hvalid. unfold Close_rest.
  destruct (Z.eqb_spec (wg (mgr (mem s))) 0) as [Hwg|Hwg].
  - assert (Hwait : wg_Wait s = (Ret tt, {| world := world s; trace := trace s ++ [EvWgWait];
                                            mem := mem s |})).
    { unfold wg_Wait. run_mem. by rewrite Hwg. }
    erewrite bind_run; [|exact Hwait].
    unfold Close_clients. erewrite bind_run; [|reflexivity].
    edestruct (Close_clients_returns (devices (mgr (mem s)))) as [w' Hloop];
      [|cbn; cbn in Hloop; rewrite Hloop; eauto].
    exact Hvalid.
  - unfold wg_Wait. run_mem.
    by destruct (Z.eqb_spec (wg (mgr (mem s))) 0).
Qed.

(** A call whose pointer, if it has one, is that of a device returns. *)
Lemma run_call_returns c rest (s : state memory) :
  LockInv (mem s) →
  WgInv (mem s) →
  devices (mgr (mem s)) = seq 0 (length (heap (mem s))) →
  calls_ok (length (heap (mem s))) (c :: rest) = true →
  ∃ s', run_call c s = (Ret tt, s').
Proof.
  intros Hlock Hwg Hdevs Hok.
  assert (Hptr : ∀ d, (d <? length (heap (mem s)))%nat = true →
                      ∃ dev, heap (mem s) !! d = Some dev ∧ mu dev = unlocked).
  { intros d Hd. apply Nat.ltb_lt in Hd.
    destruct (lookup_lt_is_Some_2 _ _ Hd) as [dev Hdev]. eauto. }
  destruct c as [n e l| |d|d err|d|d| |]; cbn in Hok; cbn [run_call].
  - rewrite AddDevice_run. eauto.
  - destruct (ConnectAll_loop (devices (mgr (mem s))) s Hlock)
      as (s' & evs & Hloop & _).
    { rewrite Hdevs. apply NoDup_seq. }
    { intros d Hd. rewrite Hdevs in Hd. apply elem_of_seq in Hd.
      apply lookup_lt_is_Some. lia. }
    unfold ConnectAll. erewrite bind_run; [|erewrite bind_run; [|reflexivity]].
    2: { erewrite bind_run; [|exact Hloop]. reflexivity. }
    eauto.
  - apply andb_prop in Hok as [Hd _]. destruct (Hptr d Hd) as (dev & Hdev & Hmu).
    assert (∃ r s1, connectDevice d s = (Ret r, s1)) as (r & s1 & Hrun).
    { rewrite (connectDevice_run _ _ _ Hdev Hmu). cbn zeta.
      destruct (lib_NewClient _ _ _).1.2; [by eauto|].
      destruct (lib_Connect _ _ _).1; eauto. }
    erewrite bind_run; [|exact Hrun]. eauto.
  - apply andb_prop in Hok as [Hd _]. destruct (Hptr d Hd) as (dev & Hdev & Hmu).
    rewrite (setError_run _ _ _ _ Hdev Hmu). eauto.
  - apply andb_prop in Hok as [Hd _]. destruct (Hptr d Hd) as (dev & Hdev & Hmu).
    erewrite bind_run; [|by apply IsConnected_run]. eauto.
  - apply andb_prop in Hok as [Hd _]. destruct (Hptr d Hd) as (dev & Hdev & Hmu).
    erewrite bind_run; [|by apply GetClient_run]. eauto.
  - rewrite StartMonitoring_run; [by eauto|]. rewrite Hwg. apply running_nonneg.
  - rewrite cancel_run. eauto.
Qed.

Lemma running_all_finished g :
  (∀ i d st, g !! i = Some (d, st) → st = Finished) → running g = 0.
Proof.
  induction g as [|[d st] g IH]; intros Hall; cbn; [done|].
  rewrite (Hall 0%nat d st eq_refl). cbn. apply IH.
  intros i d' st' Hi. by apply (Hall (S i) d' st').
Qed.

(** ** What holds along every run *)

(** X12.  At every point of every run the heap holds the devices that the
    calls of [AddDevice] made so far have added, in the order of the
    calls and with the name, the endpoint and the local address they were
    given; the manager lists them all, in that order; and every
    monitoring goroutine watches one of them.  No call removes, renames or
    reorders a device, and two devices added with the same name are two
    devices. *)
Theorem devices_registered_in_order w calls l sys :
  exec l (init w calls) = Some sys →
  ∃ made,
    calls = made ++ script sys ∧
    map config (heap (mem (st sys))) = added made ∧
    devices (mgr (mem (st sys))) = seq 0 (length (added made)) ∧
    ∀ i d g, goroutines (mem (st sys)) !! i = Some (d, g) →
             (d < length (added made))%nat.
Proof.
  intros Hexec. apply RegInv_exec in Hexec as [_ Hreg].
  destruct Hreg as ((made & Hcalls & Hcfg) & Hdevs & Hgo & _).
  exists made. rewrite <- Hcfg, length_map. done.
Qed.

(** X13.  The counter of the wait group is, at every point of every run, the
    number of monitoring goroutines that have not returned: it is never
    negative, and it is zero exactly when they all have returned.  While
    the main goroutine is inside [Close], the context is cancelled. *)
Theorem wait_group_counts_goroutines w calls l sys :
  exec l (init w calls) = Some sys →
  wg (mgr (mem (st sys))) = running (goroutines (mem (st sys))) ∧
  0 ≤ wg (mgr (mem (st sys))) ∧
  (wg (mgr (mem (st sys))) = 0 ↔
     ∀ i d g, goroutines (mem (st sys)) !! i = Some (d, g) → g = Finished) ∧
  (closing sys = true → ctx_done (mgr (mem (st sys))) = true).
Proof.
  intros Hexec. apply RegInv_exec in Hexec as [(_ & Hwg & _) (_ & _ & _ & _ & Hctx)].
  unfold WgInv in Hwg. rewrite Hwg. split; [done|]. split; [apply running_nonneg|].
  split; [|done]. split.
  - intros H0 i d g Hi. by eapply running_zero.
  - apply running_all_finished.
Qed.

(** X14.  The monitoring writes to no device.  A segment of a monitoring
    goroutine leaves every device, the list of devices and the
    cancellation as they are; what it adds to the trace are reads under
    the read lock, the health check, its output, and the events of its
    ticker and of the wait group. *)
Theorem monitoring_never_writes w calls l sys i c sys' :
  exec l (init w calls) = Some sys →
  step (RunMonitor i c) sys = Some sys' →
  heap (mem (st sys')) = heap (mem (st sys)) ∧
  devices (mgr (mem (st sys'))) = devices (mgr (mem (st sys))) ∧
  ctx_done (mgr (mem (st sys'))) = ctx_done (mgr (mem (st sys))) ∧
  (∀ j, j ≠ i → goroutines (mem (st sys')) !! j = goroutines (mem (st sys)) !! j) ∧
  ∃ evs, trace (st sys') = trace (st sys) ++ evs ∧
         Forall (fun ev => monitor_event ev = true) evs.
Proof.
  intros Hexec Hstep. apply RegInv_exec in Hexec as [Hsys Hreg].
  pose proof (RegInv_valid _ _ Hreg) as (_ & _ & Hgvalid).
  pose proof Hsys as (Hlock & Hwg & _).
  pose proof (step_monitor _ _ _ _ Hstep) as (Hok & _).
  destruct (Hok Hlock) as (_ & _ & _ & _ & evs & Ht & Hev & _).
  apply step_monitor_run in Hstep as (Hrun & _).
  destruct (monitor_segment_effect i c _ _ Hlock Hwg Hgvalid Hrun)
    as (d & g & g' & Hi & Hh & Hd & Hc & Hg).
  split_and!; try done; [|by exists evs].
  intros j Hj. rewrite Hg. by rewrite list_lookup_insert_ne.
Qed.

(** X15.  No run panics.  With a script that passes
    pointers to devices only, whatever the scheduler picks at any point
    of a run either runs or has to wait.  The main goroutine can make its
    next call whenever it is not inside [Close]; inside [Close] it can go
    on exactly when the wait group is at zero.  A monitoring goroutine
    that has not returned can always serve a tick, and can return exactly
    when the context is cancelled; inside an iteration it can always go
    on. *)
Theorem segments_run_or_wait w calls l sys :
  calls_ok 0 calls = true →
  exec l (init w calls) = Some sys →
  (∀ ch, ∃ r s', next_segment ch sys (st sys) = (r, s') ∧ (r = Ret tt ∨ r = Blocked)) ∧
  (closing sys = false → script sys ≠ [] → is_Some (step RunMain sys)) ∧
  (closing sys = true →
     (is_Some (step RunMain sys) ↔ wg (mgr (mem (st sys))) = 0)) ∧
  (∀ i d c, goroutines (mem (st sys)) !! i = Some (d, Spawned) →
     is_Some (step (RunMonitor i c) sys)) ∧
  (∀ i d, goroutines (mem (st sys)) !! i = Some (d, Looping) →
     is_Some (step (RunMonitor i CaseTick) sys) ∧
     (is_Some (step (RunMonitor i CaseDone) sys) ↔
        ctx_done (mgr (mem (st sys))) = true)) ∧
  (∀ i d g c, goroutines (mem (st sys)) !! i = Some (d, g) →
     g = Checked ∨ (∃ client, g = Fetched client) →
     is_Some (step (RunMonitor i c) sys)).
Proof.
  intros Hcalls Hexec. apply RegInv_exec in Hexec as [Hsys Hreg].
  pose proof (RegInv_valid _ _ Hreg) as (Hvalid & _ & Hgvalid).
  pose proof Hsys as (Hlock & Hwg & _).
  destruct Hreg as (_ & Hdevs & _ & Hok & _). specialize (Hok Hcalls).
  pose proof (Close_rest_outcome (st sys) Hvalid) as Hclose.
  assert (Hmon := fun i c => monitor_segment_run i c (st sys) Hlock Hwg Hgvalid).
  assert (Hmain : closing sys = false → script sys ≠ [] →
                  ∃ s', next_segment RunMain sys (st sys) = (Ret tt, s')).
  { intros Hcl Hscr. unfold next_segment. rewrite Hcl.
    destruct (script sys) as [|c rest]; [done|]. by eapply run_call_returns. }
  split_and!.
  - intros [|i c].
    + destruct (closing sys) eqn:Hcl.
      * unfold next_segment. rewrite Hcl.
        destruct (wg (mgr (mem (st sys))) =? 0); [destruct Hclose as [s' ->]|]; eauto.
      * destruct (script sys) as [|c rest] eqn:Hscr.
        -- unfold next_segment. rewrite Hcl, Hscr. unfold block. eauto.
        -- destruct Hmain as [s' ->]; [done|congruence|]. eauto.
    + specialize (Hmon i c). cbn [next_segment].
      destruct (goroutines (mem (st sys)) !! i) as [[d [| | |client|]]|];
        [|destruct c|..]; eauto.
      * destruct (ctx_done _); eauto.
      * destruct Hmon as (dev & _ & ->). eauto.
      * destruct Hmon as (dev & _ & ->). eauto.
      * destruct Hmon as (dev & s1 & _ & _ & _ & ->). eauto.
  - intros Hcl Hscr. apply step_is_Some. by apply Hmain.
  - intros Hcl. rewrite step_is_Some. unfold next_segment. rewrite Hcl.
    destruct (Z.eqb_spec (wg (mgr (mem (st sys)))) 0) as [H0|H0].
    + split; [done|]. intros _. by destruct Hclose as [s' ->]; eauto.
    + rewrite Hclose. split; [by intros [? [= ]]|done].
  - intros i d c Hi. apply step_is_Some. specialize (Hmon i c).
    rewrite Hi in Hmon. cbn [next_segment]. eauto.
  - intros i d Hi. rewrite !step_is_Some. cbn [next_segment]. split.
    + specialize (Hmon i CaseTick). rewrite Hi in Hmon.
      destruct Hmon as (dev & _ & ->). eauto.
    + specialize (Hmon i CaseDone). rewrite Hi in Hmon.
      destruct (ctx_done _); rewrite Hmon; split; try done; eauto.
      by intros [? [= ]].
  - intros i d g c Hi Hg. apply step_is_Some. specialize (Hmon i c).
    rewrite Hi in Hmon. cbn [next_segment].
    destruct Hg as [->|[client ->]].
    + destruct Hmon as (dev & _ & ->). eauto.
    + destruct Hmon as (dev & s1 & _ & _ & _ & ->). eauto.
Qed.

(** ** [Close] can always return *)

Lemma insert_middle {A} (pre : list A) x y g :
  <[length pre := y]> (pre ++ x :: g) = pre ++ y :: g.
Proof. rewrite insert_app_r_alt by lia. by rewrite Nat.sub_diag. Qed.

Lemma monitor_events_close_nothing (evs : list event) :
  Forall (fun ev => monitor_event ev = true) evs → closed_clients evs = [].
Proof.
  induction 1 as [|ev evs Hev _ IH]; [done|].
  unfold closed_clients in *. cbn. rewrite IH. by destruct ev.
Qed.

(** The events of a run in which only monitoring goroutines are
    scheduled. *)
Lemma monitors_run_events l sys sys' :
  SysInv sys →
  Forall (fun ch => ch ≠ RunMain) l →
  exec l sys = Some sys' →
  ∃ evs, trace (st sys') = trace (st sys) ++ evs ∧
         Forall (fun ev => monitor_event ev = true) evs.
Proof.
  revert sys. induction l as [|ch l IH]; intros sys Hsys Hl; cbn.
  { intros [= <-]. exists []. by rewrite app_nil_r. }
  apply Forall_cons in Hl as [Hch Hl].
  destruct (step ch sys) as [sys1|] eqn:Hs; [|done]. intros Hexec.
  destruct ch as [|i c]; [done|].
  pose proof (step_monitor _ _ _ _ Hs) as (Hok & _).
  destruct (Hok (proj1 Hsys)) as (_ & _ & _ & _ & evs1 & Ht1 & Hev1 & _).
  destruct (IH sys1 (SysInv_step _ _ _ Hsys Hs) Hl Hexec) as (evs2 & Ht2 & Hev2).
  exists (evs1 ++ evs2). rewrite Ht2, Ht1, <- app_assoc. split; [done|].
  by apply Forall_app.
Qed.

Lemma drain_monitors g i : Forall (fun ch => ch ≠ RunMain) (drain g i).
Proof.
  revert i. induction g as [|[d status] g IH]; intros i; cbn; [constructor|].
  destruct status; repeat (constructor; [done|]); apply IH.
Qed.

Lemma step_monitor_enabled i c sys s' :
  monitor_segment i c (st sys) = (Ret tt, s') →
  step (RunMonitor i c) sys =
    Some {| st := s'; script := script sys; closing := closing sys |}.
Proof. intros Hrun. unfold step, segment. by rewrite Hrun. Qed.

Lemma exec_app l1 l2 sys :
  exec (l1 ++ l2) sys =
  match exec l1 sys with
  | Some sys' => exec l2 sys'
  | None => None
  end.
Proof.
  revert sys. induction l1 as [|ch l1 IH]; intros sys; cbn; [done|].
  by destruct (step ch sys).
Qed.

Lemma drain_cons d g0 (g : list (ptr * gstatus)) i :
  drain ((d, g0) :: g) i = drain [(d, g0)] i ++ drain g (S i).
Proof. by destruct g0. Qed.

(** Once the context is cancelled, a goroutine that has not returned can
    run its next segment with the branch of the cancellation chosen: it
    moves on in its iteration, or from its [select] to its return. *)
Lemma monitor_step_cancelled calls i sys d g0 :
  SysInv sys → RegInv calls sys →
  ctx_done (mgr (mem (st sys))) = true →
  goroutines (mem (st sys)) !! i = Some (d, g0) →
  is_running g0 = true →
  ∃ sys1 g1,
    step (RunMonitor i CaseDone) sys = Some sys1 ∧
    SysInv sys1 ∧ RegInv calls sys1 ∧
    script sys1 = script sys ∧ closing sys1 = closing sys ∧
    heap (mem (st sys1)) = heap (mem (st sys)) ∧
    ctx_done (mgr (mem (st sys1))) = true ∧
    goroutines (mem (st sys1)) = <[i := (d, g1)]> (goroutines (mem (st sys))) ∧
    match g0 with
    | Spawned => g1 = Looping
    | Looping => g1 = Finished
    | Checked => ∃ client, g1 = Fetched client
    | Fetched _ => g1 = Looping
    | Finished => False
    end.
Proof.
  intros Hsys Hreg Hctx Hi Hr.
  pose proof (RegInv_valid _ _ Hreg) as (_ & _ & Hgvalid).
  pose proof Hsys as (Hlock & Hwg & _).
  pose proof (monitor_segment_run i CaseDone (st sys) Hlock Hwg Hgvalid) as Hseg.
  rewrite Hi in Hseg.
  assert (∃ s' g1, monitor_segment i CaseDone (st sys) = (Ret tt, s') ∧
            heap (mem s') = heap (mem (st sys)) ∧
            ctx_done (mgr (mem s')) = true ∧
            goroutines (mem s') = <[i := (d, g1)]> (goroutines (mem (st sys))) ∧
            match g0 with
            | Spawned => g1 = Looping
            | Looping => g1 = Finished
            | Checked => ∃ client, g1 = Fetched client
            | Fetched _ => g1 = Looping
            | Finished => False
            end) as (s' & g1 & Hrun & Hh & Hc & Hg & Hnext).
  { destruct g0 as [| | |client|]; [| | | |done].
    - eexists _, _. split; [exact Hseg|]. cbn. done.
    - rewrite Hctx in Hseg. eexists _, _. split; [exact Hseg|]. cbn. done.
    - destruct Hseg as (dev & _ & Hseg). eexists _, _. split; [exact Hseg|]. cbn.
      split_and!; try done. by eexists.
    - destruct Hseg as (dev & s1 & _ & _ & _ & Hseg).
      eexists _, _. split; [exact Hseg|]. cbn. done. }
  apply step_monitor_enabled in Hrun. eexists _, g1. split; [exact Hrun|].
  split; [by eapply SysInv_step|]. split; [by eapply RegInv_step|]. cbn. done.
Qed.

(** The goroutine [i] run until it has returned. *)
Lemma drain_one calls i sys d g0 :
  SysInv sys → RegInv calls sys →
  ctx_done (mgr (mem (st sys))) = true →
  goroutines (mem (st sys)) !! i = Some (d, g0) →
  ∃ sys',
    exec (drain [(d, g0)] i) sys = Some sys' ∧
    SysInv sys' ∧ RegInv calls sys' ∧
    script sys' = script sys ∧ closing sys' = closing sys ∧
    heap (mem (st sys')) = heap (mem (st sys)) ∧
    ctx_done (mgr (mem (st sys'))) = true ∧
    goroutines (mem (st sys')) = <[i := (d, Finished)]> (goroutines (mem (st sys))).
Proof.
  intros Hsys Hreg Hctx Hi.
  assert (Hlooping : ∀ sys0,
    SysInv sys0 → RegInv calls sys0 →
    ctx_done (mgr (mem (st sys0))) = true →
    goroutines (mem (st sys0)) !! i = Some (d, Looping) →
    ∃ sys',
      exec [RunMonitor i CaseDone] sys0 = Some sys' ∧
      SysInv sys' ∧ RegInv calls sys' ∧
      script sys' = script sys0 ∧ closing sys' = closing sys0 ∧
      heap (mem (st sys')) = heap (mem (st sys0)) ∧
      ctx_done (mgr (mem (st sys'))) = true ∧
      goroutines (mem (st sys')) = <[i := (d, Finished)]> (goroutines (mem (st sys0)))).
  { intros sys0 Hsys0 Hreg0 Hctx0 Hi0.
    destruct (monitor_step_cancelled calls i sys0 d Looping Hsys0 Hreg0 Hctx0 Hi0 eq_refl)
      as (sys1 & g1 & Hs & ? & ? & ? & ? & ? & ? & Hg & ->).
    exists sys1. cbn [exec]. by rewrite Hs. }
  assert (Hthen : ∀ sys0 g0 l,
    SysInv sys0 → RegInv calls sys0 →
    ctx_done (mgr (mem (st sys0))) = true →
    goroutines (mem (st sys0)) !! i = Some (d, g0) →
    is_running g0 = true →
    (∀ sys1 g1,
       SysInv sys1 → RegInv calls sys1 →
       ctx_done (mgr (mem (st sys1))) = true →
       goroutines (mem (st sys1)) !! i = Some (d, g1) →
       match g0 with
       | Spawned => g1 = Looping
       | Looping => g1 = Finished
       | Checked => ∃ client, g1 = Fetched client
       | Fetched _ => g1 = Looping
       | Finished => False
       end →
       ∃ sys',
         exec l sys1 = Some sys' ∧
         SysInv sys' ∧ RegInv calls sys' ∧
         script sys' = script sys1 ∧ closing sys' = closing sys1 ∧
         heap (mem (st sys')) = heap (mem (st sys1)) ∧
         ctx_done (mgr (mem (st sys'))) = true ∧
         goroutines (mem (st sys')) =
           <[i := (d, Finished)]> (goroutines (mem (st sys1)))) →
    ∃ sys',
      exec (RunMonitor i CaseDone :: l) sys0 = Some sys' ∧
      SysInv sys' ∧ RegInv calls sys' ∧
      script sys' = script sys0 ∧ closing sys' = closing sys0 ∧
      heap (mem (st sys')) = heap (mem (st sys0)) ∧
      ctx_done (mgr (mem (st sys'))) = true ∧
      goroutines (mem (st sys')) = <[i := (d, Finished)]> (goroutines (mem (st sys0)))).
  { intros sys0 g l Hsys0 Hreg0 Hctx0 Hi0 Hr Hrest.
    destruct (monitor_step_cancelled calls i sys0 d g Hsys0 Hreg0 Hctx0 Hi0 Hr)
      as (sys1 & g1 & Hs & Hsys1 & Hreg1 & Hscr1 & Hcl1 & Hh1 & Hctx1 & Hg1 & Hnext).
    destruct (Hrest sys1 g1 Hsys1 Hreg1 Hctx1) as
      (sys' & Hexec & ? & ? & Hscr' & Hcl' & Hh' & ? & Hg'); [|done|].
    { rewrite Hg1. apply list_lookup_insert_eq. exact (lookup_lt_Some _ _ _ Hi0). }
    exists sys'. cbn [exec]. rewrite Hs, Hexec.
    rewrite Hscr', Hcl', Hh', Hg', Hscr1, Hcl1, Hh1, Hg1, list_insert_insert_eq. done. }
  destruct g0 as [| | |client|]; cbn [drain app].
  - apply (Hthen sys Spawned); try done. intros sys1 g1 ? ? ? Hi1 ->. by apply Hlooping.
  - by apply Hlooping.
  - apply (Hthen sys Checked); try done. intros sys1 g1 ? ? ? Hi1 [client ->].
    apply (Hthen sys1 (Fetched client)); try done.
    intros sys2 g2 ? ? ? Hi2 ->. by apply Hlooping.
  - apply (Hthen sys (Fetched client)); try done.
    intros sys1 g1 ? ? ? Hi1 ->. by apply Hlooping.
  - exists sys. cbn. by rewrite list_insert_id.
Qed.

(** Letting the goroutines [g], which follow the goroutines [pre] that
    have returned, run up to their [select] and take the branch of the
    cancellation, one after the other. *)
Lemma drain_exec calls (g pre : list (ptr * gstatus)) sys :
  SysInv sys → RegInv calls sys →
  ctx_done (mgr (mem (st sys))) = true →
  goroutines (mem (st sys)) = pre ++ g →
  ∃ sys',
    exec (drain g (length pre)) sys = Some sys' ∧
    SysInv sys' ∧ RegInv calls sys' ∧
    script sys' = script sys ∧ closing sys' = closing sys ∧
    heap (mem (st sys')) = heap (mem (st sys)) ∧
    goroutines (mem (st sys')) = pre ++ map (fun x => (x.1, Finished)) g.
Proof.
  revert pre sys. induction g as [|[d status] g IH]; intros pre sys Hsys Hreg Hctx Hg.
  { exists sys. cbn. by rewrite Hg. }
  assert (Hi : goroutines (mem (st sys)) !! length pre = Some (d, status)).
  { rewrite Hg. by apply list_lookup_middle. }
  destruct (drain_one calls (length pre) sys d status Hsys Hreg Hctx Hi)
    as (sys1 & Hexec1 & Hsys1 & Hreg1 & Hscr1 & Hcl1 & Hh1 & Hctx1 & Hg1).
  rewrite Hg, insert_middle in Hg1.
  destruct (IH (pre ++ [(d, Finished)]) sys1 Hsys1 Hreg1 Hctx1)
    as (sys' & Hexec & Hsys' & Hreg' & Hscr' & Hcl' & Hh' & Hg').
  { by rewrite Hg1, <- app_assoc. }
  exists sys'. rewrite drain_cons, exec_app, Hexec1.
  rewrite length_app, Nat.add_1_r in Hexec. rewrite Hexec.
  split; [done|]. split; [done|]. split; [done|].
  rewrite Hscr', Hcl', Hh', Hg', Hscr1, Hcl1, Hh1, <- app_assoc. done.
Qed.

(** The run of [drain], then the main goroutine: [Close] returns. *)
Lemma Close_drained calls sys :
  SysInv sys → RegInv calls sys →
  closing sys = true →
  ∃ sys',
    exec (drain (goroutines (mem (st sys))) 0 ++ [RunMain]) sys = Some sys' ∧
    closing sys' = false ∧
    script sys' = script sys ∧
    (∀ i d g, goroutines (mem (st sys')) !! i = Some (d, g) → g = Finished) ∧
    closed_clients (drop (length (trace (st sys))) (trace (st sys'))) =
      device_clients (heap (mem (st sys))) (devices (mgr (mem (st sys)))).
Proof.
  intros Hsys Hreg Hcl.
  pose proof Hreg as (_ & _ & _ & _ & Hctx). specialize (Hctx Hcl).
  destruct (drain_exec calls (goroutines (mem (st sys))) [] sys Hsys Hreg Hctx eq_refl)
    as (sys1 & Hdrain & Hsys1 & Hreg1 & Hscr1 & Hcl1 & Hh1 & Hg1).
  cbn in Hdrain, Hg1.
  assert (Hfin : ∀ i d g, goroutines (mem (st sys1)) !! i = Some (d, g) → g = Finished).
  { intros i d g. rewrite Hg1, list_lookup_fmap.
    destruct (goroutines (mem (st sys)) !! i); by intros [= ]. }
  pose proof (RegInv_valid _ _ Hreg1) as (Hvalid & _).
  pose proof (Close_rest_outcome (st sys1) Hvalid) as Hclose.
  destruct Hsys1 as (Hlock1 & Hwg1 & Hrest1).
  assert (Hwg0 : wg (mgr (mem (st sys1))) = 0).
  { rewrite Hwg1. by apply running_all_finished. }
  rewrite Hwg0 in Hclose. destruct Hclose as [s' Hrun].
  pose proof (Close_rest_run _ _ Hrun) as (_ & Hmem & Ht).
  exists {| st := s'; script := script sys1; closing := false |}.
  rewrite exec_app, Hdrain. cbn [exec]. unfold step. rewrite Hcl1, Hcl.
  unfold segment. rewrite Hrun. cbn. split; [done|]. split; [done|]. split; [done|].
  split; [by rewrite Hmem|].
  assert (Hmon : ∃ evs, trace (st sys1) = trace (st sys) ++ evs ∧ closed_clients evs = []).
  { destruct (monitors_run_events _ _ _ Hsys (drain_monitors _ _) Hdrain)
      as (evs & Ht1 & Hev).
    exists evs. split; [done|]. by apply monitor_events_close_nothing. }
  destruct Hmon as (evs & Ht1 & Hcl0).
  assert (Hc : ∀ evs, closed_clients (EvWgWait :: evs) = closed_clients evs) by done.
  rewrite Ht, Ht1, <- app_assoc, drop_app_length, !closed_clients_app, Hcl0, Hc.
  cbn [app]. rewrite closed_clients_close_events.
  pose proof Hreg as (_ & Hd & _). pose proof Hreg1 as (_ & Hd1 & _).
  by rewrite Hh1, Hd1, Hd, Hh1.
Qed.

(** X16.  Wherever a run has taken the main goroutine into [Close], the run
    can go on until [Close] returns: once the context is cancelled every
    monitoring goroutine that has not returned can take the branch of the
    cancellation, and when they all have, [m.wg.Wait()] returns and the
    clients that are not nil are closed. *)
Theorem Close_can_return w calls l sys :
  exec l (init w calls) = Some sys →
  closing sys = true →
  ∃ sys',
    exec (drain (goroutines (mem (st sys))) 0 ++ [RunMain]) sys = Some sys' ∧
    closing sys' = false ∧
    script sys' = script sys ∧
    (∀ i d g, goroutines (mem (st sys')) !! i = Some (d, g) → g = Finished) ∧
    closed_clients (drop (length (trace (st sys))) (trace (st sys'))) =
      device_clients (heap (mem (st sys))) (devices (mgr (mem (st sys)))).
Proof.
  intros Hexec Hcl. apply RegInv_exec in Hexec as [Hsys Hreg].
  by apply (Close_drained calls).
Qed.

(** ** [Close], from [m.cancel()] to its return *)

(** [Close] on its own, from a state where the devices of the manager are
    in the heap: it cancels; with the wait group at zero it goes on to
    close the clients, and otherwise it waits where the cancellation left
    it. *)
Lemma Close_run (s : state memory) :
  (∀ d, d ∈ devices (mgr (mem s)) → is_Some (heap (mem s) !! d)) →
  ∃ s1,
    cancel s = (Ret tt, s1) ∧
    trace s1 = trace s ++ [EvCancel] ∧
    ctx_done (mgr (mem s1)) = true ∧
    if wg (mgr (mem s)) =? 0 then
      ∃ s', Close s = (Ret tt, s') ∧ Close_rest s1 = (Ret tt, s') ∧
            trace s' = trace s ++ EvCancel :: EvWgWait ::
                         close_events (heap (mem s)) (devices (mgr (mem s)))
    else Close s = (Blocked, s1) ∧ Close_rest s1 = (Blocked, s1).
Proof.
  intros Hvalid. eexists. split; [apply cancel_run|]. split; [done|]. split; [done|].
  pose proof (Close_rest_outcome
    {| world := world s; trace := trace s ++ [EvCancel];
       mem := set_mgr {| devices := devices (mgr (mem s)); ctx_done := true;
                         wg := wg (mgr (mem s)) |} (mem s) |}) as Hrest.
  cbn in Hrest. specialize (Hrest Hvalid).
  assert (HClose : Close s = Close_rest
    {| world := world s; trace := trace s ++ [EvCancel];
       mem := set_mgr {| devices := devices (mgr (mem s)); ctx_done := true;
                         wg := wg (mgr (mem s)) |} (mem s) |}).
  { rewrite Close_segments. unfold bind at 1. by rewrite cancel_run. }
  rewrite HClose.
  destruct (wg (mgr (mem s)) =? 0).
  - destruct Hrest as [s' Hrest]. exists s'. split; [done|]. split; [done|].
    apply Close_rest_run in Hrest as (_ & _ & Ht). cbn in Ht.
    by rewrite Ht, <- app_assoc.
  - done.
Qed.

(** C4.  [Close] is [m.cancel()] followed by [m.wg.Wait()] and the loop
    over the devices, and the run of the program cuts it there.  On its
    own, [Close] cancels the context first; then, with the wait group not
    at zero, it waits, and with the wait group at zero it calls [Close]
    on the clients that are not nil, in the order of the devices.  In a
    run, the main goroutine that calls [Close] cancels the context and is
    then where [Close] on its own has got to: waiting, or able to go on.
    Wherever the main goroutine is inside [Close], after [m.cancel()]:
    when it takes its next step, [m.wg.Wait()] returns, every monitoring
    goroutine that was started has returned, and stays so in whatever
    follows; the trace has the [m.cancel()] of this [Close] first,
    followed only by events of monitoring goroutines up to the return of
    [m.wg.Wait()], after which come the reads of [Client] and the [Close]
    of each client that is not nil; and [Close] has returned.  And that
    step can be reached: the goroutines that have not returned can all
    take the branch of the cancellation, after which [Close] returns. *)
Theorem Close_waits_for_monitors :
  (∀ s : state memory,
     Close s = (cancel ;; wg_Wait ;; Close_clients) s ∧
     Close s = (cancel ;; Close_rest) s ∧
     ((∀ d, d ∈ devices (mgr (mem s)) → is_Some (heap (mem s) !! d)) →
      ∃ s1,
        cancel s = (Ret tt, s1) ∧
        trace s1 = trace s ++ [EvCancel] ∧
        ctx_done (mgr (mem s1)) = true ∧
        if wg (mgr (mem s)) =? 0 then
          ∃ s', Close s = (Ret tt, s') ∧
                trace s' = trace s ++ EvCancel :: EvWgWait ::
                             close_events (heap (mem s)) (devices (mgr (mem s)))
        else Close s = (Blocked, s1))) ∧
  (∀ w calls l sys rest,
     exec l (init w calls) = Some sys →
     closing sys = false →
     script sys = CallClose :: rest →
     ∃ sys1,
       step RunMain sys = Some sys1 ∧
       cancel (st sys) = (Ret tt, st sys1) ∧
       closing sys1 = true ∧ script sys1 = rest ∧
       if wg (mgr (mem (st sys))) =? 0 then
         ∃ sys2, step RunMain sys1 = Some sys2 ∧ Close (st sys) = (Ret tt, st sys2) ∧
                 closing sys2 = false
       else Close (st sys) = (Blocked, st sys1) ∧ step RunMain sys1 = None) ∧
  (∀ w calls l sys sys',
     exec l (init w calls) = Some sys →
     closing sys = true →
     step RunMain sys = Some sys' →
     Close_rest (st sys) = (Ret tt, st sys') ∧
     (∀ i d g, goroutines (mem (st sys)) !! i = Some (d, g) → g = Finished) ∧
     goroutines (mem (st sys')) = goroutines (mem (st sys)) ∧
     (∃ t0 mid,
        trace (st sys') =
          t0 ++ EvCancel :: mid ++ EvWgWait ::
            close_events (heap (mem (st sys))) (devices (mgr (mem (st sys)))) ∧
        Forall (fun ev => monitor_event ev = true) mid) ∧
     closing sys' = false ∧
     (∀ l' sys'', exec l' sys' = Some sys'' →
        ∀ i d g, goroutines (mem (st sys')) !! i = Some (d, g) →
                 goroutines (mem (st sys'')) !! i = Some (d, Finished))) ∧
  (∀ w calls l sys,
     exec l (init w calls) = Some sys →
     closing sys = true →
     ∃ sys',
       exec (drain (goroutines (mem (st sys))) 0 ++ [RunMain]) sys = Some sys' ∧
       closing sys' = false ∧
       script sys' = script sys ∧
       ∀ i d g, goroutines (mem (st sys')) !! i = Some (d, g) → g = Finished).
Proof.
  split_and!.
  - intros s. split; [done|]. split; [done|]. intros Hvalid.
    destruct (Close_run s Hvalid) as (s1 & Hc & Ht & Hctx & Hrest).
    exists s1. split; [done|]. split; [done|]. split; [done|].
    destruct (wg (mgr (mem s)) =? 0).
    + destruct Hrest as (s' & Hrun & _ & Ht'). by exists s'.
    + by destruct Hrest.
  - intros w calls l sys rest Hexec Hcl Hscr.
    apply RegInv_exec in Hexec as [Hsys Hreg].
    pose proof (RegInv_valid _ _ Hreg) as (Hvalid & _).
    destruct (Close_run (st sys) Hvalid) as (s1 & Hc & Ht & Hctx & Hrest).
    exists {| st := s1; script := rest; closing := true |}.
    assert (Hstep : step RunMain sys = Some {| st := s1; script := rest; closing := true |}).
    { unfold step, segment. by rewrite Hcl, Hscr, Hc. }
    split; [done|]. split; [done|]. split; [done|]. split; [done|].
    destruct (wg (mgr (mem (st sys))) =? 0).
    + destruct Hrest as (s' & Hrun & Hrest & _).
      exists {| st := s'; script := rest; closing := false |}.
      split; [|done]. unfold step, segment. cbn. by rewrite Hrest.
    + destruct Hrest as [Hrun Hrest]. split; [done|].
      unfold step, segment. cbn. by rewrite Hrest.
  - intros w calls l sys sys' Hexec Hcl Hstep.
    assert (Hinv := SysInv_exec _ _ _ _ Hexec).
    assert (Hinv' := SysInv_step _ _ _ Hinv Hstep).
    destruct Hinv as (Hlock & Hwg & Hbal & Hug & Hclosing).
    apply step_main_closing in Hstep as (Hrun & Hscr & Hcl'); [|done].
    pose proof (Close_rest_run _ _ Hrun) as (Hzero & Hmem & Htr).
    assert (Hfin : ∀ i d g, goroutines (mem (st sys)) !! i = Some (d, g) → g = Finished).
    { intros i d g. apply running_zero. by rewrite <- Hwg. }
    split_and!; [done|done|by rewrite Hmem| |done|].
    + destruct (Hclosing Hcl) as (t0 & mid & Hmid & Hmon).
      exists t0, mid. split; [|done]. rewrite Htr, Hmid, <- app_assoc. done.
    + intros l' sys'' Hexec' i d g Hi. rewrite Hmem in Hi.
      rewrite (Hfin _ _ _ Hi) in Hi. rewrite <- Hmem in Hi.
      by eapply finished_stay_exec.
  - intros w calls l sys Hexec Hcl. apply RegInv_exec in Hexec as [Hsys Hreg].
    destruct (Close_drained calls sys Hsys Hreg Hcl) as (sys' & ? & ? & ? & ? & _).
    by exists sys'.
Qed.

(** ** The health check in the iterations of [monitorDevice] *)

(** One iteration on a tick, with no other goroutine running. *)
Lemma monitorDevice_tick_checks d (s : state memory) dev :
  heap (mem s) !! d = Some dev →
  mu dev = unlocked →
  ∃ evs s',
    monitorDevice_tick d s = (Ret tt, s') ∧
    trace s' = trace s ++ evs ∧
    mem s' = mem s ∧
    (∀ c ctx req, EvRead c ctx req ∈ evs →
       Connected dev = true ∧ is_Some (Client dev) ∧
       c = Client dev ∧ ctx = ManagerCtx ∧ req = healthCheck_req) ∧
    (Connected dev = true → is_Some (Client dev) →
       ∃ err s2,
         healthCheck (Client dev) (Name dev)
           {| world := world s; trace := trace s ++ tick_reads d true; mem := mem s |}
           = (Ret err, s2) ∧
         EvRead (Client dev) ManagerCtx healthCheck_req ∈ evs ∧
         world s' = world s2 ∧
         trace s' = trace s2 ++
           match err with
           | Some e => [EvLogPrintf "设备 %s 健康检查失败: %v"
                          [ArgString (Name dev); ArgError e]]
           | None => []
           end).
Proof.
  intros Hd Hmu. rewrite (monitorDevice_tick_run _ _ _ Hd Hmu).
  destruct (Connected dev) eqn:Hcon; cbn [negb].
  2:{ eexists _, _. split; [done|]. cbn. split; [done|]. split; [done|].
      split; [|done]. intros c ctx req Hin.
      rewrite !elem_of_cons, elem_of_nil in Hin. intuition discriminate. }
  cbn zeta. destruct (Client dev) as [c0|] eqn:Hcl.
  2:{ eexists _, _. split; [done|]. cbn. split; [done|]. split; [done|].
      split; [|intros _ [? ?]; discriminate]. intros c ctx req Hin.
      rewrite !elem_of_cons, elem_of_nil in Hin. intuition discriminate. }
  rewrite healthCheck_run. cbn zeta.
  set (rd := lib_Read _ _ _ _).
  assert (Hreads : ∀ c ctx req tl,
    (∀ c' ctx' req', EvRead c' ctx' req' ∉ tl) →
    EvRead c ctx req ∈ tick_reads d true ++ EvRead (Some c0) ManagerCtx healthCheck_req :: tl →
    true = true ∧ is_Some (Some c0) ∧ c = Some c0 ∧ ctx = ManagerCtx ∧
    req = healthCheck_req).
  { intros c ctx req tl Htl Hin. apply elem_of_app in Hin as [Hin|Hin].
    - cbn in Hin. rewrite !elem_of_cons, elem_of_nil in Hin. intuition discriminate.
    - apply elem_of_cons in Hin as [Hin|Hin]; [by simplify_eq|]. by apply Htl in Hin. }
  destruct (rd.1.2) as [e|].
  { eexists (tick_reads d true ++ [_; _]), _. split; [done|]. cbn [trace mem world].
    split; [by rewrite <- !app_assoc|]. split; [done|]. split.
    - intros c ctx req Hin. eapply Hreads; [|exact Hin]. not_in_list.
    - intros _ _. eexists _, _. split; [done|]. cbn.
      split; [|by rewrite <- !app_assoc].
      in_list. }
  destruct (match Results _ with [] => true | r :: _ => _ end).
  { eexists (tick_reads d true ++ [_; _]), _. split; [done|]. cbn [trace mem world].
    split; [by rewrite <- !app_assoc|]. split; [done|]. split.
    - intros c ctx req Hin. eapply Hreads; [|exact Hin]. not_in_list.
    - intros _ _. eexists _, _. split; [done|]. cbn.
      split; [|by rewrite <- !app_assoc].
      in_list. }
  eexists (tick_reads d true ++ [_; _]), _. split; [done|]. cbn [trace mem world].
  split; [by rewrite <- !app_assoc|]. split; [done|]. split.
  + intros c ctx req Hin. eapply Hreads; [|exact Hin]. not_in_list.
  + intros _ _. eexists _, _. split; [done|]. cbn.
    split; [|by rewrite app_nil_r].
    in_list.
Qed.

(** The health check does not look at the goroutines. *)
Lemma monitorDevice_health_frame d client (s : state memory) g' :
  monitorDevice_health d client
    {| world := world s; trace := trace s; mem := set_goroutines g' (mem s) |} =
  ((monitorDevice_health d client s).1,
   {| world := world (monitorDevice_health d client s).2;
      trace := trace (monitorDevice_health d client s).2;
      mem := set_goroutines g' (mem s) |}).
Proof.
  destruct s as [w t [h m g]]. unfold monitorDevice_health, healthCheck. run_mem.
  destruct (h !! d) as [dev|]; [|done]. cbn.
  destruct (lib_Read _ _ _ _) as [[resp [e|]] w']; cbn; [done|].
  by destruct (match Results resp with [] => true | r :: _ => _ end).
Qed.

(** The segments of an iteration, run one after the other with nothing
    in between, are [monitorDevice_tick]. *)
Lemma tick_segments i d (s : state memory) dev :
  goroutines (mem s) !! i = Some (d, Looping) →
  heap (mem s) !! d = Some dev →
  mu dev = unlocked →
  (monitor_segment i CaseTick ;;
   if Connected dev then monitor_segment i CaseTick ;; monitor_segment i CaseTick
   else ret tt) s
  = monitorDevice_tick d s.
Proof.
  intros Hi Hd Hmu.
  set (r1 := [EvRLock d; EvLoad d FConnected; EvRUnlock d]).
  set (r2 := [EvRLock d; EvLoad d FClient; EvRUnlock d]).
  assert (Hseg1 : monitor_segment i CaseTick s =
    (Ret tt, {| world := world s; trace := trace s ++ r1;
                mem := set_goroutines
                         (<[i := (d, if Connected dev then Checked else Looping)]>
                            (goroutines (mem s))) (mem s) |})).
  { unfold monitor_segment. erewrite bind_run; [|reflexivity]. rewrite Hi.
    erewrite bind_run; [|exact (IsConnected_run _ _ _ Hd Hmu)].
    destruct (Connected dev); cbn [negb].
    - by rewrite (set_gstatus_run _ _ _ d Looping).
    - unfold ret. by rewrite set_goroutines_id. }
  erewrite bind_run; [|exact Hseg1].
  rewrite (monitorDevice_tick_run _ _ _ Hd Hmu).
  destruct (Connected dev) eqn:Hcon; cbn [negb].
  2:{ unfold ret. rewrite set_goroutines_id by done. unfold tick_reads.
      by rewrite app_nil_r. }
  cbn zeta.
  assert (Ht : (trace s ++ r1) ++ r2 = trace s ++ tick_reads d true).
  { unfold tick_reads. by rewrite <- app_assoc. }
  rewrite <- Ht.
  set (s1 := {| world := world s; trace := trace s ++ r1;
                mem := set_goroutines (<[i := (d, Checked)]> (goroutines (mem s))) (mem s) |}).
  assert (Hi1 : goroutines (mem s1) !! i = Some (d, Checked)).
  { cbn. apply list_lookup_insert_eq. exact (lookup_lt_Some _ _ _ Hi). }
  assert (Hseg2 : monitor_segment i CaseTick s1 =
    (Ret tt, {| world := world s; trace := (trace s ++ r1) ++ r2;
                mem := set_goroutines (<[i := (d, Fetched (Client dev))]>
                                         (goroutines (mem s))) (mem s) |})).
  { unfold monitor_segment. erewrite bind_run; [|reflexivity]. rewrite Hi1.
    erewrite bind_run; [|exact (GetClient_run d s1 dev Hd Hmu)].
    rewrite (set_gstatus_run _ _ _ d Checked) by exact Hi1.
    cbn. by rewrite list_insert_insert_eq. }
  erewrite bind_run; [|exact Hseg2]. clear Hseg1 Hseg2 Hi1 s1.
  assert (Hback : ∀ w t client,
    set_gstatus i Looping
      {| world := w; trace := t;
         mem := set_goroutines (<[i := (d, Fetched client)]> (goroutines (mem s))) (mem s) |} =
    (Ret tt, {| world := w; trace := t; mem := mem s |})).
  { intros w t client. rewrite (set_gstatus_run _ _ _ d (Fetched client)).
    - unfold set_goroutines. cbn. rewrite list_insert_insert_eq, list_insert_id by done.
      by destruct (mem s).
    - cbn. apply list_lookup_insert_eq. exact (lookup_lt_Some _ _ _ Hi). }
  assert (Hseg3 : ∀ client t,
    monitor_segment i CaseTick
      {| world := world s; trace := t;
         mem := set_goroutines (<[i := (d, Fetched client)]> (goroutines (mem s))) (mem s) |} =
    match client with
    | None => (Ret tt, {| world := world s; trace := t; mem := mem s |})
    | Some _ =>
      monitorDevice_health d client {| world := world s; trace := t; mem := mem s |}
    end).
  { intros client t. unfold monitor_segment. erewrite bind_run; [|reflexivity].
    cbn [mem goroutines set_goroutines].
    rewrite list_lookup_insert_eq by exact (lookup_lt_Some _ _ _ Hi).
    destruct client as [c0|].
    - pose proof (monitorDevice_health_frame d (Some c0)
        {| world := world s; trace := t; mem := mem s |}
        (<[i := (d, Fetched (Some c0))]> (goroutines (mem s)))) as Hframe.
      cbn [world trace mem] in Hframe.
      destruct (monitorDevice_health_returns d (Some c0)
        {| world := world s; trace := t; mem := mem s |} dev Hd) as (s3 & Hh & Hmem).
      rewrite Hh in Hframe. cbn [fst snd] in Hframe.
      erewrite bind_run; [|exact Hframe]. rewrite Hback, Hh.
      destruct s3; cbn in *; by subst.
    - erewrite bind_run; [|reflexivity]. apply Hback. }
  rewrite Hseg3.
  destruct (Client dev) as [c0|]; [|done].
  unfold monitorDevice_health.
  unfold bind at 1, deref at 1, bind at 1, get_mem, ret. cbn [mem]. rewrite Hd.
  unfold bind, log_Printf, emit, ret.
  by destruct (healthCheck _ _ _) as [[[e|]|c'| |] s4].
Qed.

(** On a tick, the loop runs the iteration and selects again. *)
Lemma monitorDevice_loop_tick d sel (s : state memory) dev :
  heap (mem s) !! d = Some dev →
  mu dev = unlocked →
  ∃ s1,
    monitorDevice_tick d s = (Ret tt, s1) ∧
    mem s1 = mem s ∧
    monitorDevice_loop d (CaseTick :: sel) s = monitorDevice_loop d sel s1.
Proof.
  intros Hd Hmu.
  destruct (monitorDevice_tick_returns d s dev Hd Hmu) as (s1 & Hrun & Hmem).
  exists s1. split; [done|]. split; [done|].
  cbn [monitorDevice_loop]. by erewrite bind_run.
Qed.

(** The reads of one iteration. *)
Lemma monitorDevice_tick_reads d (s : state memory) dev :
  heap (mem s) !! d = Some dev →
  mu dev = unlocked →
  ∃ s' evs,
    monitorDevice_tick d s = (Ret tt, s') ∧
    mem s' = mem s ∧
    trace s' = trace s ++ evs ∧
    read_clients evs =
      if Connected dev && bool_decide (is_Some (Client dev)) then [Client dev] else [].
Proof.
  intros Hd Hmu. rewrite (monitorDevice_tick_run _ _ _ Hd Hmu).
  destruct (Connected dev); cbn.
  2: { do 2 eexists. split; [reflexivity|]. cbn. done. }
  destruct (Client dev) as [c|]; cbn.
  2: { do 2 eexists. split; [reflexivity|]. cbn. done. }
  rewrite healthCheck_run. cbn zeta.
  destruct (lib_Read _ _ _ _).1.2; cbn.
  { do 2 eexists. split; [reflexivity|]. cbn. rewrite <- !app_assoc. done. }
  destruct (match Results _ with [] => true | r :: _ => negb (Status r =? StatusOK) end).
  - do 2 eexists. split; [reflexivity|]. cbn. rewrite <- !app_assoc. done.
  - do 2 eexists. split; [reflexivity|]. cbn. rewrite <- !app_assoc. done.
Qed.

(** On ticks alone the loop goes on, with one health check per tick when
    the device is connected and has a client, and none otherwise. *)
Lemma monitorDevice_ticks d n (s : state memory) dev :
  heap (mem s) !! d = Some dev →
  mu dev = unlocked →
  ∃ s' evs,
    monitorDevice d (replicate n CaseTick) s = (Ret false, s') ∧
    trace s' = trace s ++ EvNewTicker (10 * Second) :: evs ∧
    read_clients evs =
      if Connected dev && bool_decide (is_Some (Client dev))
      then replicate n (Client dev) else [].
Proof.
  intros Hd Hmu.
  assert (Hloop : ∀ n (s : state memory),
    heap (mem s) !! d = Some dev →
    ∃ s' evs,
      monitorDevice_loop d (replicate n CaseTick) s = (Ret false, s') ∧
      trace s' = trace s ++ evs ∧
      read_clients evs =
        if Connected dev && bool_decide (is_Some (Client dev))
        then replicate n (Client dev) else []).
  { clear s Hd. intros k. induction k as [|k IH]; intros s Hd; cbn [replicate monitorDevice_loop].
    { exists s, []. unfold ret. rewrite app_nil_r. by destruct (_ && _). }
    destruct (monitorDevice_tick_reads d s dev Hd Hmu) as (s1 & evs1 & Hrun & Hmem & Ht & Hr).
    erewrite bind_run; [|exact Hrun].
    destruct (IH s1) as (s' & evs2 & Hrun' & Ht' & Hr'); [by rewrite Hmem|].
    exists s', (evs1 ++ evs2). split; [done|]. split; [by rewrite Ht', Ht, app_assoc|].
    rewrite read_clients_app, Hr, Hr'. by destruct (_ && _). }
  unfold monitorDevice, monitorDevice_enter. erewrite bind_run; [|reflexivity].
  edestruct (Hloop n) as (s' & evs & Hrun & Ht & Hr); [|erewrite bind_run; [|exact Hrun]].
  { exact Hd. }
  exists s', evs. split; [done|]. cbn in Ht. by rewrite Ht, <- app_assoc.
Qed.

(** The health check of an iteration, and the log of its failure. *)
Lemma monitorDevice_health_run d client (s : state memory) dev :
  heap (mem s) !! d = Some dev →
  ∃ err s2,
    healthCheck client (Name dev) s = (Ret err, s2) ∧
    mem s2 = mem s ∧
    monitorDevice_health d client s =
    (Ret tt,
     {| world := world s2;
        trace := trace s2 ++
          match err with
          | Some e => [EvLogPrintf "设备 %s 健康检查失败: %v"
                         [ArgString (Name dev); ArgError e]]
          | None => []
          end;
        mem := mem s |}).
Proof.
  intros Hd. unfold monitorDevice_health.
  unfold bind at 1, deref at 1, bind at 1, get_mem, ret. cbn [mem]. rewrite Hd.
  unfold bind, log_Printf, emit, ret. rewrite healthCheck_run. cbn zeta.
  destruct (lib_Read _ _ _ _).1.2; cbn; [by eexists _, _|].
  destruct (match Results _ with [] => true | r :: _ => negb (Status r =? StatusOK) end);
    cbn; eexists _, _; split_and!; try done.
  by rewrite app_nil_r.
Qed.

(** What a segment of a monitoring goroutine does in a run, by where the
    goroutine stands. *)
Lemma monitor_step_run w calls l sys i c sys' d g :
  exec l (init w calls) = Some sys →
  goroutines (mem (st sys)) !! i = Some (d, g) →
  step (RunMonitor i c) sys = Some sys' →
  ∃ dev,
    heap (mem (st sys)) !! d = Some dev ∧
    heap (mem (st sys')) = heap (mem (st sys)) ∧
    match g with
    | Spawned =>
      trace (st sys') = trace (st sys) ++ [EvNewTicker (10 * Second)] ∧
      goroutines (mem (st sys')) !! i = Some (d, Looping)
    | Looping =>
      match c with
      | CaseTick =>
        trace (st sys') = trace (st sys) ++ [EvRLock d; EvLoad d FConnected; EvRUnlock d] ∧
        goroutines (mem (st sys')) !! i =
          Some (d, if Connected dev then Checked else Looping)
      | CaseDone =>
        ctx_done (mgr (mem (st sys))) = true ∧
        trace (st sys') = trace (st sys) ++ [EvTickerStop; EvWgDone] ∧
        goroutines (mem (st sys')) !! i = Some (d, Finished)
      end
    | Checked =>
      trace (st sys') = trace (st sys) ++ [EvRLock d; EvLoad d FClient; EvRUnlock d] ∧
      goroutines (mem (st sys')) !! i = Some (d, Fetched (Client dev))
    | Fetched None =>
      trace (st sys') = trace (st sys) ∧
      goroutines (mem (st sys')) !! i = Some (d, Looping)
    | Fetched (Some c0) =>
      goroutines (mem (st sys')) !! i = Some (d, Looping) ∧
      ∃ err s2,
        healthCheck (Some c0) (Name dev) (st sys) = (Ret err, s2) ∧
        world (st sys') = world s2 ∧
        trace (st sys') = trace s2 ++
          match err with
          | Some e => [EvLogPrintf "设备 %s 健康检查失败: %v"
                         [ArgString (Name dev); ArgError e]]
          | None => []
          end
    | Finished => False
    end.
Proof.
  intros Hexec Hi Hstep. apply RegInv_exec in Hexec as [Hsys Hreg].
  pose proof (RegInv_valid _ _ Hreg) as (_ & _ & Hgvalid).
  pose proof Hsys as (Hlock & Hwg & _).
  apply step_monitor_run in Hstep as (Hrun & _).
  pose proof (monitor_segment_run i c (st sys) Hlock Hwg Hgvalid) as Hseg.
  rewrite Hi in Hseg. destruct (Hgvalid _ _ _ Hi) as [dev Hd]. exists dev.
  split; [done|].
  assert (Hl : ∀ g', (<[i := (d, g')]> (goroutines (mem (st sys)))) !! i = Some (d, g')).
  { intros g'. apply list_lookup_insert_eq. exact (lookup_lt_Some _ _ _ Hi). }
  destruct g as [| | |[c0|]|].
  - rewrite Hseg in Hrun. injection Hrun as <-. cbn. done.
  - destruct c.
    + destruct (ctx_done (mgr (mem (st sys)))); [|by rewrite Hseg in Hrun].
      rewrite Hseg in Hrun. injection Hrun as <-. cbn. done.
    + destruct Hseg as (dev0 & Hd0 & Hseg). rewrite Hd in Hd0. injection Hd0 as <-.
      rewrite Hseg in Hrun. injection Hrun as <-. cbn. done.
  - destruct Hseg as (dev0 & Hd0 & Hseg). rewrite Hd in Hd0. injection Hd0 as <-.
    rewrite Hseg in Hrun. injection Hrun as <-. cbn. done.
  - destruct Hseg as (dev0 & s1 & _ & Hh & Hmem & Hseg).
    rewrite Hseg in Hrun. injection Hrun as <-. cbn.
    destruct (monitorDevice_health_run d (Some c0) (st sys) dev Hd)
      as (err & s2 & Hc & Hmem2 & Hh').
    rewrite Hh' in Hh. injection Hh as <-. cbn.
    split; [done|]. split; [done|]. by exists err, s2.
  - destruct Hseg as (dev0 & s1 & _ & Hh & Hmem & Hseg).
    rewrite Hseg in Hrun. injection Hrun as <-. cbn.
    unfold ret in Hh. injection Hh as <-. done.
  - by rewrite Hseg in Hrun.
Qed.

(** C3.  The health checks of [monitorDevice].  On a timer tick the loop
    runs one iteration and selects again.  In an iteration during which
    no other goroutine runs, for a device whose mutex is free, a read is
    issued only if the device reports connected and its client is not
    nil; it is the health check, a read of [Server_ServerStatus] under the
    manager's context on the client of the device; in that case
    [healthCheck] is called, and when it returns an error that error is
    logged and the iteration returns all the same.  So on [n] ticks the
    loop makes [n] health checks for such a device, none for another, and
    does not return.  [monitorDevice] returns only through the branch that
    receives from [m.ctx.Done()], with the context cancelled.

    An iteration is three critical sections, [IsConnected], [GetClient]
    and [healthCheck], which run one after the other make the iteration.
    In a run of the program, where other goroutines run between them: a
    goroutine at its [select] reads [Connected] on a tick and goes on only
    if it is true, and returns on the other branch, which is ready only
    once the context is cancelled; it then reads [Client]; if this is nil
    it issues nothing and selects again, and otherwise it calls
    [healthCheck] on the client it has read, logs the error if there is
    one, and selects again.  A health check is thus issued only after
    [IsConnected] has returned [true] and [GetClient] a client that is not
    nil, in the same iteration, and on that client. *)
Theorem monitorDevice_health_checks :
  (∀ d sel (s : state memory) dev,
     heap (mem s) !! d = Some dev →
     mu dev = unlocked →
     ∃ s1,
       monitorDevice_tick d s = (Ret tt, s1) ∧
       mem s1 = mem s ∧
       monitorDevice_loop d (CaseTick :: sel) s = monitorDevice_loop d sel s1) ∧
  (∀ d (s : state memory) dev,
     heap (mem s) !! d = Some dev →
     mu dev = unlocked →
     ∃ evs s',
       monitorDevice_tick d s = (Ret tt, s') ∧
       trace s' = trace s ++ evs ∧
       mem s' = mem s ∧
       (∀ c ctx req, EvRead c ctx req ∈ evs →
          Connected dev = true ∧ is_Some (Client dev) ∧
          c = Client dev ∧ ctx = ManagerCtx ∧ req = healthCheck_req) ∧
       (Connected dev = true → is_Some (Client dev) →
          ∃ err s2,
            healthCheck (Client dev) (Name dev)
              {| world := world s; trace := trace s ++ tick_reads d true; mem := mem s |}
              = (Ret err, s2) ∧
            EvRead (Client dev) ManagerCtx healthCheck_req ∈ evs ∧
            world s' = world s2 ∧
            trace s' = trace s2 ++
              match err with
              | Some e => [EvLogPrintf "设备 %s 健康检查失败: %v"
                             [ArgString (Name dev); ArgError e]]
              | None => []
              end)) ∧
  (∀ d n (s : state memory) dev,
     heap (mem s) !! d = Some dev →
     mu dev = unlocked →
     ∃ s' evs,
       monitorDevice d (replicate n CaseTick) s = (Ret false, s') ∧
       trace s' = trace s ++ EvNewTicker (10 * Second) :: evs ∧
       read_clients evs =
         if Connected dev && bool_decide (is_Some (Client dev))
         then replicate n (Client dev) else []) ∧
  (∀ d sel (s s' : state memory),
     monitorDevice d sel s = (Ret true, s') →
     CaseDone ∈ sel ∧ ctx_done (mgr (mem s')) = true) ∧
  (∀ i d (s : state memory) dev,
     goroutines (mem s) !! i = Some (d, Looping) →
     heap (mem s) !! d = Some dev →
     mu dev = unlocked →
     (monitor_segment i CaseTick ;;
      if Connected dev then monitor_segment i CaseTick ;; monitor_segment i CaseTick
      else ret tt) s = monitorDevice_tick d s) ∧
  (∀ w calls l sys i c sys' d g,
     exec l (init w calls) = Some sys →
     goroutines (mem (st sys)) !! i = Some (d, g) →
     step (RunMonitor i c) sys = Some sys' →
     ∃ dev,
       heap (mem (st sys)) !! d = Some dev ∧
       heap (mem (st sys')) = heap (mem (st sys)) ∧
       match g with
       | Spawned =>
         trace (st sys') = trace (st sys) ++ [EvNewTicker (10 * Second)] ∧
         goroutines (mem (st sys')) !! i = Some (d, Looping)
       | Looping =>
         match c with
         | CaseTick =>
           trace (st sys') =
             trace (st sys) ++ [EvRLock d; EvLoad d FConnected; EvRUnlock d] ∧
           goroutines (mem (st sys')) !! i =
             Some (d, if Connected dev then Checked else Looping)
         | CaseDone =>
           ctx_done (mgr (mem (st sys))) = true ∧
           trace (st sys') = trace (st sys) ++ [EvTickerStop; EvWgDone] ∧
           goroutines (mem (st sys')) !! i = Some (d, Finished)
         end
       | Checked =>
         trace (st sys') = trace (st sys) ++ [EvRLock d; EvLoad d FClient; EvRUnlock d] ∧
         goroutines (mem (st sys')) !! i = Some (d, Fetched (Client dev))
       | Fetched None =>
         trace (st sys') = trace (st sys) ∧
         goroutines (mem (st sys')) !! i = Some (d, Looping)
       | Fetched (Some c0) =>
         goroutines (mem (st sys')) !! i = Some (d, Looping) ∧
         ∃ err s2 evs,
           healthCheck (Some c0) (Name dev) (st sys) = (Ret err, s2) ∧
           trace s2 = trace (st sys) ++ EvRead (Some c0) ManagerCtx healthCheck_req :: evs ∧
           read_clients evs = [] ∧
           world (st sys') = world s2 ∧
           trace (st sys') = trace s2 ++
             match err with
             | Some e => [EvLogPrintf "设备 %s 健康检查失败: %v"
                            [ArgString (Name dev); ArgError e]]
             | None => []
             end
       | Finished => False
       end).
Proof.
  split_and!.
  - exact monitorDevice_loop_tick.
  - exact monitorDevice_tick_checks.
  - exact monitorDevice_ticks.
  - intros d sel s s' Hrun. unfold monitorDevice in Hrun.
    apply bind_Ret_inv in Hrun as ([] & s0 & _ & Hrun).
    apply bind_Ret_inv in Hrun as (returned & s1 & Hloop & Hret).
    destruct returned; [|by unfold ret in Hret].
    apply monitorDevice_loop_left in Hloop as [Hin Hdone]. split; [done|].
    apply bind_Ret_inv in Hret as ([] & s2 & Hdefer & Hret).
    unfold ret in Hret. simplify_eq.
    destruct s1 as [w t [h [ds c n] g]]. revert Hdefer.
    unfold monitorDevice_return. run_mem. cbn in Hdone. subst c.
    destruct (n - 1 <? 0); intros [= <-]; done.
  - exact tick_segments.
  - intros w calls l sys i c sys' d g Hexec Hi Hstep.
    destruct (monitor_step_run w calls l sys i c sys' d g Hexec Hi Hstep)
      as (dev & Hd & Hheap & Hg).
    exists dev. split; [done|]. split; [done|].
    destruct g as [| | |[c0|]|]; try done.
    destruct Hg as (Hl & err & s2 & Hc & Hw & Ht). split; [done|].
    exists err, s2. pose proof Hc as Hc'. rewrite healthCheck_run in Hc'. cbn zeta in Hc'.
    destruct (lib_Read _ _ _ _).1.2.
    { injection Hc' as <- <-. by exists []. }
    destruct (match Results _ with [] => true | r :: _ => negb (Status r =? StatusOK) end).
    + injection Hc' as <- <-. by exists [].
    + injection Hc' as <- <-. by eexists [_].
Qed.

(** ** [main] of the advanced example *)

Lemma outer_loop_mem (ifaces : list Interface) (acc : list string)
    (s : state memory) r s' :
  for_range_acc ifaces acc GetAvailableInterfaces_iface s = (r, s') → mem s' = mem s.
Proof.
  revert acc s. induction ifaces as [|i ifaces IH]; intros acc s; cbn.
  { unfold ret. by intros [= _ <-]. }
  unfold GetAvailableInterfaces_iface at 1. unfold bind at 1.
  destruct (Z.land (if_Flags i) FlagUp =? 0); [apply IH|].
  run_go. destruct (os_Addrs i (world s)) as [[addrs [e|]] w']; cbn;
    intros Hrun; by apply IH in Hrun.
Qed.

Lemma GetAvailableInterfaces_run (s : state memory) :
  let en := os_Interfaces (world s) in
  match en.1.2 with
  | Some e =>
    GetAvailableInterfaces s =
    (Ret ([], Some (LibErr e)),
     {| world := en.2; trace := trace s ++ [EvInterfaces]; mem := mem s |})
  | None =>
    ∃ s' pre,
      GetAvailableInterfaces s = (Ret (available_addresses en.1.1 en.2, None), s') ∧
      trace s' = trace s ++ EvInterfaces :: pre ∧
      mem s' = mem s ∧
      Forall (fun ev => is_output ev = false) pre
  end.
Proof.
  cbn zeta. unfold GetAvailableInterfaces. run_go.
  destruct (os_Interfaces (world s)) as [[ifaces [e|]] w1]; cbn; [done|].
  edestruct (outer_loop_appends ifaces []) as (s' & evs & Hs' & Htr & Hevs).
  rewrite Hs'. cbn. exists s', evs. split; [done|].
  split; [by rewrite Htr; cbn; rewrite <- app_assoc|].
  split; [by apply outer_loop_mem in Hs'|].
  apply Forall_forall. intros ev Hev. by destruct (Hevs ev Hev) as (iface & -> & _).
Qed.

Lemma print_lines (l : list string) (s : state memory) :
  for_range l (fun ip => fmt_Printf "  - %s\n" [ArgString ip]) s =
  (Ret tt,
   {| world := world s;
      trace := trace s ++ map (fun ip => EvPrintf "  - %s\n" [ArgString ip]) l;
      mem := mem s |}).
Proof.
  revert s. induction l as [|ip l IH]; intros s; cbn [for_range map].
  { unfold ret. rewrite app_nil_r. by destruct s. }
  erewrite bind_run; [|reflexivity]. rewrite IH. cbn. by rewrite <- app_assoc.
Qed.

Lemma ConnectAll_body_events d (s : state memory) dev :
  heap (mem s) !! d = Some dev →
  mu dev = unlocked →
  ∃ dev' evs w',
    ConnectAll_body d s =
      (Ret tt, {| world := w'; trace := trace s ++ evs;
                  mem := set_heap (<[d := dev']> (heap (mem s))) (mem s) |}) ∧
    mu dev' = unlocked ∧
    Forall (fun ev => connect_event ev = true) evs.
Proof.
  intros Hd Hmu. unfold ConnectAll_body. unfold bind.
  rewrite (connectDevice_run _ _ _ Hd Hmu). cbn zeta.
  destruct (lib_NewClient _ _ _) as [[c [e1|]] w1] eqn:Hnew; cbn.
  { unfold deref, bind, get_mem, ret, log_Printf, emit. cbn. rewrite Hd.
    erewrite setError_run by done. cbn.
    eexists _, _, _. rewrite <- !app_assoc. split; [reflexivity|].
    split; [done|]. all_events. }
  destruct (lib_Connect _ _ _) as [[e2|] w2]; cbn.
  { unfold deref, bind, get_mem, ret, log_Printf, emit. cbn. rewrite Hd.
    erewrite setError_run by done. cbn.
    eexists _, _, _. rewrite <- !app_assoc. split; [reflexivity|].
    split; [done|]. all_events. }
  unfold ret. eexists _, _, _. split; [reflexivity|].
  split; [done|]. all_events.
Qed.

Lemma ConnectAll_loop_events (ds : list ptr) (s : state memory) :
  LockInv (mem s) →
  (∀ d, d ∈ ds → is_Some (heap (mem s) !! d)) →
  ∃ s' evs,
    for_range ds ConnectAll_body s = (Ret tt, s') ∧
    trace s' = trace s ++ evs ∧
    Forall (fun ev => connect_event ev = true) evs.
Proof.
  revert s. induction ds as [|d ds IH]; intros s Hlock Hvalid.
  { exists s, []. cbn. unfold ret. by rewrite app_nil_r. }
  destruct (Hvalid d) as [dev Hd]; [apply elem_of_cons; by left|].
  destruct (ConnectAll_body_events d s dev Hd (Hlock _ _ Hd))
    as (dev' & evs1 & w' & Hbody & Hmu' & Hev1).
  set (s1 := {| world := w'; trace := trace s ++ evs1;
                mem := set_heap (<[d := dev']> (heap (mem s))) (mem s) |}) in *.
  destruct (IH s1) as (s' & evs2 & Hloop & Htr & Hev2).
  { by apply LockInv_insert. }
  { intros d0 Hd0. cbn. apply lookup_lt_is_Some. rewrite length_insert.
    apply lookup_lt_is_Some, Hvalid. by right. }
  exists s', (evs1 ++ evs2). cbn [for_range]. unfold bind. rewrite Hbody, Hloop.
  split; [done|]. split; [by rewrite Htr, app_assoc|]. by apply Forall_app.
Qed.

(** X17.  [main] up to its sleep.  When the interfaces cannot be enumerated it
    exits with status 1 after logging the error, with no manager work
    done.  Otherwise it prints the addresses that
    [GetAvailableInterfaces] returned, one per line and in order, adds the
    two devices, asks for a client for each through the local address of
    the device, and starts a goroutine for each whether it connected or
    not.  [ConnectAll] has no error to return, so the log of [main] for
    that error is never written.  After its sleep [main] prints its last
    line and runs the deferred [Close], which cancels the context and
    then waits for as long as the wait group is not at zero. *)
Theorem main_setup_outcome (w : World) :
  let s0 := {| world := w; trace := [];
               mem := {| heap := []; mgr := NewMultiInterfaceManager;
                         goroutines := [] |} |} in
  let en := os_Interfaces w in
  (∀ s : state memory,
     wg (mgr (mem s)) ≠ 0 →
     main_finish s =
     (Blocked,
      {| world := world s;
         trace := trace s ++ [EvPrintln "\n程序结束"; EvCancel];
         mem := set_mgr {| devices := devices (mgr (mem s)); ctx_done := true;
                           wg := wg (mgr (mem s)) |} (mem s) |})) ∧
  match en.1.2 with
  | Some e =>
    main_setup s0 =
    (Exit 1,
     {| world := en.2;
        trace := [EvInterfaces; EvLogFatalf "获取网络接口失败: %v" [ArgError (LibErr e)]];
        mem := mem s0 |})
  | None =>
    ∃ s' pre evs,
      main_setup s0 = (Ret tt, s') ∧
      trace s' =
        EvInterfaces :: pre ++
        EvPrintln "可用的网络接口:" ::
        map (fun ip => EvPrintf "  - %s\n" [ArgString ip])
            (available_addresses en.1.1 en.2) ++
        EvPrintln "\n开始连接设备..." :: evs ++
        EvPrintln "\n开始监控设备..." :: spawn_events [0; 1]%nat ∧
      Forall (fun ev => is_output ev = false) pre ∧
      Forall (fun ev => connect_event ev = true) evs ∧
      new_clients evs =
        [ ("opc.tcp://192.168.100.1:4840", connectDevice_opts "192.168.100.10:0");
          ("opc.tcp://192.168.100.1:4840", connectDevice_opts "192.168.100.20:0") ] ∧
      map config (heap (mem s')) =
        [ ("设备A", "opc.tcp://192.168.100.1:4840", "192.168.100.10:0");
          ("设备B", "opc.tcp://192.168.100.1:4840", "192.168.100.20:0") ] ∧
      mgr (mem s') = {| devices := [0; 1]%nat; ctx_done := false; wg := 2 |} ∧
      goroutines (mem s') = [(0%nat, Spawned); (1%nat, Spawned)]
  end.
Proof.
  intros s0 en. split.
  { intros s Hwg. unfold main_finish, Close.
    erewrite bind_run; [|reflexivity]. erewrite bind_run; [|apply cancel_run].
    unfold wg_Wait. run_mem. destruct (Z.eqb_spec (wg (mgr (mem s))) 0); [done|].
    by rewrite <- app_assoc. }
  unfold main_setup.
  pose proof (GetAvailableInterfaces_run s0) as Hget. cbn zeta in Hget.
  change (os_Interfaces (world s0)) with en in Hget.
  destruct (en.1.2) as [e|].
  { erewrite bind_run; [|exact Hget]. reflexivity. }
  destruct Hget as (s1 & pre & Hget & Ht1 & Hm1 & Hpre).
  erewrite bind_run; [|exact Hget]. cbn beta iota.
  erewrite bind_run; [|reflexivity].
  erewrite bind_run; [|apply print_lines].
  erewrite bind_run; [|reflexivity].
  erewrite bind_run; [|apply AddDevice_run].
  erewrite bind_run; [|apply AddDevice_run].
  erewrite bind_run; [|reflexivity].
  cbn [world trace mem heap mgr goroutines devices ctx_done wg
       NewMultiInterfaceManager set_mgr]. rewrite Hm1. cbn [heap mgr goroutines app length
       devices ctx_done wg].
  set (devA := new_DeviceConnection "设备A" "opc.tcp://192.168.100.1:4840" "192.168.100.10:0").
  set (devB := new_DeviceConnection "设备B" "opc.tcp://192.168.100.1:4840" "192.168.100.20:0").
  match goal with
  | |- context [bind ConnectAll _ ?s] => set (s2 := s)
  end.
  assert (Hlock : LockInv (mem s2)).
  { intros d dev. cbn. destruct d as [|[|d]]; cbn; by intros [= <-]. }
  assert (Hvalid : ∀ d, d ∈ [0; 1]%nat → is_Some (heap (mem s2) !! d)).
  { intros d Hd. apply elem_of_cons in Hd as [->|Hd]; [by eexists|].
    apply list_elem_of_singleton in Hd as ->. by eexists. }
  destruct (ConnectAll_loop [0; 1]%nat s2 Hlock)
    as (s3 & evs & Hloop & Ht3 & Hmgr & Hgo & _ & _ & Hnew & Hdev & _).
  { repeat constructor; not_in_list. }
  { exact Hvalid. }
  destruct (ConnectAll_loop_events [0; 1]%nat s2 Hlock Hvalid)
    as (s3' & evs' & Hloop' & Ht3' & Hev).
  rewrite Hloop in Hloop'. injection Hloop' as <-.
  rewrite Ht3 in Ht3'. apply app_inv_head in Ht3'. subst evs'.
  assert (Hrun : ConnectAll s2 = (Ret None, s3)).
  { unfold ConnectAll. erewrite bind_run; [|reflexivity].
    erewrite bind_run; [|exact Hloop]. reflexivity. }
  erewrite bind_run; [|exact Hrun]. cbn beta iota.
  erewrite bind_run; [|reflexivity].
  erewrite bind_run; [|reflexivity].
  rewrite StartMonitoring_run by (cbn; rewrite Hmgr; cbn; lia).
  eexists _, pre, evs. split; [reflexivity|].
  cbn [world trace mem heap mgr goroutines devices ctx_done wg].
  rewrite Hmgr, Hgo, Ht3. cbn [trace mem mgr goroutines devices ctx_done wg s2 app map
    length Z.of_nat]. rewrite Ht1. cbn [trace s0 app].
  split; [by rewrite <- !app_assoc|].
  split; [done|]. split; [done|].
  assert (Heff := run_call_effect CallConnectAll s2 s3 Hlock).
  cbn [run_call] in Heff. erewrite bind_run in Heff; [|exact Hrun].
  destruct Heff as (Hcfg & _); [done..|].
  split; [|split; [done|done]].
  apply Forall2_cons_inv_l in Hnew as (nc1 & rest1 & (dev1 & Hd1 & ->) & Hnew & ->).
  apply Forall2_cons_inv_l in Hnew as (nc2 & rest2 & (dev2 & Hd2 & ->) & Hnew & ->).
  apply Forall2_nil_inv_l in Hnew as ->.
  cbn in Hd1, Hd2. by simplify_eq.
Qed.

End AdvancedProofs.
End AdvancedProofs.

(** * The theorems at work on the concrete environment *)
Module Checks.
Import Advanced AdvancedProofs.
#[local] Existing Instance TestEnv.env.

(** The environment keeps the promise of [opcua.NewClient]. *)
Lemma test_env_contract : NewClient_contract (E := TestEnv.env).
Proof.
  intros endpoint opts w c w'. cbn. unfold TestEnv.NewClient.
  destruct (TestEnv.answer w) as [a w1]. destruct (a =? 0); intros [= <- _]; eauto.
Qed.

Lemma exec_enabled (l : list sched) (sys : system (E := TestEnv.env)) :
  enabled l sys = true → exec l sys = Some (after l sys).
Proof. unfold enabled, after. by destruct (exec l sys). Qed.

Lemma step_enabled (ch : sched) (sys : system (E := TestEnv.env)) :
  enabled [ch] sys = true → step ch sys = Some (after [ch] sys).
Proof. unfold enabled, after. cbn. by destruct (step ch sys). Qed.

(** Witness of C4: the main goroutine calls [Close] while both monitoring
    goroutines run, and waits; and, at the end of the run
    [TestEnv.schedule], [m.wg.Wait()] returns. *)
Lemma Close_waits_for_monitors_witness :
  (exec (take 7 TestEnv.schedule) (init TestEnv.answers TestEnv.calls)
     = Some (TestEnv.run_of (take 7 TestEnv.schedule)) ∧
   closing (TestEnv.run_of (take 7 TestEnv.schedule)) = false ∧
   script (TestEnv.run_of (take 7 TestEnv.schedule)) = [CallClose] ∧
   ∃ sys1,
     step RunMain (TestEnv.run_of (take 7 TestEnv.schedule)) = Some sys1 ∧
     cancel (st (TestEnv.run_of (take 7 TestEnv.schedule))) = (Ret tt, st sys1) ∧
     closing sys1 = true) ∧
  (exec TestEnv.schedule (init TestEnv.answers TestEnv.calls) = Some TestEnv.waiting ∧
   closing TestEnv.waiting = true ∧
   step RunMain TestEnv.waiting = Some TestEnv.closed ∧
   Close_rest (st TestEnv.waiting) = (Ret tt, st TestEnv.closed) ∧
   (∀ i d g, goroutines (mem (st TestEnv.waiting)) !! i = Some (d, g) → g = Finished)).
Proof.
  destruct Close_waits_for_monitors as (_ & Hcall & Hwait & _).
  assert (H0 : exec (take 7 TestEnv.schedule) (init TestEnv.answers TestEnv.calls)
               = Some (TestEnv.run_of (take 7 TestEnv.schedule)))
    by (apply exec_enabled; vm_compute; reflexivity).
  assert (H0c : closing (TestEnv.run_of (take 7 TestEnv.schedule)) = false)
    by (vm_compute; reflexivity).
  assert (H0s : script (TestEnv.run_of (take 7 TestEnv.schedule)) = [CallClose])
    by (vm_compute; reflexivity).
  assert (H1 : exec TestEnv.schedule (init TestEnv.answers TestEnv.calls)
               = Some TestEnv.waiting)
    by (apply exec_enabled; vm_compute; reflexivity).
  assert (H2 : closing TestEnv.waiting = true) by (vm_compute; reflexivity).
  assert (H3 : step RunMain TestEnv.waiting = Some TestEnv.closed)
    by (apply step_enabled; vm_compute; reflexivity).
  destruct (Hcall TestEnv.answers TestEnv.calls (take 7 TestEnv.schedule)
              (TestEnv.run_of (take 7 TestEnv.schedule)) [] H0 H0c H0s)
    as (sys1 & Hs1 & Hc1 & Hcl1 & _).
  destruct (Hwait TestEnv.answers TestEnv.calls TestEnv.schedule
              TestEnv.waiting TestEnv.closed H1 H2 H3) as (Hrest & Hfin & _).
  exact (conj (conj H0 (conj H0c (conj H0s (ex_intro _ sys1 (conj Hs1 (conj Hc1 Hcl1))))))
              (conj H1 (conj H2 (conj H3 (conj Hrest Hfin))))).
Defined.

Lemma run_fst {U A} (m : M (E := TestEnv.env) U A) s a :
  (m s).1 = a → m s = (a, (m s).2).
Proof. intros <-. by destruct (m s). Qed.

(** Witness of C3: a tick for the connected device, whose health check is
    issued; three ticks, each with its health check; a goroutine that
    ticks and then takes the other branch, after [m.cancel()]; and, in the
    run [TestEnv.schedule], the step of the first goroutine that makes the
    health check on the client it has read. *)
Lemma monitorDevice_health_checks_witness :
  (heap (mem TestEnv.connected) !! 0%nat = Some TestEnv.device_A ∧
   mu TestEnv.device_A = unlocked ∧
   ∃ evs s',
     monitorDevice_tick 0%nat TestEnv.connected = (Ret tt, s') ∧
     trace s' = trace TestEnv.connected ++ evs ∧
     mem s' = mem TestEnv.connected ∧
     EvRead (Client TestEnv.device_A) ManagerCtx healthCheck_req ∈ evs) ∧
  (∃ s' evs,
     monitorDevice 0%nat (replicate 3 CaseTick) TestEnv.connected = (Ret false, s') ∧
     trace s' = trace TestEnv.connected ++ EvNewTicker (10 * Second) :: evs ∧
     read_clients evs =
       if Connected TestEnv.device_A && bool_decide (is_Some (Client TestEnv.device_A))
       then replicate 3 (Client TestEnv.device_A) else []) ∧
  (∃ s',
     monitorDevice 0%nat [CaseTick; CaseDone] TestEnv.cancelled = (Ret true, s') ∧
     CaseDone ∈ [CaseTick; CaseDone] ∧
     ctx_done (mgr (mem s')) = true) ∧
  (exec (take 9 TestEnv.schedule) (init TestEnv.answers TestEnv.calls)
     = Some (TestEnv.run_of (take 9 TestEnv.schedule)) ∧
   goroutines (mem (st (TestEnv.run_of (take 9 TestEnv.schedule)))) !! 0%nat
     = Some (0%nat, Fetched (Some 6)) ∧
   step (RunMonitor 0 CaseTick) (TestEnv.run_of (take 9 TestEnv.schedule))
     = Some (after [RunMonitor 0 CaseTick] (TestEnv.run_of (take 9 TestEnv.schedule))) ∧
   ∃ dev,
     heap (mem (st (TestEnv.run_of (take 9 TestEnv.schedule)))) !! 0%nat = Some dev ∧
     goroutines (mem (st (after [RunMonitor 0 CaseTick]
                            (TestEnv.run_of (take 9 TestEnv.schedule))))) !! 0%nat
       = Some (0%nat, Looping) ∧
     ∃ err s2 evs,
       healthCheck (Some 6) (Name dev) (st (TestEnv.run_of (take 9 TestEnv.schedule)))
         = (Ret err, s2) ∧
       trace s2 = trace (st (TestEnv.run_of (take 9 TestEnv.schedule))) ++
                  EvRead (Some 6) ManagerCtx healthCheck_req :: evs).
Proof.
  destruct monitorDevice_health_checks as (_ & Htick & Hticks & Hleft & _ & Hstep).
  assert (Hd : heap (mem TestEnv.connected) !! 0%nat = Some TestEnv.device_A)
    by (vm_compute; reflexivity).
  assert (Hmu : mu TestEnv.device_A = unlocked) by reflexivity.
  assert (H0 : exec (take 9 TestEnv.schedule) (init TestEnv.answers TestEnv.calls)
               = Some (TestEnv.run_of (take 9 TestEnv.schedule)))
    by (apply exec_enabled; vm_compute; reflexivity).
  assert (Hg : goroutines (mem (st (TestEnv.run_of (take 9 TestEnv.schedule)))) !! 0%nat
               = Some (0%nat, Fetched (Some 6)))
    by (vm_compute; reflexivity).
  assert (H1 : step (RunMonitor 0 CaseTick) (TestEnv.run_of (take 9 TestEnv.schedule))
               = Some (after [RunMonitor 0 CaseTick]
                         (TestEnv.run_of (take 9 TestEnv.schedule))))
    by (apply step_enabled; vm_compute; reflexivity).
  refine (conj (conj Hd (conj Hmu _)) (conj _ (conj _ (conj H0 (conj Hg (conj H1 _)))))).
  - destruct (Htick 0%nat TestEnv.connected TestEnv.device_A Hd Hmu)
      as (evs & s' & Hrun & Htr & Hmem & _ & Hcheck).
    destruct Hcheck as (err & s2 & _ & Hin & _); [reflexivity|by eexists|].
    exists evs, s'. exact (conj Hrun (conj Htr (conj Hmem Hin))).
  - exact (Hticks 0%nat 3%nat TestEnv.connected TestEnv.device_A Hd Hmu).
  - assert (H : monitorDevice 0%nat [CaseTick; CaseDone] TestEnv.cancelled
                = (Ret true, (monitorDevice 0%nat [CaseTick; CaseDone] TestEnv.cancelled).2))
      by (apply run_fst; vm_compute; reflexivity).
    eexists. split; [exact H|]. exact (Hleft _ _ _ _ H).
  - destruct (Hstep TestEnv.answers TestEnv.calls (take 9 TestEnv.schedule)
                (TestEnv.run_of (take 9 TestEnv.schedule)) 0%nat CaseTick
                (after [RunMonitor 0 CaseTick] (TestEnv.run_of (take 9 TestEnv.schedule)))
                0%nat _ H0 Hg H1)
      as (dev & Hdev & _ & Hloop & err & s2 & evs & Hc & Ht & _).
    exact (ex_intro _ dev (conj Hdev (conj Hloop
             (ex_intro _ err (ex_intro _ s2 (ex_intro _ evs (conj Hc Ht))))))).
Defined.

(** C3, as it is stated, fails.  A program that calls [ConnectAll] again
    while its device is monitored: the goroutine finds the device
    connected; the second [ConnectAll] fails and [setError] clears
    [Connected]; the goroutine then reads the client, and its next step
    calls [healthCheck] on it, for a device that reports not connected. *)
Lemma health_check_after_disconnect :
  enabled (TestEnv.reconnect_schedule ++ [RunMonitor 0 CaseTick])
    (init (E := TestEnv.env) TestEnv.reconnect_answers TestEnv.reconnect_calls) = true ∧
  Connected <$> heap (mem (st TestEnv.disconnected)) = [false] ∧
  (IsConnected 0%nat (st TestEnv.disconnected)).1 = Ret false ∧
  read_clients (trace (st TestEnv.disconnected)) = [] ∧
  trace (st (after [RunMonitor 0 CaseTick] TestEnv.disconnected)) =
    trace (st TestEnv.disconnected) ++
    [EvRead (Some 4) ManagerCtx healthCheck_req;
     EvPrintf "✓ 设备 %s 健康检查通过\n" [ArgString "设备A"]].
Proof. split_and!; vm_compute; reflexivity. Qed.

(** Witness of C2: the first device connects; the second fails to. *)
Lemma connection_state_tracked_witness :
  (∃ s',
     connectDevice 0%nat TestEnv.added = (Ret None, s') ∧
     ∃ dev dev',
       heap (mem TestEnv.added) !! 0%nat = Some dev ∧
       heap (mem s') !! 0%nat = Some dev' ∧
       Connected dev' = true ∧
       Client dev' = (lib_NewClient (Endpoint dev) (connectDevice_opts (LocalAddr dev))
                        (world TestEnv.added)).1.1 ∧
       LastError dev' = None) ∧
  (∃ s1 e s2 r s',
     devices (mgr (mem TestEnv.added)) = [0%nat] ++ 1%nat :: [] ∧
     (1%nat ∉ @nil nat) ∧
     for_range [0%nat] ConnectAll_body TestEnv.added = (Ret tt, s1) ∧
     connectDevice 1%nat s1 = (Ret (Some e), s2) ∧
     ConnectAll TestEnv.added = (Ret r, s') ∧
     ∃ dev',
       heap (mem s') !! 1%nat = Some dev' ∧
       Connected dev' = false ∧
       LastError dev' = Some e).
Proof.
  split.
  - assert (H : connectDevice 0%nat TestEnv.added
                = (Ret None, (connectDevice 0%nat TestEnv.added).2))
      by (apply run_fst; vm_compute; reflexivity).
    eexists. split; [exact H|].
    exact (proj1 connection_state_tracked 0%nat TestEnv.added _ H).
  - set (s1 := (for_range [0%nat] ConnectAll_body TestEnv.added).2).
    set (e := Errorf "连接失败: %v" [ErrArgError (LibErr (9%Z : @LibError TestEnv.env))]).
    assert (H0 : devices (mgr (mem TestEnv.added)) = [0%nat] ++ 1%nat :: [])
      by (vm_compute; reflexivity).
    assert (H1 : 1%nat ∉ @nil nat) by apply not_elem_of_nil.
    assert (H2 : for_range [0%nat] ConnectAll_body TestEnv.added = (Ret tt, s1))
      by (apply (run_fst (for_range [0%nat] ConnectAll_body) TestEnv.added);
          vm_compute; reflexivity).
    assert (H3 : connectDevice 1%nat s1 = (Ret (Some e), (connectDevice 1%nat s1).2))
      by (apply run_fst; vm_compute; reflexivity).
    assert (H4 : ConnectAll TestEnv.added = (Ret None, (ConnectAll TestEnv.added).2))
      by (apply run_fst; vm_compute; reflexivity).
    exists s1, e, (connectDevice 1%nat s1).2, None, (ConnectAll TestEnv.added).2.
    split_and!; [exact H0|exact H1|exact H2|exact H3|exact H4|].
    exact (proj2 connection_state_tracked TestEnv.added [0%nat] 1%nat [] s1 e _ None _
             H0 H1 H2 H3 H4).
Defined.

(** Witness of C5, amended: the run [TestEnv.schedule], and the run of
    the program without [Close] up to the third tick. *)
Lemma lock_discipline_outside_Close_witness :
  (exec TestEnv.schedule (init TestEnv.answers TestEnv.calls) = Some TestEnv.waiting ∧
   Forall (fun ev => client_load ev = true)
     (unguarded no_locks (trace (st TestEnv.waiting))) ∧
   (CallClose ∉ TestEnv.calls → unguarded no_locks (trace (st TestEnv.waiting)) = [])) ∧
  (exec (take 7 TestEnv.schedule) (init TestEnv.answers TestEnv.without_close)
     = Some TestEnv.monitoring ∧
   (CallClose ∉ TestEnv.without_close) ∧
   unguarded no_locks (trace (st TestEnv.monitoring)) = []).
Proof.
  assert (H1 : exec TestEnv.schedule (init TestEnv.answers TestEnv.calls)
               = Some TestEnv.waiting)
    by (apply exec_enabled; vm_compute; reflexivity).
  assert (H2 : exec (take 7 TestEnv.schedule) (init TestEnv.answers TestEnv.without_close)
               = Some TestEnv.monitoring)
    by (apply exec_enabled; vm_compute; reflexivity).
  assert (H3 : CallClose ∉ TestEnv.without_close)
    by (unfold TestEnv.without_close, TestEnv.calls, main_calls; cbn [take];
        not_in_list).
  exact (conj
    (conj H1
       (lock_discipline_outside_Close TestEnv.answers TestEnv.calls TestEnv.schedule
          TestEnv.waiting H1))
    (conj H2 (conj H3
       (proj2 (lock_discipline_outside_Close TestEnv.answers TestEnv.without_close
                 (take 7 TestEnv.schedule) TestEnv.monitoring H2) H3)))).
Defined.

(** C5, as it is stated, fails.  A program that adds one device and calls
    [Close] reads the [Client] of the device with no lock held. *)
Lemma Close_reads_Client_unlocked :
  enabled [RunMain; RunMain; RunMain] (init (E := TestEnv.env) [] TestEnv.add_and_close)
    = true ∧
  unguarded no_locks
    (trace (st (after [RunMain; RunMain; RunMain]
                  (init (E := TestEnv.env) [] TestEnv.add_and_close))))
    = [EvLoad 0%nat FClient].
Proof. split; vm_compute; reflexivity. Qed.

(** Witness of C8: the run [TestEnv.schedule]. *)
Lemma connected_has_client_witness :
  NewClient_contract (E := TestEnv.env) ∧
  exec TestEnv.schedule (init TestEnv.answers TestEnv.calls) = Some TestEnv.waiting ∧
  (∀ d dev, heap (mem (st TestEnv.waiting)) !! d = Some dev →
     Connected dev = true → is_Some (Client dev) ∧ LastError dev = None) ∧
  (∀ name endpoint localAddr (s : state memory),
     ∃ s' dev,
       AddDevice name endpoint localAddr s = (Ret tt, s') ∧
       heap (mem s') = heap (mem s) ++ [dev] ∧
       devices (mgr (mem s')) = devices (mgr (mem s)) ++ [length (heap (mem s))] ∧
       Connected dev = false ∧ Client dev = None ∧ LastError dev = None).
Proof.
  assert (H1 : exec TestEnv.schedule (init TestEnv.answers TestEnv.calls)
               = Some TestEnv.waiting)
    by (apply exec_enabled; vm_compute; reflexivity).
  exact (conj test_env_contract (conj H1
    (connected_has_client TestEnv.answers TestEnv.calls TestEnv.schedule
       TestEnv.waiting test_env_contract H1))).
Defined.

(** ** The programs on the concrete environment *)

(** [GetAvailableInterfaces] skips the loopback address, the IPv6 address
    and the interface that is down. *)
Example GetAvailableInterfaces_test :
  (GetAvailableInterfaces (TestEnv.start TestEnv.empty_memory [])).1
  = Ret (["192.168.100.10"], None).
Proof. vm_compute. reflexivity. Qed.

(** With the second connection failing, [main] exits before any read. *)
Example main_second_connection_fails :
  (Basic.main Basic.default_flags (TestEnv.start tt [0; 0; 0; 2])).1 = Exit 1.
Proof. vm_compute. reflexivity. Qed.

(** With the first read answered by a bad status, [main] still returns. *)
Example main_first_read_fails :
  (Basic.main Basic.default_flags (TestEnv.start tt [0; 0; 0; 0; 2; 0])).1 = Ret tt.
Proof. vm_compute. reflexivity. Qed.

(** After [ConnectAll], the second device of the run is not connected. *)
Example second_device_not_connected :
  (Connected <$> heap (mem TestEnv.connected)) = [true; false].
Proof. vm_compute. reflexivity. Qed.

(** ** Runs for the properties of the manager *)

(** The run of the advanced example up to the call of [Close], followed
    by every invariant of a run. *)
Lemma run_to_Close :
  exec TestEnv.schedule (init TestEnv.answers TestEnv.calls) = Some TestEnv.waiting.
Proof. apply exec_enabled; vm_compute; reflexivity. Qed.

Lemma run_to_ConnectAll :
  exec [RunMain; RunMain; RunMain] (init TestEnv.answers TestEnv.calls)
  = Some (TestEnv.run_of [RunMain; RunMain; RunMain]).
Proof. apply exec_enabled; vm_compute; reflexivity. Qed.

(** The second attempt of the run fails in [Connect]. *)
Lemma connectDevice_failure_leaves_device_witness :
  heap (mem TestEnv.half_connected) !! 1%nat = Some TestEnv.device_B ∧
  connectDevice 1%nat TestEnv.half_connected
    = (Ret (Some TestEnv.connect_error), (connectDevice 1%nat TestEnv.half_connected).2) ∧
  mem (connectDevice 1%nat TestEnv.half_connected).2 = mem TestEnv.half_connected.
Proof.
  assert (H1 : heap (mem TestEnv.half_connected) !! 1%nat = Some TestEnv.device_B)
    by (vm_compute; reflexivity).
  assert (H2 : connectDevice 1%nat TestEnv.half_connected
               = (Ret (Some TestEnv.connect_error),
                  (connectDevice 1%nat TestEnv.half_connected).2))
    by (apply run_fst; vm_compute; reflexivity).
  exact (conj H1 (conj H2
    (proj1 (connectDevice_failure_leaves_device 1%nat TestEnv.half_connected _
              TestEnv.device_B TestEnv.connect_error H1 H2)))).
Defined.

(** The first device of the run after [ConnectAll]: it is connected. *)
Lemma accessors_reflect_updates_witness :
  heap (mem TestEnv.connected) !! 0%nat = Some TestEnv.device_A ∧
  mu TestEnv.device_A = unlocked ∧
  (IsConnected 0%nat TestEnv.connected).1 = Ret (Connected TestEnv.device_A) ∧
  mem (IsConnected 0%nat TestEnv.connected).2 = mem TestEnv.connected.
Proof.
  assert (H1 : heap (mem TestEnv.connected) !! 0%nat = Some TestEnv.device_A)
    by (vm_compute; reflexivity).
  assert (H2 : mu TestEnv.device_A = unlocked) by reflexivity.
  exact (conj H1 (conj H2
    (proj1 (accessors_reflect_updates 0%nat TestEnv.connected TestEnv.device_A H1 H2)))).
Defined.

(** [ConnectAll] once more, after the run has connected the first
    device. *)
Lemma ConnectAll_reconnects_without_closing_witness :
  LockInv (mem TestEnv.connected) ∧
  NoDup (devices (mgr (mem TestEnv.connected))) ∧
  (∀ d, d ∈ devices (mgr (mem TestEnv.connected)) →
        is_Some (heap (mem TestEnv.connected) !! d)) ∧
  ∃ s' evs,
    ConnectAll TestEnv.connected = (Ret None, s') ∧
    trace s' = trace TestEnv.connected ++ evs ∧
    closed_clients evs = [] ∧
    length (new_clients evs) = length (devices (mgr (mem TestEnv.connected))).
Proof.
  destruct (RegInv_exec _ _ _ _ run_to_ConnectAll) as [Hsys Hreg].
  destruct (RegInv_valid _ _ Hreg) as (Hvalid & Hnd & _).
  destruct Hsys as (Hlock & _).
  refine (conj Hlock (conj Hnd (conj Hvalid _))).
  destruct (ConnectAll_reconnects_without_closing TestEnv.connected Hlock Hnd Hvalid)
    as (s' & evs & Hrun & Ht & Hcl & Hnew & _).
  exists s', evs. exact (conj Hrun (conj Ht (conj Hcl Hnew))).
Defined.

(** [StartMonitoring] in the run, where the wait group is at zero. *)
Lemma StartMonitoring_spawns_witness :
  0 ≤ wg (mgr (mem TestEnv.connected)) ∧
  ∃ s',
    StartMonitoring TestEnv.connected = (Ret tt, s') ∧
    goroutines (mem s') =
      goroutines (mem TestEnv.connected) ++
      map (fun d => (d, Spawned)) (devices (mgr (mem TestEnv.connected))).
Proof.
  assert (H : 0 ≤ wg (mgr (mem TestEnv.connected))) by (vm_compute; discriminate).
  split; [exact H|].
  destruct (StartMonitoring_spawns TestEnv.connected H)
    as (s' & Hrun & _ & _ & _ & _ & _ & Hg & _).
  exists s'. exact (conj Hrun Hg).
Defined.

(** [Close] right after [ConnectAll], with no monitoring started. *)
Lemma Close_keeps_devices_witness :
  (∀ d, d ∈ devices (mgr (mem TestEnv.connected)) →
        is_Some (heap (mem TestEnv.connected) !! d)) ∧
  wg (mgr (mem TestEnv.connected)) = 0 ∧
  ∃ s',
    Close TestEnv.connected = (Ret tt, s') ∧
    heap (mem s') = heap (mem TestEnv.connected).
Proof.
  destruct (RegInv_exec _ _ _ _ run_to_ConnectAll) as [_ Hreg].
  destruct (RegInv_valid _ _ Hreg) as (Hvalid & _).
  assert (Hwg : wg (mgr (mem TestEnv.connected)) = 0) by (vm_compute; reflexivity).
  refine (conj Hvalid (conj Hwg _)).
  destruct (proj2 (Close_keeps_devices TestEnv.connected Hvalid) Hwg)
    as (s' & Hrun & Hh & _).
  exists s'. exact (conj Hrun Hh).
Defined.


(** The run of the advanced example up to the call of [Close]. *)
Lemma devices_registered_in_order_witness :
  exec TestEnv.schedule (init TestEnv.answers TestEnv.calls) = Some TestEnv.waiting ∧
  ∃ made,
    TestEnv.calls = made ++ script TestEnv.waiting ∧
    map config (heap (mem (st TestEnv.waiting))) = added made ∧
    devices (mgr (mem (st TestEnv.waiting))) = seq 0 (length (added made)) ∧
    ∀ i d g, goroutines (mem (st TestEnv.waiting)) !! i = Some (d, g) →
             (d < length (added made))%nat.
Proof.
  exact (conj run_to_Close
    (devices_registered_in_order TestEnv.answers TestEnv.calls TestEnv.schedule
       TestEnv.waiting run_to_Close)).
Defined.

Lemma wait_group_counts_goroutines_witness :
  exec TestEnv.schedule (init TestEnv.answers TestEnv.calls) = Some TestEnv.waiting ∧
  wg (mgr (mem (st TestEnv.waiting))) = running (goroutines (mem (st TestEnv.waiting))) ∧
  0 ≤ wg (mgr (mem (st TestEnv.waiting))).
Proof.
  destruct (wait_group_counts_goroutines TestEnv.answers TestEnv.calls TestEnv.schedule
              TestEnv.waiting run_to_Close) as (H1 & H2 & _).
  exact (conj run_to_Close (conj H1 H2)).
Defined.

Lemma run_to_StartMonitoring :
  exec (take 4 TestEnv.schedule) (init TestEnv.answers TestEnv.calls)
  = Some TestEnv.started.
Proof. apply exec_enabled; vm_compute; reflexivity. Qed.

(** The first segment of a tick of the first goroutine. *)
Lemma monitoring_never_writes_witness :
  exec (take 6 TestEnv.schedule) (init TestEnv.answers TestEnv.calls)
    = Some (TestEnv.run_of (take 6 TestEnv.schedule)) ∧
  step (RunMonitor 0 CaseTick) (TestEnv.run_of (take 6 TestEnv.schedule))
    = Some (after [RunMonitor 0 CaseTick] (TestEnv.run_of (take 6 TestEnv.schedule))) ∧
  heap (mem (st (after [RunMonitor 0 CaseTick] (TestEnv.run_of (take 6 TestEnv.schedule)))))
    = heap (mem (st (TestEnv.run_of (take 6 TestEnv.schedule)))).
Proof.
  assert (H1 : exec (take 6 TestEnv.schedule) (init TestEnv.answers TestEnv.calls)
               = Some (TestEnv.run_of (take 6 TestEnv.schedule)))
    by (apply exec_enabled; vm_compute; reflexivity).
  assert (H2 : step (RunMonitor 0 CaseTick) (TestEnv.run_of (take 6 TestEnv.schedule))
               = Some (after [RunMonitor 0 CaseTick]
                         (TestEnv.run_of (take 6 TestEnv.schedule))))
    by (apply step_enabled; vm_compute; reflexivity).
  exact (conj H1 (conj H2
    (proj1 (monitoring_never_writes TestEnv.answers TestEnv.calls (take 6 TestEnv.schedule)
              (TestEnv.run_of (take 6 TestEnv.schedule)) 0%nat CaseTick _ H1 H2)))).
Defined.

Lemma segments_run_or_wait_witness :
  calls_ok 0 TestEnv.calls = true ∧
  exec TestEnv.schedule (init TestEnv.answers TestEnv.calls) = Some TestEnv.waiting ∧
  (closing TestEnv.waiting = true →
     (is_Some (step RunMain TestEnv.waiting) ↔ wg (mgr (mem (st TestEnv.waiting))) = 0)).
Proof.
  assert (H1 : calls_ok 0 TestEnv.calls = true) by (vm_compute; reflexivity).
  destruct (segments_run_or_wait TestEnv.answers TestEnv.calls TestEnv.schedule
              TestEnv.waiting H1 run_to_Close) as (_ & _ & H & _).
  exact (conj H1 (conj run_to_Close H)).
Defined.

(** The main goroutine inside [Close], the goroutines still running. *)
Lemma Close_can_return_witness :
  exec (take 8 TestEnv.schedule) (init TestEnv.answers TestEnv.calls)
    = Some (TestEnv.run_of (take 8 TestEnv.schedule)) ∧
  closing (TestEnv.run_of (take 8 TestEnv.schedule)) = true ∧
  ∃ sys',
    exec (drain (goroutines (mem (st (TestEnv.run_of (take 8 TestEnv.schedule))))) 0
            ++ [RunMain])
         (TestEnv.run_of (take 8 TestEnv.schedule)) = Some sys' ∧
    closing sys' = false.
Proof.
  assert (H1 : exec (take 8 TestEnv.schedule) (init TestEnv.answers TestEnv.calls)
               = Some (TestEnv.run_of (take 8 TestEnv.schedule)))
    by (apply exec_enabled; vm_compute; reflexivity).
  assert (H2 : closing (TestEnv.run_of (take 8 TestEnv.schedule)) = true)
    by (vm_compute; reflexivity).
  destruct (Close_can_return TestEnv.answers TestEnv.calls (take 8 TestEnv.schedule)
              (TestEnv.run_of (take 8 TestEnv.schedule)) H1 H2)
    as (sys' & Hexec & Hcl & _).
  refine (conj H1 (conj H2 _)). exists sys'. exact (conj Hexec Hcl).
Defined.

(** A goroutine of [monitorMultipleDevices] that connects, polls once and
    is cancelled. *)
Lemma poll_device_returns_witness :
  Basic.poll_device ManagerCtx TestEnv.polled [CaseTick; CaseDone] (TestEnv.start tt [])
    = (Ret true,
       (Basic.poll_device ManagerCtx TestEnv.polled [CaseTick; CaseDone]
          (TestEnv.start tt [])).2) ∧
  ∃ client err s1,
    Basic.connectWithLocalAddr ManagerCtx (Basic.dev_endpoint TestEnv.polled)
      (Basic.dev_localAddr TestEnv.polled) (TestEnv.start tt [])
      = (Ret (client, err), s1).
Proof.
  assert (H : Basic.poll_device ManagerCtx TestEnv.polled [CaseTick; CaseDone]
                (TestEnv.start tt [])
              = (Ret true,
                 (Basic.poll_device ManagerCtx TestEnv.polled [CaseTick; CaseDone]
                    (TestEnv.start tt [])).2))
    by (apply run_fst; vm_compute; reflexivity).
  split; [exact H|].
  destruct (BasicProofs.poll_device_returns ManagerCtx TestEnv.polled [CaseTick; CaseDone]
              (TestEnv.start tt []) _ H) as (client & err & s1 & Hc & _).
  exists client, err, s1. exact Hc.
Defined.

(** On the concrete host, [main] of the advanced example reaches its
    sleep with two goroutines started. *)
Example main_setup_test :
  (main_setup (TestEnv.start TestEnv.empty_memory TestEnv.answers)).1 = Ret tt ∧
  goroutines (mem (main_setup (TestEnv.start TestEnv.empty_memory TestEnv.answers)).2)
    = [(0%nat, Spawned); (1%nat, Spawned)].
Proof. split; vm_compute; reflexivity. Qed.

End Checks.
